(** * The wasm-go plugin wrapper: lifecycle runtime

    A shallow embedding of [plugins/wasm-go/pkg/wrapper/plugin_wrapper.go]:
    the plugin-wide context and its construction, plugin start, the tick
    scheduler, the per-exchange phase handlers and the user-attribute
    exporters, followed by the properties the design document states about
    them.

    Conventions.
    - Go [string] and [[]byte] are both byte sequences and are modelled by
      [string]; the conversions [string(b)] and [[]byte(s)] are the identity.
    - A Go [error] is modelled by its message; [nil] is [None].
    - Go [int] has 32 bits on the wasm32 target of TinyGo, with which the
      plugins are built, and [int64] has 64; both wrap around.
    - The proxy-wasm host, the clock, the rule matcher and the JSON codec are
      collaborators outside this file: they are operations of a type class
      over an abstract [World].
    - A call through a nil interface, an assignment to an entry of a nil
      map or a call of [panic] ends the current signal with [Panicked]. *)

From Stdlib Require Import ZArith Lia List Ascii String DecimalString.
From stdpp Require Import gmap strings list fin_maps sorting.

Local Open Scope string_scope.
Local Open Scope list_scope.
Local Open Scope Z_scope.

(** ** Machine integers *)

Definition wrap (bits : Z) (z : Z) : Z :=
  let r := z mod 2 ^ bits in
  if r <? 2 ^ (bits - 1) then r else r - 2 ^ bits.

Definition int_bits : Z := 32.
Definition int_add (x y : Z) : Z := wrap int_bits (x + y).
Definition int64_sub (x y : Z) : Z := wrap 64 (x - y).
Definition in_int (z : Z) : Prop := - 2 ^ 31 <= z < 2 ^ 31.

(** The double quote, as a character and as a string. *)
Definition quote_char : ascii := "034"%char.
Definition dquote : string := String quote_char EmptyString.

Definition strconv_Itoa (z : Z) : string :=
  NilZero.string_of_int (Z.to_int z).

(** ** Results of the SDK *)

Inductive Action := ActionContinue | ActionPause.
Inductive OnPluginStartStatus :=
  OnPluginStartStatusOK | OnPluginStartStatusFailed.

Definition error := string.
Definition ErrorStatusNotFound : error :=
  "error status returned by host: not found".

Inductive Outcome (A : Type) :=
| Returned (a : A)
| Panicked (msg : string).
Arguments Returned {A} a.
Arguments Panicked {A} msg.

Definition nil_dereference : string :=
  "invalid memory address or nil pointer dereference".
Definition nil_map_assignment : string := "assignment to entry in nil map".

Definition CustomLogKey : string := "custom_log".
Definition AILogKey : string := "ai_log".
Definition TraceSpanTagPrefix : string := "trace_span_tag.".

(** ** Collaborators *)

(** The proxy-wasm host functions the wrapper calls, and the clock. *)
Class ProxyWasm (World : Type) := {
  GetPluginConfiguration : World -> (string * option error) * World;
  SetTickPeriodMilliSeconds : Z -> World -> option error * World;
  GetProperty : list string -> World -> (string * option error) * World;
  SetProperty : list string -> string -> World -> option error * World;
  GetHttpRequestHeader : string -> World -> (string * option error) * World;
  GetHttpRequestBody : Z -> Z -> World -> (string * option error) * World;
  ReplaceHttpRequestBody : string -> World -> option error * World;
  GetHttpResponseBody : Z -> Z -> World -> (string * option error) * World;
  ReplaceHttpResponseBody : string -> World -> option error * World;
  SetEffectiveContext : Z -> World -> World;
  time_Now_UnixMilli : World -> Z * World
}.

(** [encoding/json] on attribute maps, the order in which [range] visits a
    map (unspecified in Go: any enumeration of the entries), [fmt.Sprint]
    and the dynamic type tests on [interface{}] values. A variable of type
    [map[string]interface{}] holds a map or nil; nil is [None].
    [json_Unmarshal text] is [json.Unmarshal] of [text] into a variable
    that holds an empty map: what the variable holds afterwards and the
    error. A JSON null is decoded without error and leaves the variable
    nil. [json_Marshal] yields the text and the error. *)
Class Codec (Value : Type) := {
  json_Unmarshal : string -> option (gmap string Value) * option error;
  json_Marshal : option (gmap string Value) -> string * option error;
  map_range : gmap string Value -> list (string * Value);
  fmt_Sprint : Value -> string;
  as_bool : Value -> option bool;
  as_string : Value -> option string
}.

(** Functions of package [wrapper] that live in its other files; what the
    two string helpers log on their own is not part of the model. *)
Class Helpers (World : Type) := {
  unmarshalStr : string -> string;
  marshalStr : string -> string;
  IsBinaryRequestBody : World -> bool * World;
  IsBinaryResponseBody : World -> bool * World;
  GetRequestScheme : World -> string * World;
  GetRequestHost : World -> string * World;
  GetRequestPath : World -> string * World;
  GetRequestMethod : World -> string * World
}.

(** ** Observations

    Every log line, every host call made by the wrapper and every call of a
    user callback is appended to a trace, oldest first. *)

Inductive LogLevel := LvlInfo | LvlWarn | LvlError | LvlCritical.

Inductive HostOp :=
| OpGetPluginConfiguration
| OpSetTickPeriodMilliSeconds (period : Z)
| OpGetProperty (path : list string)
| OpSetProperty (path : list string) (value : string)
| OpGetHttpRequestHeader (key : string)
| OpGetHttpRequestBody (start size : Z)
| OpReplaceHttpRequestBody (body : string)
| OpGetHttpResponseBody (start size : Z)
| OpReplaceHttpResponseBody (body : string)
| OpGetMatchConfig
| OpParseRuleConfig
| OpIsBinaryRequestBody
| OpIsBinaryResponseBody
| OpSetEffectiveContext (contextID : Z)
| OpGetRequestScheme
| OpGetRequestHost
| OpGetRequestPath
| OpGetRequestMethod.

Inductive Invocation (PluginConfig : Type) :=
| InvRequestHeaders (config : PluginConfig)
| InvRequestBody (config : PluginConfig) (body : string)
| InvStreamingRequestBody (config : PluginConfig) (chunk : string) (isLastChunk : bool)
| InvResponseHeaders (config : PluginConfig)
| InvResponseBody (config : PluginConfig) (body : string)
| InvStreamingResponseBody (config : PluginConfig) (chunk : string) (isLastChunk : bool)
| InvStreamDone (config : PluginConfig)
| InvTick (index : nat).
Arguments InvRequestHeaders {PluginConfig} config.
Arguments InvRequestBody {PluginConfig} config body.
Arguments InvStreamingRequestBody {PluginConfig} config chunk isLastChunk.
Arguments InvResponseHeaders {PluginConfig} config.
Arguments InvResponseBody {PluginConfig} config body.
Arguments InvStreamingResponseBody {PluginConfig} config chunk isLastChunk.
Arguments InvStreamDone {PluginConfig} config.
Arguments InvTick {PluginConfig} index.

Inductive Event (PluginConfig : Type) :=
| EvLog (lvl : LogLevel) (msg : string)
| EvHost (op : HostOp)
| EvInvoke (inv : Invocation PluginConfig).
Arguments EvLog {PluginConfig} lvl msg.
Arguments EvHost {PluginConfig} op.
Arguments EvInvoke {PluginConfig} inv.

Definition is_invoke {C} (e : Event C) : bool :=
  match e with EvInvoke _ => true | _ => false end.

Definition is_request_body_invoke {C} (e : Event C) : bool :=
  match e with
  | EvInvoke (InvRequestBody _ _) | EvInvoke (InvStreamingRequestBody _ _ _) => true
  | _ => false
  end.

Definition is_response_body_invoke {C} (e : Event C) : bool :=
  match e with
  | EvInvoke (InvResponseBody _ _) | EvInvoke (InvStreamingResponseBody _ _ _) => true
  | _ => false
  end.

Definition is_request_body_fetch {C} (e : Event C) : bool :=
  match e with EvHost (OpGetHttpRequestBody _ _) => true | _ => false end.

Definition is_response_body_fetch {C} (e : Event C) : bool :=
  match e with EvHost (OpGetHttpResponseBody _ _) => true | _ => false end.


(** [f != nil] for a function value or an interface value. *)
Definition registered {A} (f : option A) : bool :=
  match f with Some _ => true | None => false end.

(** ** Loggers *)

Inductive Log :=
| DefaultLog (pluginName : string)
| CustomLog (name : string).

(** ** The exchange context and its state *)

Record CommonHttpCtx (PluginConfig Value : Type) := {
  config : option PluginConfig;
  needRequestBody : bool;
  needResponseBody : bool;
  streamingRequestBody : bool;
  streamingResponseBody : bool;
  requestBodySize : Z;
  responseBodySize : Z;
  contextID : Z;
  userContext : gmap string Value;
  userAttribute : gmap string Value
}.
Arguments config {PluginConfig Value} c.
Arguments needRequestBody {PluginConfig Value} c.
Arguments needResponseBody {PluginConfig Value} c.
Arguments streamingRequestBody {PluginConfig Value} c.
Arguments streamingResponseBody {PluginConfig Value} c.
Arguments requestBodySize {PluginConfig Value} c.
Arguments responseBodySize {PluginConfig Value} c.
Arguments contextID {PluginConfig Value} c.
Arguments userContext {PluginConfig Value} c.
Arguments userAttribute {PluginConfig Value} c.

(** What one exchange can see and change: its own context, the world
    outside and the trace. *)
Record St (PluginConfig Value World : Type) := {
  ctx : CommonHttpCtx PluginConfig Value;
  world : World;
  events : list (Event PluginConfig)
}.
Arguments ctx {PluginConfig Value World} s.
Arguments world {PluginConfig Value World} s.
Arguments events {PluginConfig Value World} s.

(** [gjson]: validation and parsing of the raw configuration; [gjson_zero]
    is the zero [gjson.Result]. *)
Class Gjson (Json : Type) := {
  gjson_ValidBytes : string -> bool;
  gjson_ParseBytes : string -> Json;
  gjson_zero : Json
}.

(** ** Tick entries and the package-level staging area *)

Record TickFuncEntry (World : Type) := {
  lastExecuted : Z;
  tickPeriod : Z;
  tickFunc : World -> World
}.
Arguments lastExecuted {World} t.
Arguments tickPeriod {World} t.
Arguments tickFunc {World} t.

(** What plugin start and the tick handler can see and change:
    [globalOnTickFuncs] ([None] is the nil slice), the world and the trace. *)
Record Process (PluginConfig World : Type) := {
  globalOnTickFuncs : option (list (TickFuncEntry World));
  pworld : World;
  pevents : list (Event PluginConfig)
}.
Arguments globalOnTickFuncs {PluginConfig World} p.
Arguments pworld {PluginConfig World} p.
Arguments pevents {PluginConfig World} p.

(** The rule matcher embedded in the plugin context (package [matcher]).
    [ParseRuleConfig] receives the two closures plugin start builds. *)
Class Matcher (PluginConfig World Json : Type) := {
  GetMatchConfig : World -> (option PluginConfig * option error) * World;
  ParseRuleConfig :
    Json ->
    (Json -> PluginConfig -> Process PluginConfig World ->
     Outcome (PluginConfig * option error) * Process PluginConfig World) ->
    option (Json -> PluginConfig -> PluginConfig -> Process PluginConfig World ->
            Outcome (PluginConfig * option error) * Process PluginConfig World) ->
    Process PluginConfig World ->
    Outcome (option error) * Process PluginConfig World
}.

Section Wrapper.

Context {PluginConfig Value World Json : Type}.
Context `{!ProxyWasm World, !Codec Value, !Helpers World,
          !Matcher PluginConfig World Json, !Gjson Json}.

Abbreviation HttpCtx := (CommonHttpCtx PluginConfig Value).
Abbreviation State := (St PluginConfig Value World).
Abbreviation Ev := (Event PluginConfig).
Abbreviation Proc := (Process PluginConfig World).
Abbreviation TickEntry := (TickFuncEntry World).

(** *** Field updates *)

Definition set_ctx (c : HttpCtx) (s : State) : State :=
  {| ctx := c; world := world s; events := events s |}.
Definition set_world (w : World) (s : State) : State :=
  {| ctx := ctx s; world := w; events := events s |}.
Definition emit (e : Ev) (s : State) : State :=
  {| ctx := ctx s; world := world s; events := events s ++ [e] |}.

Definition with_config (v : option PluginConfig) (c : HttpCtx) : HttpCtx :=
  {| config := v; needRequestBody := needRequestBody c;
     needResponseBody := needResponseBody c;
     streamingRequestBody := streamingRequestBody c;
     streamingResponseBody := streamingResponseBody c;
     requestBodySize := requestBodySize c;
     responseBodySize := responseBodySize c; contextID := contextID c;
     userContext := userContext c; userAttribute := userAttribute c |}.
Definition with_needRequestBody (v : bool) (c : HttpCtx) : HttpCtx :=
  {| config := config c; needRequestBody := v;
     needResponseBody := needResponseBody c;
     streamingRequestBody := streamingRequestBody c;
     streamingResponseBody := streamingResponseBody c;
     requestBodySize := requestBodySize c;
     responseBodySize := responseBodySize c; contextID := contextID c;
     userContext := userContext c; userAttribute := userAttribute c |}.
Definition with_needResponseBody (v : bool) (c : HttpCtx) : HttpCtx :=
  {| config := config c; needRequestBody := needRequestBody c;
     needResponseBody := v;
     streamingRequestBody := streamingRequestBody c;
     streamingResponseBody := streamingResponseBody c;
     requestBodySize := requestBodySize c;
     responseBodySize := responseBodySize c; contextID := contextID c;
     userContext := userContext c; userAttribute := userAttribute c |}.
Definition with_streamingRequestBody (v : bool) (c : HttpCtx) : HttpCtx :=
  {| config := config c; needRequestBody := needRequestBody c;
     needResponseBody := needResponseBody c;
     streamingRequestBody := v;
     streamingResponseBody := streamingResponseBody c;
     requestBodySize := requestBodySize c;
     responseBodySize := responseBodySize c; contextID := contextID c;
     userContext := userContext c; userAttribute := userAttribute c |}.
Definition with_streamingResponseBody (v : bool) (c : HttpCtx) : HttpCtx :=
  {| config := config c; needRequestBody := needRequestBody c;
     needResponseBody := needResponseBody c;
     streamingRequestBody := streamingRequestBody c;
     streamingResponseBody := v;
     requestBodySize := requestBodySize c;
     responseBodySize := responseBodySize c; contextID := contextID c;
     userContext := userContext c; userAttribute := userAttribute c |}.
Definition with_requestBodySize (v : Z) (c : HttpCtx) : HttpCtx :=
  {| config := config c; needRequestBody := needRequestBody c;
     needResponseBody := needResponseBody c;
     streamingRequestBody := streamingRequestBody c;
     streamingResponseBody := streamingResponseBody c;
     requestBodySize := v;
     responseBodySize := responseBodySize c; contextID := contextID c;
     userContext := userContext c; userAttribute := userAttribute c |}.
Definition with_responseBodySize (v : Z) (c : HttpCtx) : HttpCtx :=
  {| config := config c; needRequestBody := needRequestBody c;
     needResponseBody := needResponseBody c;
     streamingRequestBody := streamingRequestBody c;
     streamingResponseBody := streamingResponseBody c;
     requestBodySize := requestBodySize c;
     responseBodySize := v; contextID := contextID c;
     userContext := userContext c; userAttribute := userAttribute c |}.
Definition with_userContext (v : gmap string Value) (c : HttpCtx) : HttpCtx :=
  {| config := config c; needRequestBody := needRequestBody c;
     needResponseBody := needResponseBody c;
     streamingRequestBody := streamingRequestBody c;
     streamingResponseBody := streamingResponseBody c;
     requestBodySize := requestBodySize c;
     responseBodySize := responseBodySize c; contextID := contextID c;
     userContext := v; userAttribute := userAttribute c |}.
Definition with_userAttribute (v : gmap string Value) (c : HttpCtx) : HttpCtx :=
  {| config := config c; needRequestBody := needRequestBody c;
     needResponseBody := needResponseBody c;
     streamingRequestBody := streamingRequestBody c;
     streamingResponseBody := streamingResponseBody c;
     requestBodySize := requestBodySize c;
     responseBodySize := responseBodySize c; contextID := contextID c;
     userContext := userContext c; userAttribute := v |}.

(** *** The monad of a signal handler: state and panics *)

Definition M (A : Type) : Type := State -> Outcome A * State.

Definition ret {A} (a : A) : M A := fun s => (Returned a, s).

Definition bind {A B} (m : M A) (k : A -> M B) : M B :=
  fun s =>
    match m s with
    | (Returned a, s') => k a s'
    | (Panicked msg, s') => (Panicked msg, s')
    end.

#[global] Instance M_ret : MRet M := @ret.
#[global] Instance M_bind : MBind M := fun A B k m => bind m k.

Definition get_ctx : M HttpCtx := fun s => (Returned (ctx s), s).
Definition modify_ctx (f : HttpCtx -> HttpCtx) : M unit :=
  fun s => (Returned tt, set_ctx (f (ctx s)) s).
Definition panic {A} (msg : string) : M A := fun s => (Panicked msg, s).

(** A call of a host or collaborator function, recorded in the trace. *)
Definition call {X} (op : HostOp) (f : World -> X * World) : M X :=
  fun s =>
    let '(x, w) := f (world s) in
    (Returned x, set_world w (emit (EvHost op) s)).

Definition invoked (inv : Invocation PluginConfig) : M unit :=
  fun s => (Returned tt, emit (EvInvoke inv) s).

(** A method of the [Log] interface called on [ctx.plugin.vm.log]. *)
Definition logf (lg : option Log) (lvl : LogLevel) (msg : string) : M unit :=
  match lg with
  | Some _ => fun s => (Returned tt, emit (EvLog lvl msg) s)
  | None => panic nil_dereference
  end.

(** *** Methods of [HttpContext] *)

Definition SetContext (key : string) (value : Value) : M unit :=
  modify_ctx (fun c => with_userContext (<[key := value]> (userContext c)) c).

Definition GetContext (key : string) : M (option Value) :=
  c ← get_ctx; ret (userContext c !! key).

Definition SetUserAttribute (key : string) (value : Value) : M unit :=
  modify_ctx (fun c => with_userAttribute (<[key := value]> (userAttribute c)) c).

Definition GetUserAttribute (key : string) : M (option Value) :=
  c ← get_ctx; ret (userAttribute c !! key).

Definition GetBoolContext (key : string) (defaultValue : bool) : M bool :=
  c ← get_ctx;
  match userContext c !! key ≫= as_bool with
  | Some b => ret b
  | None => ret defaultValue
  end.

Definition GetStringContext (key defaultValue : string) : M string :=
  c ← get_ctx;
  match userContext c !! key ≫= as_string with
  | Some s => ret s
  | None => ret defaultValue
  end.

(** [newAttributeMap[k] = v]; an assignment to an entry of a nil map
    panics. *)
Definition map_assign (newAttributeMap : option (gmap string Value))
  (k : string) (v : Value) : Outcome (option (gmap string Value)) :=
  match newAttributeMap with
  | Some m => Returned (Some (<[k := v]> m))
  | None => Panicked nil_map_assignment
  end.

Fixpoint overlay_entries (entries : list (string * Value))
  (newAttributeMap : option (gmap string Value))
  : Outcome (option (gmap string Value)) :=
  match entries with
  | [] => Returned newAttributeMap
  | kv :: rest =>
      match map_assign newAttributeMap kv.1 kv.2 with
      | Returned m => overlay_entries rest m
      | Panicked msg => Panicked msg
      end
  end.

(** [for k, v := range ctx.userAttribute { newAttributeMap[k] = v }] *)
Definition overlay (acc : gmap string Value)
  (prior : option (gmap string Value)) : Outcome (option (gmap string Value)) :=
  overlay_entries (map_range acc) prior.

Definition WriteUserAttributeToLogWithKey (lg : option Log) (key : string)
  : M (option error) :=
  '(preMarshalledJsonLogStr, _) ← call (OpGetProperty [key]) (GetProperty [key]);
  parsed ←
    (if decide (preMarshalledJsonLogStr = "") then ret (inr (Some ∅))
     else
       let preJsonLogStr :=
         unmarshalStr (dquote +:+ preMarshalledJsonLogStr +:+ dquote) in
       match json_Unmarshal preJsonLogStr with
       | (_, Some err) =>
           logf lg LvlWarn
             ("Unmarshal failed, will overwrite " +:+ key +:+
              ", pre value is: " +:+ preMarshalledJsonLogStr);;
           ret (inl err)
       | (m, None) => ret (inr m)
       end);
  match parsed with
  | inl err => ret (Some err)
  | inr prior =>
      c ← get_ctx;
      match overlay (userAttribute c) prior with
      | Panicked msg => panic msg
      | Returned newAttributeMap =>
          let '(jsonStr, _) := json_Marshal newAttributeMap in
          let marshalledJsonStr := marshalStr jsonStr in
          err ← call (OpSetProperty [key] marshalledJsonStr)
                         (SetProperty [key] marshalledJsonStr);
          match err with
          | Some e =>
              logf lg LvlWarn
                ("failed to set " +:+ key +:+ " in filter state, raw is " +:+
                 marshalledJsonStr +:+ ", err is " +:+ e);;
              ret (Some e)
          | None => ret None
          end
      end
  end.

Definition WriteUserAttributeToLog (lg : option Log) : M (option error) :=
  WriteUserAttributeToLogWithKey lg CustomLogKey.

(** One turn of the loop of [WriteUserAttributeToTrace]. *)
Definition trace_one (lg : option Log) (kv : string * Value) : M unit :=
  let traceSpanTag := TraceSpanTagPrefix +:+ kv.1 in
  let traceSpanValue := fmt_Sprint kv.2 in
  err ← (if decide (traceSpanValue = "")
         then ret (Some ("value of " +:+ traceSpanTag +:+ " is empty"))
         else call (OpSetProperty [traceSpanTag] traceSpanValue)
                   (SetProperty [traceSpanTag] traceSpanValue));
  match err with
  | Some e =>
      logf lg LvlWarn
        ("Failed to set trace attribute - " +:+ traceSpanTag +:+ ": " +:+
         traceSpanValue +:+ ", error message: " +:+ e)
  | None => ret tt
  end.

Fixpoint for_range (body : string * Value -> M unit)
  (entries : list (string * Value)) : M unit :=
  match entries with
  | [] => ret tt
  | kv :: rest => body kv;; for_range body rest
  end.

Definition WriteUserAttributeToTrace (lg : option Log) : M (option error) :=
  c ← get_ctx;
  for_range (trace_one lg) (map_range (userAttribute c));;
  ret None.

Definition Scheme : M string :=
  c ← get_ctx;
  call (OpSetEffectiveContext (contextID c))
       (fun w => (tt, SetEffectiveContext (contextID c) w));;
  call OpGetRequestScheme GetRequestScheme.

Definition Host : M string :=
  c ← get_ctx;
  call (OpSetEffectiveContext (contextID c))
       (fun w => (tt, SetEffectiveContext (contextID c) w));;
  call OpGetRequestHost GetRequestHost.

Definition Path : M string :=
  c ← get_ctx;
  call (OpSetEffectiveContext (contextID c))
       (fun w => (tt, SetEffectiveContext (contextID c) w));;
  call OpGetRequestPath GetRequestPath.

Definition Method : M string :=
  c ← get_ctx;
  call (OpSetEffectiveContext (contextID c))
       (fun w => (tt, SetEffectiveContext (contextID c) w));;
  call OpGetRequestMethod GetRequestMethod.

Definition DontReadRequestBody : M unit :=
  modify_ctx (with_needRequestBody false).
Definition DontReadResponseBody : M unit :=
  modify_ctx (with_needResponseBody false).
Definition BufferRequestBody : M unit :=
  modify_ctx (with_streamingRequestBody false).
Definition BufferResponseBody : M unit :=
  modify_ctx (with_streamingResponseBody false).

Definition DisableReroute : M unit :=
  call (OpSetProperty ["clear_route_cache"] "off")
       (SetProperty ["clear_route_cache"] "off");;
  ret tt.

(** [size] is a [uint32]; [int(size)] reinterprets it as an [int]. *)
Definition SetRequestBodyBufferLimit (lg : option Log) (size : Z) : M unit :=
  logf lg LvlInfo ("SetRequestBodyBufferLimit: " +:+ strconv_Itoa size);;
  let v := strconv_Itoa (wrap int_bits size) in
  call (OpSetProperty ["set_decoder_buffer_limit"] v)
       (SetProperty ["set_decoder_buffer_limit"] v);;
  ret tt.

Definition SetResponseBodyBufferLimit (lg : option Log) (size : Z) : M unit :=
  logf lg LvlInfo ("SetResponseBodyBufferLimit: " +:+ strconv_Itoa size);;
  let v := strconv_Itoa (wrap int_bits size) in
  call (OpSetProperty ["set_encoder_buffer_limit"] v)
       (SetProperty ["set_encoder_buffer_limit"] v);;
  ret tt.

(** *** User callbacks

    A callback receives the exchange as an [HttpContext] and the logger. It
    can reach the context only through the methods of that interface, so a
    callback is a program over those methods; it can also log and call the
    host directly. *)

Inductive Cmd : Type -> Type :=
| CallScheme : Cmd string
| CallHost : Cmd string
| CallPath : Cmd string
| CallMethod : Cmd string
| CallSetContext (key : string) (value : Value) : Cmd unit
| CallGetContext (key : string) : Cmd (option Value)
| CallGetBoolContext (key : string) (defaultValue : bool) : Cmd bool
| CallGetStringContext (key defaultValue : string) : Cmd string
| CallGetUserAttribute (key : string) : Cmd (option Value)
| CallSetUserAttribute (key : string) (value : Value) : Cmd unit
| CallWriteUserAttributeToLog : Cmd (option error)
| CallWriteUserAttributeToLogWithKey (key : string) : Cmd (option error)
| CallWriteUserAttributeToTrace : Cmd (option error)
| CallDontReadRequestBody : Cmd unit
| CallDontReadResponseBody : Cmd unit
| CallBufferRequestBody : Cmd unit
| CallBufferResponseBody : Cmd unit
| CallDisableReroute : Cmd unit
| CallSetRequestBodyBufferLimit (size : Z) : Cmd unit
| CallSetResponseBodyBufferLimit (size : Z) : Cmd unit
| CallLog (lvl : LogLevel) (msg : string) : Cmd unit
| CallProxyWasm (X : Type) (f : World -> X * World) : Cmd X.

Inductive Prog (R : Type) : Type :=
| Ret (r : R)
| Vis (X : Type) (c : Cmd X) (k : X -> Prog R).
Arguments Ret {R} r.
Arguments Vis {R X} c k.

Definition exec (lg : option Log) {X} (c : Cmd X) : M X :=
  match c in Cmd X return M X with
  | CallScheme => Scheme
  | CallHost => Host
  | CallPath => Path
  | CallMethod => Method
  | CallSetContext key value => SetContext key value
  | CallGetContext key => GetContext key
  | CallGetBoolContext key d => GetBoolContext key d
  | CallGetStringContext key d => GetStringContext key d
  | CallGetUserAttribute key => GetUserAttribute key
  | CallSetUserAttribute key value => SetUserAttribute key value
  | CallWriteUserAttributeToLog => WriteUserAttributeToLog lg
  | CallWriteUserAttributeToLogWithKey key => WriteUserAttributeToLogWithKey lg key
  | CallWriteUserAttributeToTrace => WriteUserAttributeToTrace lg
  | CallDontReadRequestBody => DontReadRequestBody
  | CallDontReadResponseBody => DontReadResponseBody
  | CallBufferRequestBody => BufferRequestBody
  | CallBufferResponseBody => BufferResponseBody
  | CallDisableReroute => DisableReroute
  | CallSetRequestBodyBufferLimit size => SetRequestBodyBufferLimit lg size
  | CallSetResponseBodyBufferLimit size => SetResponseBodyBufferLimit lg size
  | CallLog lvl msg => logf lg lvl msg
  | CallProxyWasm X f => fun s => let '(x, w) := f (world s) in (Returned x, set_world w s)
  end.

Fixpoint run (lg : option Log) {R} (p : Prog R) : M R :=
  match p with
  | Ret r => ret r
  | Vis c k => x ← exec lg c; run lg (k x)
  end.

Definition onHttpHeadersFunc : Type := PluginConfig -> Prog Action.
Definition onHttpBodyFunc : Type := PluginConfig -> string -> Prog Action.
Definition onHttpStreamingBodyFunc : Type :=
  PluginConfig -> string -> bool -> Prog string.
Definition onHttpStreamDoneFunc : Type := PluginConfig -> Prog unit.

(** *** The plugin-wide context *)

Definition ParseConfigFunc : Type :=
  Json -> PluginConfig -> option Log -> Proc ->
  Outcome (PluginConfig * option error) * Proc.
Definition ParseRuleConfigFunc : Type :=
  Json -> PluginConfig -> PluginConfig -> option Log -> Proc ->
  Outcome (PluginConfig * option error) * Proc.

Record CommonVmCtx := {
  pluginName : string;
  log : option Log;
  hasCustomConfig : bool;
  parseConfig : option ParseConfigFunc;
  parseRuleConfig : option ParseRuleConfigFunc;
  onHttpRequestHeaders : option onHttpHeadersFunc;
  onHttpRequestBody : option onHttpBodyFunc;
  onHttpStreamingRequestBody : option onHttpStreamingBodyFunc;
  onHttpResponseHeaders : option onHttpHeadersFunc;
  onHttpResponseBody : option onHttpBodyFunc;
  onHttpStreamingResponseBody : option onHttpStreamingBodyFunc;
  onHttpStreamDone : option onHttpStreamDoneFunc
}.

Definition RegisteTickFunc (tickPeriod : Z) (tickFunc : World -> World)
  (p : Proc) : Proc :=
  {| globalOnTickFuncs :=
       Some (default [] (globalOnTickFuncs p) ++
             [{| lastExecuted := 0; tickPeriod := tickPeriod;
                 tickFunc := tickFunc |}])%list;
     pworld := pworld p; pevents := pevents p |}.

Inductive CtxOption :=
| ParseConfigBy (f : option ParseConfigFunc)
| ParseOverrideConfigBy (f : option ParseConfigFunc) (g : option ParseRuleConfigFunc)
| ProcessRequestHeadersBy (f : option onHttpHeadersFunc)
| ProcessRequestBodyBy (f : option onHttpBodyFunc)
| ProcessStreamingRequestBodyBy (f : option onHttpStreamingBodyFunc)
| ProcessResponseHeadersBy (f : option onHttpHeadersFunc)
| ProcessResponseBodyBy (f : option onHttpBodyFunc)
| ProcessStreamingResponseBodyBy (f : option onHttpStreamingBodyFunc)
| ProcessStreamDoneBy (f : option onHttpStreamDoneFunc)
| WithLogger (logger : option Log).

Definition Apply (o : CtxOption) (c : CommonVmCtx) : CommonVmCtx :=
  let mk lg pc prc rh rb srb sh sb ssb sd :=
    {| pluginName := pluginName c; log := lg;
       hasCustomConfig := hasCustomConfig c;
       parseConfig := pc; parseRuleConfig := prc;
       onHttpRequestHeaders := rh; onHttpRequestBody := rb;
       onHttpStreamingRequestBody := srb;
       onHttpResponseHeaders := sh; onHttpResponseBody := sb;
       onHttpStreamingResponseBody := ssb; onHttpStreamDone := sd |} in
  let lg := log c in
  let pc := parseConfig c in
  let prc := parseRuleConfig c in
  let rh := onHttpRequestHeaders c in
  let rb := onHttpRequestBody c in
  let srb := onHttpStreamingRequestBody c in
  let sh := onHttpResponseHeaders c in
  let sb := onHttpResponseBody c in
  let ssb := onHttpStreamingResponseBody c in
  let sd := onHttpStreamDone c in
  match o with
  | ParseConfigBy f => mk lg f prc rh rb srb sh sb ssb sd
  | ParseOverrideConfigBy f g => mk lg f g rh rb srb sh sb ssb sd
  | ProcessRequestHeadersBy f => mk lg pc prc f rb srb sh sb ssb sd
  | ProcessRequestBodyBy f => mk lg pc prc rh f srb sh sb ssb sd
  | ProcessStreamingRequestBodyBy f => mk lg pc prc rh rb f sh sb ssb sd
  | ProcessResponseHeadersBy f => mk lg pc prc rh rb srb f sb ssb sd
  | ProcessResponseBodyBy f => mk lg pc prc rh rb srb sh f ssb sd
  | ProcessStreamingResponseBodyBy f => mk lg pc prc rh rb srb sh sb f sd
  | ProcessStreamDoneBy f => mk lg pc prc rh rb srb sh sb ssb f
  | WithLogger logger => mk logger pc prc rh rb srb sh sb ssb sd
  end.

Definition parseEmptyPluginConfig : ParseConfigFunc :=
  fun _ config _ p => (Returned (config, None), p).

(** [sizeof_PluginConfig] is [unsafe.Sizeof(config)] for the zero value of
    the configuration type. The critical log line goes to the logger of the
    context, which is nil unless an option installed one. *)
Definition NewCommonVmCtxWithOptions (sizeof_PluginConfig : Z)
  (name : string) (options : list CtxOption)
  : Outcome CommonVmCtx * list Ev :=
  let ctx0 :=
    {| pluginName := name; log := None; hasCustomConfig := true;
       parseConfig := None; parseRuleConfig := None;
       onHttpRequestHeaders := None; onHttpRequestBody := None;
       onHttpStreamingRequestBody := None;
       onHttpResponseHeaders := None; onHttpResponseBody := None;
       onHttpStreamingResponseBody := None; onHttpStreamDone := None |} in
  let c := foldl (fun c opt => Apply opt c) ctx0 options in
  match parseConfig c with
  | None =>
      if decide (sizeof_PluginConfig ≠ 0) then
        let msg := "the `parseConfig` is missing in NewCommonVmCtx's arguments" in
        match log c with
        | None => (Panicked nil_dereference, [])
        | Some _ => (Panicked msg, [EvLog LvlCritical msg])
        end
      else
        (Returned
           {| pluginName := pluginName c; log := log c;
              hasCustomConfig := false;
              parseConfig := Some parseEmptyPluginConfig;
              parseRuleConfig := parseRuleConfig c;
              onHttpRequestHeaders := onHttpRequestHeaders c;
              onHttpRequestBody := onHttpRequestBody c;
              onHttpStreamingRequestBody := onHttpStreamingRequestBody c;
              onHttpResponseHeaders := onHttpResponseHeaders c;
              onHttpResponseBody := onHttpResponseBody c;
              onHttpStreamingResponseBody := onHttpStreamingResponseBody c;
              onHttpStreamDone := onHttpStreamDone c |}, [])
  | Some _ => (Returned c, [])
  end.

Definition NewCommonVmCtx (sizeof_PluginConfig : Z) (name : string)
  (options : list CtxOption) : Outcome CommonVmCtx * list Ev :=
  let logger := DefaultLog name in
  let opts := ([WithLogger (Some logger)] ++ options)%list in
  NewCommonVmCtxWithOptions sizeof_PluginConfig name opts.

Record CommonPluginCtx := {
  vm : CommonVmCtx;
  onTickFuncs : option (list TickEntry)
}.

Definition NewPluginContext (c : CommonVmCtx) (contextID : Z) : CommonPluginCtx :=
  {| vm := c; onTickFuncs := None |}.

(** *** Plugin start *)

Definition pemit (e : Ev) (p : Proc) : Proc :=
  {| globalOnTickFuncs := globalOnTickFuncs p; pworld := pworld p;
     pevents := pevents p ++ [e] |}.
Definition pset_world (w : World) (p : Proc) : Proc :=
  {| globalOnTickFuncs := globalOnTickFuncs p; pworld := w;
     pevents := pevents p |}.
Definition pset_global (g : option (list TickEntry)) (p : Proc) : Proc :=
  {| globalOnTickFuncs := g; pworld := pworld p; pevents := pevents p |}.

Definition pcall {X} (op : HostOp) (f : World -> X * World) (p : Proc)
  : X * Proc :=
  let '(x, w) := f (pworld p) in (x, pset_world w (pemit (EvHost op) p)).

Definition with_onTickFuncs (fs : option (list TickEntry))
  (pc : CommonPluginCtx) : CommonPluginCtx :=
  {| vm := vm pc; onTickFuncs := fs |}.

Abbreviation StartResult :=
  (Outcome OnPluginStartStatus * CommonPluginCtx * Proc)%type.

(** A log call on [ctx.vm.log], then the rest of the function. *)
Definition plog_then (lg : option Log) (lvl : LogLevel) (msg : string)
  (pc : CommonPluginCtx) (k : Proc -> StartResult) (p : Proc) : StartResult :=
  match lg with
  | Some _ => k (pemit (EvLog lvl msg) p)
  | None => (Panicked nil_dereference, pc, p)
  end.

(** A log call followed by [return types.OnPluginStartStatusFailed]. *)
Definition fail_with (lg : option Log) (lvl : LogLevel) (msg : string)
  (pc : CommonPluginCtx) (p : Proc) : StartResult :=
  plog_then lg lvl msg pc
    (fun q => (Returned OnPluginStartStatusFailed, pc, q)) p.

(** [err != nil && err != types.ErrorStatusNotFound] *)
Definition read_failed (err : option error) : bool :=
  match err with
  | Some e => bool_decide (e ≠ ErrorStatusNotFound)
  | None => false
  end.

(** The closures [OnPluginStart] hands to [ParseRuleConfig]: the primary
    parser and, when one is registered, the override parser, each applied
    to the logger of the context. *)
Definition global_parser (pc : CommonPluginCtx)
  : Json -> PluginConfig -> Proc -> Outcome (PluginConfig * option error) * Proc :=
  fun js cfg q =>
    match parseConfig (vm pc) with
    | Some f => f js cfg (log (vm pc)) q
    | None => (Panicked nil_dereference, q)
    end.

Definition override_parser (pc : CommonPluginCtx)
  : option (Json -> PluginConfig -> PluginConfig -> Proc ->
            Outcome (PluginConfig * option error) * Proc) :=
  match parseRuleConfig (vm pc) with
  | Some f => Some (fun js global cfg => f js global cfg (log (vm pc)))
  | None => None
  end.

(** The second half of [OnPluginStart], from the call of
    [ParseRuleConfig] on. *)
Definition start_rules (pc : CommonPluginCtx) (jsonData : Json) (p : Proc)
  : StartResult :=
  let lg := log (vm pc) in
  match ParseRuleConfig jsonData (global_parser pc) (override_parser pc)
          (pemit (EvHost OpParseRuleConfig) p) with
  | (Panicked msg, p1) => (Panicked msg, pc, p1)
  | (Returned (Some err), p1) =>
      fail_with lg LvlWarn ("parse rule config failed: " +:+ err) pc p1
  | (Returned None, p1) =>
      match globalOnTickFuncs p1 with
      | Some fs =>
          let pc1 := with_onTickFuncs (Some fs) pc in
          match pcall (OpSetTickPeriodMilliSeconds 100)
                      (SetTickPeriodMilliSeconds 100) p1 with
          | (Some _, p2) =>
              fail_with lg LvlError
                "SetTickPeriodMilliSeconds failed, onTick functions will not take effect."
                pc1 p2
          | (None, p2) => (Returned OnPluginStartStatusOK, pc1, p2)
          end
      | None => (Returned OnPluginStartStatusOK, pc, p1)
      end
  end.

Definition OnPluginStart (pc : CommonPluginCtx) (p : Proc) : StartResult :=
  let lg := log (vm pc) in
  let '((data, err), p1) :=
    pcall OpGetPluginConfiguration GetPluginConfiguration p in
  let p2 := pset_global None p1 in
  if read_failed err then
    fail_with lg LvlCritical ("error reading plugin configuration: " +:+ default "" err)
              pc p2
  else if decide (data = "") then
    if hasCustomConfig (vm pc) then
      plog_then lg LvlWarn "config is empty, but has ParseConfigFunc" pc
                (start_rules pc gjson_zero) p2
    else start_rules pc gjson_zero p2
  else if negb (gjson_ValidBytes data) then
    fail_with lg LvlWarn
      ("the plugin configuration is not a valid json: " +:+ data) pc p2
  else start_rules pc (gjson_ParseBytes data) p2.

(** *** The tick scheduler *)

Definition with_lastExecuted (t : Z) (e : TickEntry) : TickEntry :=
  {| lastExecuted := t; tickPeriod := tickPeriod e; tickFunc := tickFunc e |}.

(** The body of the loop of [OnTick] at index [i]. *)
Definition tick_at (i : nat) (st : list TickEntry * Proc)
  : list TickEntry * Proc :=
  let '(fs, p) := st in
  match fs !! i with
  | None => (fs, p)
  | Some e =>
      let '(currentTimeStamp, w1) := time_Now_UnixMilli (pworld p) in
      if tickPeriod e <=? int64_sub currentTimeStamp (lastExecuted e) then
        let p1 := pemit (EvInvoke (InvTick i)) (pset_world w1 p) in
        let p2 := pset_world (tickFunc e (pworld p1)) p1 in
        (<[i := with_lastExecuted currentTimeStamp e]> fs, p2)
      else (fs, pset_world w1 p)
  end.

Definition OnTick (pc : CommonPluginCtx) (p : Proc) : CommonPluginCtx * Proc :=
  match onTickFuncs pc with
  | None => (pc, p)
  | Some fs =>
      let '(fs', p') := foldl (fun st i => tick_at i st) (fs, p)
                              (seq 0 (length fs)) in
      (with_onTickFuncs (Some fs') pc, p')
  end.

(** *** Creation of an exchange context *)

Definition NewHttpContext (pc : CommonPluginCtx) (contextID : Z) : HttpCtx :=
  let v := vm pc in
  {| config := None;
     needRequestBody :=
       registered (onHttpRequestBody v) || registered (onHttpStreamingRequestBody v);
     needResponseBody :=
       registered (onHttpResponseBody v) || registered (onHttpStreamingResponseBody v);
     streamingRequestBody := registered (onHttpStreamingRequestBody v);
     streamingResponseBody := registered (onHttpStreamingResponseBody v);
     requestBodySize := 0;
     responseBodySize := 0;
     contextID := contextID;
     userContext := ∅;
     userAttribute := ∅ |}.

(** *** The phase handlers of an exchange *)

Definition OnHttpRequestHeaders (v : CommonVmCtx) (numHeaders : Z)
  (endOfStream : bool) : M Action :=
  '(requestID, _) ← call (OpGetHttpRequestHeader "x-request-id")
                         (GetHttpRequestHeader "x-request-id");
  call (OpSetProperty ["x_request_id"] requestID)
       (SetProperty ["x_request_id"] requestID);;
  '(matched, err) ← call OpGetMatchConfig GetMatchConfig;
  match err with
  | Some e =>
      logf (log v) LvlError ("get match config failed, err:" +:+ e);;
      ret ActionContinue
  | None =>
      match matched with
      | None => ret ActionContinue
      | Some cfg =>
          modify_ctx (with_config (Some cfg));;
          isBinary ← call OpIsBinaryRequestBody IsBinaryRequestBody;
          (if isBinary : bool then modify_ctx (with_needRequestBody false)
           else ret tt);;
          match onHttpRequestHeaders v with
          | None => ret ActionContinue
          | Some f => invoked (InvRequestHeaders cfg);; run (log v) (f cfg)
          end
      end
  end.

(** The streaming branch of [OnHttpRequestBody]. *)
Definition stream_request_body (v : CommonVmCtx) (cfg : PluginConfig)
  (f : onHttpStreamingBodyFunc) (bodySize : Z) (endOfStream : bool) : M Action :=
  '(chunk, _) ← call (OpGetHttpRequestBody 0 bodySize)
                     (GetHttpRequestBody 0 bodySize);
  invoked (InvStreamingRequestBody cfg chunk endOfStream);;
  modifiedChunk ← run (log v) (f cfg chunk endOfStream);
  err ← call (OpReplaceHttpRequestBody modifiedChunk)
             (ReplaceHttpRequestBody modifiedChunk);
  match err with
  | Some e =>
      logf (log v) LvlWarn ("replace request body chunk failed: " +:+ e);;
      ret ActionContinue
  | None => ret ActionContinue
  end.

(** What follows the streaming branch in [OnHttpRequestBody]. *)
Definition buffer_request_body (v : CommonVmCtx) (cfg : PluginConfig)
  (bodySize : Z) (endOfStream : bool) : M Action :=
  match onHttpRequestBody v with
  | Some f =>
      modify_ctx (fun c =>
        with_requestBodySize (int_add (requestBodySize c) bodySize) c);;
      if negb endOfStream then ret ActionPause
      else
        c1 ← get_ctx;
        '(body, err) ← call (OpGetHttpRequestBody 0 (requestBodySize c1))
                            (GetHttpRequestBody 0 (requestBodySize c1));
        match err with
        | Some e =>
            logf (log v) LvlWarn ("get request body failed: " +:+ e);;
            ret ActionContinue
        | None =>
            invoked (InvRequestBody cfg body);;
            run (log v) (f cfg body)
        end
  | None => ret ActionContinue
  end.

Definition OnHttpRequestBody (v : CommonVmCtx) (bodySize : Z)
  (endOfStream : bool) : M Action :=
  c ← get_ctx;
  match config c with
  | None => ret ActionContinue
  | Some cfg =>
      if negb (needRequestBody c) then ret ActionContinue
      else
        match onHttpStreamingRequestBody v with
        | Some f =>
            if streamingRequestBody c
            then stream_request_body v cfg f bodySize endOfStream
            else buffer_request_body v cfg bodySize endOfStream
        | None => buffer_request_body v cfg bodySize endOfStream
        end
  end.

Definition OnHttpResponseHeaders (v : CommonVmCtx) (numHeaders : Z)
  (endOfStream : bool) : M Action :=
  c ← get_ctx;
  match config c with
  | None => ret ActionContinue
  | Some cfg =>
      isBinary ← call OpIsBinaryResponseBody IsBinaryResponseBody;
      (if isBinary : bool then modify_ctx (with_needResponseBody false)
       else ret tt);;
      match onHttpResponseHeaders v with
      | None => ret ActionContinue
      | Some f => invoked (InvResponseHeaders cfg);; run (log v) (f cfg)
      end
  end.

(** The streaming branch of [OnHttpResponseBody]. *)
Definition stream_response_body (v : CommonVmCtx) (cfg : PluginConfig)
  (f : onHttpStreamingBodyFunc) (bodySize : Z) (endOfStream : bool) : M Action :=
  '(chunk, _) ← call (OpGetHttpResponseBody 0 bodySize)
                     (GetHttpResponseBody 0 bodySize);
  invoked (InvStreamingResponseBody cfg chunk endOfStream);;
  modifiedChunk ← run (log v) (f cfg chunk endOfStream);
  err ← call (OpReplaceHttpResponseBody modifiedChunk)
             (ReplaceHttpResponseBody modifiedChunk);
  match err with
  | Some e =>
      logf (log v) LvlWarn ("replace response body chunk failed: " +:+ e);;
      ret ActionContinue
  | None => ret ActionContinue
  end.

(** What follows the streaming branch in [OnHttpResponseBody]. *)
Definition buffer_response_body (v : CommonVmCtx) (cfg : PluginConfig)
  (bodySize : Z) (endOfStream : bool) : M Action :=
  match onHttpResponseBody v with
  | Some f =>
      modify_ctx (fun c =>
        with_responseBodySize (int_add (responseBodySize c) bodySize) c);;
      if negb endOfStream then ret ActionPause
      else
        c1 ← get_ctx;
        '(body, err) ← call (OpGetHttpResponseBody 0 (responseBodySize c1))
                            (GetHttpResponseBody 0 (responseBodySize c1));
        match err with
        | Some e =>
            logf (log v) LvlWarn ("get response body failed: " +:+ e);;
            ret ActionContinue
        | None =>
            invoked (InvResponseBody cfg body);;
            run (log v) (f cfg body)
        end
  | None => ret ActionContinue
  end.

Definition OnHttpResponseBody (v : CommonVmCtx) (bodySize : Z)
  (endOfStream : bool) : M Action :=
  c ← get_ctx;
  match config c with
  | None => ret ActionContinue
  | Some cfg =>
      if negb (needResponseBody c) then ret ActionContinue
      else
        match onHttpStreamingResponseBody v with
        | Some f =>
            if streamingResponseBody c
            then stream_response_body v cfg f bodySize endOfStream
            else buffer_response_body v cfg bodySize endOfStream
        | None => buffer_response_body v cfg bodySize endOfStream
        end
  end.

Definition OnHttpStreamDone (v : CommonVmCtx) : M unit :=
  c ← get_ctx;
  match config c with
  | None => ret tt
  | Some cfg =>
      match onHttpStreamDone v with
      | None => ret tt
      | Some f => invoked (InvStreamDone cfg);; run (log v) (f cfg)
      end
  end.

(** *** Signals from the host

    [OnHttpStreamDone] has no result; the other handlers answer with an
    action. *)

Inductive Signal :=
| RequestHeaders (numHeaders : Z) (endOfStream : bool)
| RequestBody (bodySize : Z) (endOfStream : bool)
| ResponseHeaders (numHeaders : Z) (endOfStream : bool)
| ResponseBody (bodySize : Z) (endOfStream : bool)
| StreamDone.

Definition deliver (v : CommonVmCtx) (sig : Signal) : M (option Action) :=
  match sig with
  | RequestHeaders n eos => a ← OnHttpRequestHeaders v n eos; ret (Some a)
  | RequestBody n eos => a ← OnHttpRequestBody v n eos; ret (Some a)
  | ResponseHeaders n eos => a ← OnHttpResponseHeaders v n eos; ret (Some a)
  | ResponseBody n eos => a ← OnHttpResponseBody v n eos; ret (Some a)
  | StreamDone => OnHttpStreamDone v;; ret None
  end.

(** The signals of one exchange, delivered one at a time; a panic ends the
    exchange. The answers are collected in order. *)
Fixpoint deliver_all (v : CommonVmCtx) (sigs : list Signal)
  : M (list (option Action)) :=
  match sigs with
  | [] => ret []
  | sig :: rest =>
      a ← deliver v sig;
      answers ← deliver_all v rest;
      ret (a :: answers)
  end.

End Wrapper.

Arguments Ret {Value World R} r.
Arguments Vis {Value World R X} c k.
Arguments CallProxyWasm {Value World X} f.

(** ** A small concrete world

    A host with a property store, one buffer per direction, a clock and
    switches that make single host calls fail; a matcher with at most one
    global rule; string-valued attributes with a JSON codec for flat
    objects of strings. It instantiates the collaborators wherever a
    property below is exercised on concrete data. *)

Module Sim.

Record World := {
  config_bytes : string;
  config_err : option error;
  props : gmap (list string) string;
  readonly_props : list (list string);
  request_body : string;
  response_body : string;
  fetch_fails : bool;
  replace_fails : bool;
  binary_request : bool;
  binary_response : bool;
  rule : option string;
  match_err : option error;
  tick_fails : bool;
  clock : Z
}.

Definition with_props (v : gmap (list string) string) (w : World) : World :=
  {| config_bytes := config_bytes w; config_err := config_err w; props := v;
     readonly_props := readonly_props w; request_body := request_body w;
     response_body := response_body w; fetch_fails := fetch_fails w;
     replace_fails := replace_fails w; binary_request := binary_request w;
     binary_response := binary_response w; rule := rule w;
     match_err := match_err w; tick_fails := tick_fails w; clock := clock w |}.
Definition with_request_body (v : string) (w : World) : World :=
  {| config_bytes := config_bytes w; config_err := config_err w; props := props w;
     readonly_props := readonly_props w; request_body := v;
     response_body := response_body w; fetch_fails := fetch_fails w;
     replace_fails := replace_fails w; binary_request := binary_request w;
     binary_response := binary_response w; rule := rule w;
     match_err := match_err w; tick_fails := tick_fails w; clock := clock w |}.
Definition with_response_body (v : string) (w : World) : World :=
  {| config_bytes := config_bytes w; config_err := config_err w; props := props w;
     readonly_props := readonly_props w; request_body := request_body w;
     response_body := v; fetch_fails := fetch_fails w;
     replace_fails := replace_fails w; binary_request := binary_request w;
     binary_response := binary_response w; rule := rule w;
     match_err := match_err w; tick_fails := tick_fails w; clock := clock w |}.
Definition with_rule (v : option string) (w : World) : World :=
  {| config_bytes := config_bytes w; config_err := config_err w; props := props w;
     readonly_props := readonly_props w; request_body := request_body w;
     response_body := response_body w; fetch_fails := fetch_fails w;
     replace_fails := replace_fails w; binary_request := binary_request w;
     binary_response := binary_response w; rule := v;
     match_err := match_err w; tick_fails := tick_fails w; clock := clock w |}.
Definition with_clock (v : Z) (w : World) : World :=
  {| config_bytes := config_bytes w; config_err := config_err w; props := props w;
     readonly_props := readonly_props w; request_body := request_body w;
     response_body := response_body w; fetch_fails := fetch_fails w;
     replace_fails := replace_fails w; binary_request := binary_request w;
     binary_response := binary_response w; rule := rule w;
     match_err := match_err w; tick_fails := tick_fails w; clock := v |}.

Definition fails (b : bool) (what : string) : option error :=
  if b then Some (what +:+ " failed") else None.

Definition slice (start size : Z) (s : string) : string :=
  String.substring (Z.to_nat start) (Z.to_nat size) s.

#[export] Instance host : ProxyWasm World := {
  GetPluginConfiguration w := ((config_bytes w, config_err w), w);
  SetTickPeriodMilliSeconds _ w := (fails (tick_fails w) "set tick period", w);
  GetProperty path w :=
    match props w !! path with
    | Some v => ((v, None), w)
    | None => (("", Some ErrorStatusNotFound), w)
    end;
  SetProperty path v w :=
    if bool_decide (path ∈ readonly_props w)
    then (Some "set property failed", w)
    else (None, with_props (<[path := v]> (props w)) w);
  GetHttpRequestHeader _ w := (("", Some ErrorStatusNotFound), w);
  GetHttpRequestBody start size w :=
    ((if fetch_fails w then "" else slice start size (request_body w),
      fails (fetch_fails w) "get body"), w);
  ReplaceHttpRequestBody b w :=
    if replace_fails w then (Some "replace body failed", w)
    else (None, with_request_body b w);
  GetHttpResponseBody start size w :=
    ((if fetch_fails w then "" else slice start size (response_body w),
      fails (fetch_fails w) "get body"), w);
  ReplaceHttpResponseBody b w :=
    if replace_fails w then (Some "replace body failed", w)
    else (None, with_response_body b w);
  SetEffectiveContext _ w := w;
  time_Now_UnixMilli w := (clock w, w)
}.

(** *** Flat JSON objects of strings *)

Definition backslash : ascii := "092"%char.

Fixpoint escape (s : string) : string :=
  match s with
  | EmptyString => EmptyString
  | String c rest =>
      if bool_decide (c = quote_char ∨ c = backslash)
      then String backslash (String c (escape rest))
      else String c (escape rest)
  end.

(** Reads an escaped string up to its closing quote: the text and what
    follows the quote. *)
Fixpoint read_string (s : string) : option (string * string) :=
  match s with
  | EmptyString => None
  | String c rest =>
      if bool_decide (c = quote_char) then Some (EmptyString, rest)
      else if bool_decide (c = backslash) then
        match rest with
        | String d rest' =>
            if bool_decide (d = quote_char ∨ d = backslash) then
              match read_string rest' with
              | Some (t, r) => Some (String d t, r)
              | None => None
              end
            else None
        | EmptyString => None
        end
      else
        match read_string rest with
        | Some (t, r) => Some (String c t, r)
        | None => None
        end
  end.

Definition quoted (s : string) : string :=
  dquote +:+ escape s +:+ dquote.

Definition unquote (s : string) : option string :=
  match s with
  | String c rest =>
      if bool_decide (c = quote_char) then
        match read_string rest with
        | Some (t, EmptyString) => Some t
        | _ => None
        end
      else None
  | EmptyString => None
  end.

Definition member (kv : string * string) : string :=
  quoted kv.1 +:+ ":" +:+ quoted kv.2.

Fixpoint join (sep : string) (l : list string) : string :=
  match l with
  | [] => ""
  | [x] => x
  | x :: rest => x +:+ sep +:+ join sep rest
  end.

Definition key_le (a b : string * string) : Prop := String.leb a.1 b.1.

Definition marshal (m : gmap string string) : string :=
  "{" +:+ join "," (member <$> merge_sort key_le (map_to_list m)) +:+ "}".

(** The members of an object after its opening brace. *)
Fixpoint members (fuel : nat) (s : string) (acc : gmap string string)
  : option (gmap string string) :=
  match fuel with
  | O => None
  | S fuel' =>
      match s with
      | String c rest =>
          if bool_decide (c = quote_char) then
            match read_string rest with
            | Some (k, String ":" (String q rest1)) =>
                if bool_decide (q = quote_char) then
                  match read_string rest1 with
                  | Some (v, String "," rest2) => members fuel' rest2 (<[k := v]> acc)
                  | Some (v, String "}" EmptyString) => Some (<[k := v]> acc)
                  | _ => None
                  end
                else None
            | _ => None
            end
          else None
      | EmptyString => None
      end
  end.

Definition unmarshal (s : string) : option (gmap string string) :=
  match s with
  | String "{" (String "}" EmptyString) => Some ∅
  | String "{" rest => members (String.length rest) rest ∅
  | _ => None
  end.

#[export] Instance codec : Codec string := {
  json_Unmarshal s :=
    if decide (s = "null") then (None, None)
    else
      match unmarshal s with
      | Some m => (Some m, None)
      | None => (Some ∅, Some "invalid JSON object")
      end;
  json_Marshal m :=
    match m with
    | Some m' => (marshal m', None)
    | None => ("null", None)
    end;
  map_range m := map_to_list m;
  fmt_Sprint v := v;
  as_bool _ := None;
  as_string v := Some v
}.

(** Modelled from the spec: [marshalStr] and [unmarshalStr] are in another
    file of package [wrapper]. The design document (4.5) has the log
    property carry a doubly-encoded string: the exporter unescapes the
    prior value once before parsing it and re-escapes the serialized
    object before storing it. [unmarshalStr] decodes a JSON string literal
    and yields the empty string when that fails; [marshalStr] encodes a
    string as a JSON string literal without its quotes. *)
Definition sim_unmarshalStr (s : string) : string := default "" (unquote s).
Definition sim_marshalStr (s : string) : string := escape s.

#[export] Instance helpers : Helpers World := {
  unmarshalStr := sim_unmarshalStr;
  marshalStr := sim_marshalStr;
  IsBinaryRequestBody w := (binary_request w, w);
  IsBinaryResponseBody w := (binary_response w, w);
  GetRequestScheme w := ("http", w);
  GetRequestHost w := ("localhost", w);
  GetRequestPath w := ("/", w);
  GetRequestMethod w := ("GET", w)
}.

#[export] Instance gjson : Gjson string := {
  gjson_ValidBytes s := bool_decide (is_Some (unmarshal s));
  gjson_ParseBytes s := s;
  gjson_zero := ""
}.

Definition set_rule (v : option string) (p : Process string World)
  : Process string World :=
  {| globalOnTickFuncs := globalOnTickFuncs p;
     pworld := with_rule v (pworld p); pevents := pevents p |}.

(** Modelled from the spec: the rule matcher is package [matcher]. The
    design document (6) gives its contract: resolving request metadata
    yields a configuration or no match, and building the rule set from the
    raw configuration and the parser closures yields a rule set or a parse
    error. This one has at most one, global, rule: building applies the
    global parser to the zero configuration and keeps the result. *)
#[export] Instance matcher : Matcher string World string := {
  GetMatchConfig w := ((rule w, match_err w), w);
  ParseRuleConfig js parseGlobal _ p :=
    match parseGlobal js "" p with
    | (Returned (cfg, None), p') => (Returned None, set_rule (Some cfg) p')
    | (Returned (_, Some e), p') => (Returned (Some e), p')
    | (Panicked msg, p') => (Panicked msg, p')
    end
}.

Definition world0 : World :=
  {| config_bytes := ""; config_err := None; props := ∅;
     readonly_props := []; request_body := ""; response_body := "";
     fetch_fails := false; replace_fails := false;
     binary_request := false; binary_response := false;
     rule := None; match_err := None; tick_fails := false;
     clock := 1700000000000 |}.

End Sim.

(** ** Concrete plugins, exchanges and processes *)

Module Demo.
Import Sim.

Abbreviation Vm := (@CommonVmCtx string string Sim.World string).
Abbreviation PluginCtx := (@CommonPluginCtx string string Sim.World string).
Abbreviation State := (St string string Sim.World).
Abbreviation Proc := (Process string Sim.World).

Definition logger : Log := DefaultLog "demo".

(** Callbacks that leave a mark in the user context and answer pause, so
    that an answer of theirs cannot be mistaken for the wrapper's. *)
Definition mark_headers : @onHttpHeadersFunc string string Sim.World :=
  fun cfg => Vis (CallSetContext "headers" cfg) (fun _ => Ret ActionPause).
Definition mark_body : @onHttpBodyFunc string string Sim.World :=
  fun cfg body => Vis (CallSetContext "body" body) (fun _ => Ret ActionPause).
Definition upper_chunk : @onHttpStreamingBodyFunc string string Sim.World :=
  fun cfg chunk isLast =>
    Vis (CallSetUserAttribute "chunk" chunk) (fun _ => Ret (chunk +:+ "!")).
Definition mark_done : @onHttpStreamDoneFunc string string Sim.World :=
  fun cfg => Vis (CallSetContext "done" cfg) (fun _ => Ret tt).

Definition accept : @ParseConfigFunc string Sim.World string :=
  fun js cfg lg p => (Returned (js, None), p).

(** A parser that registers a one-second tick function. *)
Definition with_tick : @ParseConfigFunc string Sim.World string :=
  fun js cfg lg p => (Returned (js, None), RegisteTickFunc 1000 (fun w => w) p).

Definition vm_with (parser : @ParseConfigFunc string Sim.World string)
  (whole streaming : bool) : Vm :=
  {| pluginName := "demo"; log := Some logger; hasCustomConfig := true;
     parseConfig := Some parser; parseRuleConfig := None;
     onHttpRequestHeaders := Some mark_headers;
     onHttpRequestBody := if whole then Some mark_body else None;
     onHttpStreamingRequestBody := if streaming then Some upper_chunk else None;
     onHttpResponseHeaders := Some mark_headers;
     onHttpResponseBody := if whole then Some mark_body else None;
     onHttpStreamingResponseBody := if streaming then Some upper_chunk else None;
     onHttpStreamDone := Some mark_done |}.

Definition vm_all : Vm := vm_with accept true true.
Definition vm_whole : Vm := vm_with accept true false.

Definition plugin (v : Vm) : PluginCtx := NewPluginContext v 1.

Definition fresh (v : Vm) (w : Sim.World) : State :=
  {| ctx := NewHttpContext (plugin v) 7; world := w; events := [] |}.

Definition matched (v : Vm) (w : Sim.World) : State :=
  {| ctx := with_config (Some "R") (NewHttpContext (plugin v) 7);
     world := w; events := [] |}.

Definition world_with_bodies : Sim.World :=
  with_response_body "binary?" (with_request_body "hello world" world0).

Definition world_matching : Sim.World := with_rule (Some "R") world_with_bodies.

Definition process0 : Proc :=
  {| globalOnTickFuncs := Some []; pworld := world0; pevents := [] |}.

(** A host on which arming the tick timer fails. *)
Definition world_unarmed : Sim.World :=
  {| config_bytes := ""; config_err := None; props := ∅;
     readonly_props := []; request_body := ""; response_body := "";
     fetch_fails := false; replace_fails := false;
     binary_request := false; binary_response := false;
     rule := None; match_err := None; tick_fails := true;
     clock := 1700000000000 |}.

(** A host that refuses to write one of the trace properties. *)
Definition world_locked : Sim.World :=
  {| config_bytes := ""; config_err := None; props := ∅;
     readonly_props := [["trace_span_tag.locked"]];
     request_body := ""; response_body := "";
     fetch_fails := false; replace_fails := false;
     binary_request := false; binary_response := false;
     rule := Some "R"; match_err := None; tick_fails := false;
     clock := 1700000000000 |}.

Definition process_unarmed : Proc :=
  {| globalOnTickFuncs := Some []; pworld := world_unarmed; pevents := [] |}.

Definition advance100 (w : Sim.World) : Sim.World := with_clock (clock w + 100) w.

(** A JSON text written with single quotes in place of its double
    quotes. *)
Fixpoint json_text (s : string) : string :=
  match s with
  | EmptyString => EmptyString
  | String c rest =>
      String (if bool_decide (c = "'"%char) then quote_char else c) (json_text rest)
  end.

Definition world_binary : Sim.World :=
  {| config_bytes := ""; config_err := None; props := ∅;
     readonly_props := []; request_body := "hello world";
     response_body := "binary?";
     fetch_fails := false; replace_fails := false;
     binary_request := true; binary_response := true;
     rule := Some "R"; match_err := None; tick_fails := false;
     clock := 1700000000000 |}.

Definition with_attributes (acc : gmap string string) (s : State) : State :=
  set_ctx (with_userAttribute acc (ctx s)) s.

Definition attrs_a : gmap string string := {[ "a" := "1" ]}.
Definition attrs_b : gmap string string := {[ "b" := "2" ]}.

Definition mixed_signals : list Signal :=
  [ResponseBody 7 false; RequestBody 5 true; ResponseBody 3 true; StreamDone].

Definition no_parser_options : list (@CtxOption string string Sim.World string) :=
  [ProcessRequestHeadersBy (Some mark_headers); ProcessStreamDoneBy (Some mark_done)].

Definition vm_tick : Vm := vm_with with_tick true true.

(** The plugin context and the process after the start of [vm_tick]. *)
Definition started_plugin : PluginCtx := (OnPluginStart (plugin vm_tick) process0).1.2.
Definition started_process : Proc := (OnPluginStart (plugin vm_tick) process0).2.

Definition one_second_entry : TickFuncEntry Sim.World :=
  {| lastExecuted := 0; tickPeriod := 1000; tickFunc := fun w => w |}.

Definition later_signals : list Signal :=
  [RequestBody 5 true; ResponseHeaders 2 false; ResponseBody 7 true; StreamDone].

(** A plugin with header and stream-done callbacks only. *)
Definition vm_headers : Vm := vm_with accept false false.

Definition whole_exchange : list Signal := RequestHeaders 3 false :: later_signals.

(** A callback that opts out of the request body, and one that opts out
    of streaming it. *)
Definition skip_body : Prog (Value := string) (World := Sim.World) Action :=
  Vis CallDontReadRequestBody (fun _ => Ret ActionContinue).
Definition buffer_instead : Prog (Value := string) (World := Sim.World) Action :=
  Vis CallBufferRequestBody (fun _ => Ret ActionContinue).

(** An entry whose period is one and a half granules. *)
Definition odd_entry : TickFuncEntry Sim.World :=
  {| lastExecuted := 0; tickPeriod := 150; tickFunc := fun w => w |}.


(** A host whose log property holds a JSON null. *)
Definition world_null_log : Sim.World :=
  with_props {[ [CustomLogKey] := "null" ]} world_matching.

(** A request-headers callback that records an attribute and exports the
    accumulator to the log property. *)
Definition export_headers : @onHttpHeadersFunc string string Sim.World :=
  fun cfg =>
    Vis (CallSetUserAttribute "a" "1") (fun _ =>
    Vis CallWriteUserAttributeToLog (fun _ => Ret ActionContinue)).

Definition vm_export : Vm :=
  {| pluginName := "demo"; log := Some logger; hasCustomConfig := true;
     parseConfig := Some accept; parseRuleConfig := None;
     onHttpRequestHeaders := Some export_headers;
     onHttpRequestBody := None;
     onHttpStreamingRequestBody := None;
     onHttpResponseHeaders := None;
     onHttpResponseBody := None;
     onHttpStreamingResponseBody := None;
     onHttpStreamDone := None |}.

End Demo.

(** * Properties

    First the vocabulary in which they are stated, then the lemmas. *)

Section Properties.

Context {PluginConfig Value World Json : Type}.
Context `{!ProxyWasm World, !Codec Value, !Helpers World,
          !Matcher PluginConfig World Json, !Gjson Json}.

Abbreviation State' := (St PluginConfig Value World).
Abbreviation Vm := (@CommonVmCtx PluginConfig Value World Json).
Abbreviation Comp := (@M PluginConfig Value World).

Abbreviation PluginCtx := (@CommonPluginCtx PluginConfig Value World Json).
Abbreviation Proc' := (Process PluginConfig World).

Abbreviation TickEntry' := (TickFuncEntry World).

(** ** Vocabulary: the monad *)

(** A computation that does not panic. *)
Definition returns {A} (m : Comp A) : Prop :=
  forall s, exists a, (m s).1 = Returned a.

(** An outcome other than a panic, or the panic of an assignment to an
    entry of a nil map: with a logger installed, the ways in which a
    method of [HttpContext], a callback and a handler can end. *)
Definition benign {A} (o : Outcome A) : Prop :=
  match o with
  | Returned _ => True
  | Panicked msg => msg = nil_map_assignment
  end.

Definition settles {A} (m : Comp A) : Prop := forall s, benign (m s).1.

(** A computation whose every run relates the state before and after. *)
Definition respects (P : State' -> State' -> Prop) {A} (m : Comp A) : Prop :=
  forall s, P s (m s).2.

(** ** Vocabulary: what a user callback can do to an exchange

    Through [HttpContext] a callback can lower the need-body and streaming
    flags and write the two maps, never raise a flag, touch the resolved
    configuration or the byte counters; what it adds to the trace is
    neither a callback invocation nor a body fetch. *)

(** [quiet e]: [e] is neither a callback invocation nor a body fetch. *)
Definition quiet (e : Event PluginConfig) : bool :=
  negb (is_invoke e) && negb (is_request_body_fetch e) &&
  negb (is_response_body_fetch e).

Definition interface_step (s s' : State') : Prop :=
  config (ctx s') = config (ctx s) /\
  requestBodySize (ctx s') = requestBodySize (ctx s) /\
  responseBodySize (ctx s') = responseBodySize (ctx s) /\
  (needRequestBody (ctx s) = false -> needRequestBody (ctx s') = false) /\
  (needResponseBody (ctx s) = false -> needResponseBody (ctx s') = false) /\
  exists l, events s' = events s ++ l /\ Forall (fun e => quiet e = true) l.

(** ** Vocabulary: construction of the plugin-wide context *)

Definition is_parser_option (o : @CtxOption PluginConfig Value World Json) : bool :=
  match o with
  | ParseConfigBy _ | ParseOverrideConfigBy _ _ => true
  | _ => false
  end.

(** ** Vocabulary: unmatched exchanges *)

Definition is_request_headers (sig : Signal) : bool :=
  match sig with RequestHeaders _ _ => true | _ => false end.

(** The answer the host gets from an exchange without configuration. *)
Definition pass_through (sig : Signal) : option Action :=
  match sig with StreamDone => None | _ => Some ActionContinue end.

(** The state in which [OnHttpRequestHeaders] asks the matcher, and the
    matcher's answer there. *)
Definition before_match (s : State') : State' :=
  let r := GetHttpRequestHeader "x-request-id" (world s) in
  let s1 := set_world r.2 (emit (EvHost (OpGetHttpRequestHeader "x-request-id")) s) in
  let r2 := SetProperty ["x_request_id"] r.1.1 (world s1) in
  set_world r2.2 (emit (EvHost (OpSetProperty ["x_request_id"] r.1.1)) s1).

Definition match_answer (s : State') : option PluginConfig * option error :=
  (GetMatchConfig (world (before_match s))).1.

Definition after_match (s : State') : State' :=
  set_world (GetMatchConfig (world (before_match s))).2
            (emit (EvHost OpGetMatchConfig) (before_match s)).

(** ** Vocabulary: whole-body delivery *)

Fixpoint sum_sizes (ns : list Z) : Z :=
  match ns with
  | [] => 0
  | n :: rest => n + sum_sizes rest
  end.

(** *** Vocabulary: the two directions side by side *)

Inductive Direction := Request | Response.

Definition OnHttpBody (d : Direction) (v : Vm) : Z -> bool -> Comp Action :=
  match d with
  | Request => OnHttpRequestBody v
  | Response => OnHttpResponseBody v
  end.
Definition BodySignal (d : Direction) : Z -> bool -> Signal :=
  match d with Request => RequestBody | Response => ResponseBody end.
Definition needBody (d : Direction) (c : CommonHttpCtx PluginConfig Value) : bool :=
  match d with Request => needRequestBody c | Response => needResponseBody c end.
Definition streamingBody (d : Direction) (c : CommonHttpCtx PluginConfig Value) : bool :=
  match d with
  | Request => streamingRequestBody c
  | Response => streamingResponseBody c
  end.
Definition bodySizeOf (d : Direction) (c : CommonHttpCtx PluginConfig Value) : Z :=
  match d with Request => requestBodySize c | Response => responseBodySize c end.
Definition with_bodySize (d : Direction) (n : Z)
  (c : CommonHttpCtx PluginConfig Value) : CommonHttpCtx PluginConfig Value :=
  match d with
  | Request => with_requestBodySize n c
  | Response => with_responseBodySize n c
  end.
Definition onHttpBody (d : Direction) (v : Vm) : option onHttpBodyFunc :=
  match d with Request => onHttpRequestBody v | Response => onHttpResponseBody v end.
Definition onHttpStreamingBody (d : Direction) (v : Vm)
  : option onHttpStreamingBodyFunc :=
  match d with
  | Request => onHttpStreamingRequestBody v
  | Response => onHttpStreamingResponseBody v
  end.
Definition GetHttpBody (d : Direction)
  : Z -> Z -> World -> (string * option error) * World :=
  match d with Request => GetHttpRequestBody | Response => GetHttpResponseBody end.
Definition ReplaceHttpBody (d : Direction) : string -> World -> option error * World :=
  match d with
  | Request => ReplaceHttpRequestBody
  | Response => ReplaceHttpResponseBody
  end.
Definition OpGetHttpBody (d : Direction) : Z -> Z -> HostOp :=
  match d with
  | Request => OpGetHttpRequestBody
  | Response => OpGetHttpResponseBody
  end.
Definition OpReplaceHttpBody (d : Direction) : string -> HostOp :=
  match d with
  | Request => OpReplaceHttpRequestBody
  | Response => OpReplaceHttpResponseBody
  end.
Definition InvBody (d : Direction) : PluginConfig -> string -> Invocation PluginConfig :=
  match d with Request => InvRequestBody | Response => InvResponseBody end.
Definition InvStreamingBody (d : Direction)
  : PluginConfig -> string -> bool -> Invocation PluginConfig :=
  match d with
  | Request => InvStreamingRequestBody
  | Response => InvStreamingResponseBody
  end.
Definition direction_name (d : Direction) : string :=
  match d with Request => "request" | Response => "response" end.

(** ** Vocabulary: the binary guard *)

(** Trace entries that move no body bytes of direction [d] to a callback:
    neither a fetch of that body nor a call of one of its body callbacks. *)
Definition off_body (d : Direction) (e : Event PluginConfig) : bool :=
  match d with
  | Request => negb (is_request_body_fetch e) && negb (is_request_body_invoke e)
  | Response => negb (is_response_body_fetch e) && negb (is_response_body_invoke e)
  end.

Definition is_body_signal (d : Direction) (sig : Signal) : bool :=
  match d, sig with
  | Request, RequestBody _ _ => true
  | Response, ResponseBody _ _ => true
  | _, _ => false
  end.

(** Once the body of direction [d] is not needed, it stays so, and the
    trace grows by entries off that body only. *)
Definition stays_off (d : Direction) (s s' : State') : Prop :=
  needBody d (ctx s) = false ->
  needBody d (ctx s') = false /\
  exists l, events s' = events s ++ l /\ Forall (fun e => off_body d e = true) l.

Definition OnHttpHeaders (d : Direction) (v : Vm) : Z -> bool -> Comp Action :=
  match d with
  | Request => OnHttpRequestHeaders v
  | Response => OnHttpResponseHeaders v
  end.

(** The header phase of direction [d] runs its guard on a binary body: in
    the request direction the matcher resolves a configuration and the
    request body is classified binary; in the response direction the
    exchange is matched and the response body is classified binary. *)
Definition binary_headers (d : Direction) (s : State') : Prop :=
  match d with
  | Request =>
      (match_answer s).2 = None /\ (match_answer s).1 <> None /\
      (IsBinaryRequestBody (world (after_match s))).1 = true
  | Response =>
      config (ctx s) <> None /\ (IsBinaryResponseBody (world s)).1 = true
  end.

(** ** Vocabulary: export of the user attributes *)

(** [range] visits every entry of a map once, in some order. *)
Definition range_enumerates : Prop :=
  forall m : gmap string Value, map_range m ≡ₚ map_to_list m.

(** The trace of one export to the trace properties: entry by entry, an
    empty value is logged and skipped, a value is written, and a failed
    write is logged; the next entry follows in every case. *)
Inductive exported : list (string * Value) -> World ->
                     list (Event PluginConfig) -> World -> Prop :=
| exported_nil w : exported [] w [] w
| exported_empty k x rest w l w' :
    fmt_Sprint x = "" ->
    exported rest w l w' ->
    exported ((k, x) :: rest) w
      (EvLog LvlWarn
         ("Failed to set trace attribute - " +:+ (TraceSpanTagPrefix +:+ k) +:+
          ": " +:+ fmt_Sprint x +:+ ", error message: " +:+
          ("value of " +:+ (TraceSpanTagPrefix +:+ k) +:+ " is empty")) :: l) w'
| exported_written k x rest w w1 l w' :
    fmt_Sprint x <> "" ->
    SetProperty [TraceSpanTagPrefix +:+ k] (fmt_Sprint x) w = (None, w1) ->
    exported rest w1 l w' ->
    exported ((k, x) :: rest) w
      (EvHost (OpSetProperty [TraceSpanTagPrefix +:+ k] (fmt_Sprint x)) :: l) w'
| exported_failed k x rest w e w1 l w' :
    fmt_Sprint x <> "" ->
    SetProperty [TraceSpanTagPrefix +:+ k] (fmt_Sprint x) w = (Some e, w1) ->
    exported rest w1 l w' ->
    exported ((k, x) :: rest) w
      (EvHost (OpSetProperty [TraceSpanTagPrefix +:+ k] (fmt_Sprint x)) ::
       EvLog LvlWarn
         ("Failed to set trace attribute - " +:+ (TraceSpanTagPrefix +:+ k) +:+
          ": " +:+ fmt_Sprint x +:+ ", error message: " +:+ e) :: l) w'.

(** *** Vocabulary: export to the log property *)

Definition prior_value (key : string) (s : State') : string :=
  (GetProperty [key] (world s)).1.1.

Definition after_get (key : string) (s : State') : State' :=
  set_world (GetProperty [key] (world s)).2 (emit (EvHost (OpGetProperty [key])) s).

(** Unescape once, then parse. *)
Definition parse_prior (pre : string)
  : option (gmap string Value) * option error :=
  json_Unmarshal (unmarshalStr (dquote +:+ pre +:+ dquote)).

(** Serialize, then escape. *)
Definition encoded (m : option (gmap string Value)) : string :=
  marshalStr (json_Marshal m).1.

(** Store the encoded object under [key]; a failed write is logged and
    returned. *)
Definition store_merged (key : string) (m : option (gmap string Value))
  (s0 : State') : Outcome (option error) * State' :=
  let r := SetProperty [key] (encoded m) (world s0) in
  let s1 := set_world r.2 (emit (EvHost (OpSetProperty [key] (encoded m))) s0) in
  match r.1 with
  | Some e =>
      (Returned (Some e),
       emit (EvLog LvlWarn
               ("failed to set " +:+ key +:+ " in filter state, raw is " +:+
                encoded m +:+ ", err is " +:+ e)) s1)
  | None => (Returned None, s1)
  end.

(** Store what the loop of assignments has left; a panic of the loop
    ends the export where it stands. *)
Definition store_laid (key : string)
  (o : Outcome (option (gmap string Value))) (s0 : State')
  : Outcome (option error) * State' :=
  match o with
  | Returned m => store_merged key m s0
  | Panicked msg => (Panicked msg, s0)
  end.

(** The accumulator laid over what the prior value was parsed to: over
    an object its entries win on equal keys; over the nil map that a JSON
    null leaves, an empty accumulator assigns nothing and leaves nil, and
    any other panics on its first assignment. *)
Definition laid_over (acc : gmap string Value)
  (prior : option (gmap string Value)) : Outcome (option (gmap string Value)) :=
  match prior with
  | Some m => Returned (Some (acc ∪ m))
  | None => if decide (acc = ∅) then Returned None
            else Panicked nil_map_assignment
  end.

(** What an export that returns has handed to the codec: the accumulator
    laid over the parsed prior value, or over the empty object when there
    is no prior value; nil when the prior value is a JSON null. *)
Definition merged_object (key : string) (s : State')
  : option (gmap string Value) :=
  if decide (prior_value key s = "") then Some (userAttribute (ctx s) ∪ ∅)
  else (fun m => userAttribute (ctx s) ∪ m) <$> (parse_prior (prior_value key s)).1.

(** The host keeps properties: reading changes nothing, and a successful
    write is what the next read returns. *)
Definition property_store : Prop :=
  (forall path w, (GetProperty path w).2 = w) /\
  (forall path x w w', SetProperty path x w = (None, w') ->
                       (GetProperty path w').1.1 = x).

(** The stored form of the object [m] is not empty and parses back to
    [m]. *)
Definition round_trips (m : gmap string Value) : Prop :=
  encoded (Some m) <> "" /\ parse_prior (encoded (Some m)) = (Some m, None).

(** ** Vocabulary: plugin start *)

Definition start_read (p : Proc') : (string * option error) * Proc' :=
  pcall OpGetPluginConfiguration GetPluginConfiguration p.
Definition raw_configuration (p : Proc') : string := (start_read p).1.1.
Definition read_error (p : Proc') : option error := (start_read p).1.2.
Definition after_read (p : Proc') : Proc' := pset_global None (start_read p).2.

(** The state in which the rule set is built: after the warning, when the
    raw configuration is empty and a parser was registered. *)
Definition before_build (pc : PluginCtx) (p : Proc') : Proc' :=
  if decide (raw_configuration p = "") then
    if hasCustomConfig (vm pc)
    then pemit (EvLog LvlWarn "config is empty, but has ParseConfigFunc") (after_read p)
    else after_read p
  else after_read p.

Definition start_json (p : Proc') : Json :=
  if decide (raw_configuration p = "") then gjson_zero
  else gjson_ParseBytes (raw_configuration p).

(** The build of the rule set, as plugin start runs it. *)
Definition build (pc : PluginCtx) (p : Proc') : Outcome (option error) * Proc' :=
  ParseRuleConfig (start_json p) (global_parser pc) (override_parser pc)
                  (pemit (EvHost OpParseRuleConfig) (before_build pc p)).

(** The four failures. *)
Definition read_fails (p : Proc') : Prop := read_failed (read_error p) = true.
Definition malformed (p : Proc') : Prop :=
  raw_configuration p <> "" /\ gjson_ValidBytes (raw_configuration p) = false.
Definition build_fails (pc : PluginCtx) (p : Proc') : Prop :=
  exists e, (build pc p).1 = Returned (Some e).
Definition arming_fails (pc : PluginCtx) (p : Proc') : Prop :=
  (build pc p).1 = Returned None /\
  globalOnTickFuncs (build pc p).2 <> None /\
  (SetTickPeriodMilliSeconds 100 (pworld (build pc p).2)).1 <> None.

(** ** Vocabulary: the tick scheduler *)

(** [fires t e]: at time [t] the elapsed time since the last firing of
    [e] has reached its period. *)
Definition fires (t : Z) (e : TickEntry') : bool :=
  tickPeriod e <=? int64_sub t (lastExecuted e).

(** One tick, entry by entry in registration order: read the clock; an
    entry that fires has its callback run on the spot and its last-fired
    time set to the time just read; then the next entry. [i] is the index
    of the head of [fs]. *)
Fixpoint tick_entries (i : nat) (fs : list TickEntry') (p : Proc')
  : list TickEntry' * Proc' :=
  match fs with
  | [] => ([], p)
  | e :: rest =>
      let now := time_Now_UnixMilli (pworld p) in
      if fires now.1 e then
        let p1 := pemit (EvInvoke (InvTick i)) (pset_world now.2 p) in
        let p2 := pset_world (tickFunc e (pworld p1)) p1 in
        let r := tick_entries (S i) rest p2 in
        (with_lastExecuted now.1 e :: r.1, r.2)
      else
        let r := tick_entries (S i) rest (pset_world now.2 p) in
        (e :: r.1, r.2)
  end.

(** *** Vocabulary: ticks at a fixed cadence *)

Definition now (w : World) : Z := (time_Now_UnixMilli w).1.

Definition is_tick (i : nat) (e : Event PluginConfig) : bool :=
  match e with EvInvoke (InvTick j) => Nat.eqb i j | _ => false end.

(** How often entry [i] has fired so far. *)
Definition fired (i : nat) (p : Proc') : nat :=
  length (filter (fun e => is_tick i e = true) (pevents p)).

(** [n] ticks; before each the host moves the world on by [advance]. *)
Fixpoint run_ticks (advance : World -> World) (n : nat) (pc : PluginCtx)
  (p : Proc') : PluginCtx * Proc' :=
  match n with
  | O => (pc, p)
  | S m =>
      let r := run_ticks advance m pc p in
      OnTick r.1 (pset_world (advance (pworld r.2)) r.2)
  end.

(** Ticks arrive exactly every [G]: the clock moves by [G] between ticks
    and stands still while a tick is handled. *)
Definition steady_clock (advance : World -> World) (G : Z)
  (fs : list TickEntry') : Prop :=
  (forall w, now (time_Now_UnixMilli w).2 = now w) /\
  (forall w, now (advance w) = now w + G) /\
  Forall (fun e => forall w, now (tickFunc e w) = now w) fs.

Definition step_entry (t : Z) (e : TickEntry') : TickEntry' :=
  if fires t e then with_lastExecuted t e else e.

Fixpoint fired_at (t : Z) (i0 : nat) (fs : list TickEntry') (i : nat) : nat :=
  match fs with
  | [] => 0
  | e :: rest =>
      ((if fires t e && Nat.eqb i i0 then 1 else 0) + fired_at t (S i0) rest i)%nat
  end.

(** Entry [e] after [n] ticks at times [t0 + G], ..., [t0 + n * G], and how
    often it has fired by then. *)
Fixpoint entry_after (t0 G : Z) (n : nat) (e : TickEntry') : TickEntry' :=
  match n with
  | O => e
  | S m => step_entry (t0 + Z.of_nat (S m) * G) (entry_after t0 G m e)
  end.

Fixpoint fire_count (t0 G : Z) (n : nat) (e : TickEntry') : nat :=
  match n with
  | O => 0
  | S m =>
      (fire_count t0 G m e +
       (if fires (t0 + Z.of_nat (S m) * G) (entry_after t0 G m e) then 1 else 0))%nat
  end.

(** ** Vocabulary: what the methods of [HttpContext] change *)

Abbreviation HttpCtx' := (CommonHttpCtx PluginConfig Value).

(** One update of the exchange context by a method of [HttpContext]: a
    write to one of the two maps, or the lowering of one of the four
    flags. *)
Inductive method_update : HttpCtx' -> HttpCtx' -> Prop :=
| update_userContext c key value :
    method_update c (with_userContext (<[key := value]> (userContext c)) c)
| update_userAttribute c key value :
    method_update c (with_userAttribute (<[key := value]> (userAttribute c)) c)
| update_needRequestBody c : method_update c (with_needRequestBody false c)
| update_needResponseBody c : method_update c (with_needResponseBody false c)
| update_streamingRequestBody c :
    method_update c (with_streamingRequestBody false c)
| update_streamingResponseBody c :
    method_update c (with_streamingResponseBody false c).

(** The trace entries the methods of [HttpContext] leave: log lines, reads
    and writes of properties, and reads of the request metadata. *)
Definition method_event (e : Event PluginConfig) : bool :=
  match e with
  | EvLog _ _ => true
  | EvHost (OpGetProperty _) | EvHost (OpSetProperty _ _)
  | EvHost (OpSetEffectiveContext _)
  | EvHost OpGetRequestScheme | EvHost OpGetRequestHost
  | EvHost OpGetRequestPath | EvHost OpGetRequestMethod => true
  | _ => false
  end.

(** [keeps g R ok]: from a state whose context passes the guard [g], the
    guard still passes afterwards, the contexts before and after are
    related by [R], and the trace has grown by entries that pass [ok]. *)
Definition keeps (g : HttpCtx' -> bool) (R : HttpCtx' -> HttpCtx' -> Prop)
  (ok : Event PluginConfig -> bool) (s s' : State') : Prop :=
  g (ctx s) = true ->
  g (ctx s') = true /\ R (ctx s) (ctx s') /\
  exists l, events s' = events s ++ l /\ Forall (fun e => ok e = true) l.

(** No guard, no condition on the trace. *)
Definition always (c : HttpCtx') : bool := true.
Definition any_event (e : Event PluginConfig) : bool := true.

(** ** Vocabulary: what stays fixed in an exchange *)

(** The four flags have only been lowered and the context id is the
    same. *)
Definition lowered (c c' : HttpCtx') : Prop :=
  contextID c' = contextID c /\
  (needRequestBody c = false -> needRequestBody c' = false) /\
  (needResponseBody c = false -> needResponseBody c' = false) /\
  (streamingRequestBody c = false -> streamingRequestBody c' = false) /\
  (streamingResponseBody c = false -> streamingResponseBody c' = false).

(** Moreover the resolved configuration is the same. *)
Definition settled (c c' : HttpCtx') : Prop :=
  config c' = config c /\ lowered c c'.

Definition is_match_call (e : Event PluginConfig) : bool :=
  match e with EvHost OpGetMatchConfig => true | _ => false end.

Definition no_match_call (e : Event PluginConfig) : bool := negb (is_match_call e).

(** ** Vocabulary: opting out of a body, and out of streaming it *)

Definition DontReadBody (d : Direction) : Comp unit :=
  match d with
  | Request => DontReadRequestBody
  | Response => DontReadResponseBody
  end.
Definition BufferBody (d : Direction) : Comp unit :=
  match d with Request => BufferRequestBody | Response => BufferResponseBody end.
Definition CallDontReadBody (d : Direction) : @Cmd Value World unit :=
  match d with
  | Request => CallDontReadRequestBody
  | Response => CallDontReadResponseBody
  end.
Definition CallBufferBody (d : Direction) : @Cmd Value World unit :=
  match d with
  | Request => CallBufferRequestBody
  | Response => CallBufferResponseBody
  end.

Definition is_streaming_invoke (d : Direction) (e : Event PluginConfig) : bool :=
  match d, e with
  | Request, EvInvoke (InvStreamingRequestBody _ _ _) => true
  | Response, EvInvoke (InvStreamingResponseBody _ _ _) => true
  | _, _ => false
  end.

(** The body of direction [d] is not streamed. *)
Definition buffered (d : Direction) (c : HttpCtx') : bool := negb (streamingBody d c).
Definition no_streaming (d : Direction) (e : Event PluginConfig) : bool :=
  negb (is_streaming_invoke d e).
Definition unrelated (c c' : HttpCtx') : Prop := True.

(** ** Vocabulary: more on the tick scheduler and on plugin start *)

Definition tick_event (j : nat) : Event PluginConfig := EvInvoke (InvTick j).

Definition is_log (e : Event PluginConfig) : bool :=
  match e with EvLog _ _ => true | _ => false end.

(** The entry [RegisteTickFunc] appends for a period and a callback. *)
Definition new_entry (r : Z * (World -> World)) : TickEntry' :=
  {| lastExecuted := 0; tickPeriod := r.1; tickFunc := r.2 |}.

(** A run of calls of [RegisteTickFunc], in the order of the list. *)
Definition register_all (rs : list (Z * (World -> World))) (p : Proc') : Proc' :=
  foldl (fun q r => RegisteTickFunc r.1 r.2 q) p rs.

(** ** Vocabulary: the options of the plugin-wide context *)

(** What an option writes to one field of the context, if it writes that
    field; [last_of sel init options] is what the last option that writes
    the field has written, and [init] when there is none. *)
Definition last_of {X} (sel : @CtxOption PluginConfig Value World Json -> option X)
  (init : X) (options : list (@CtxOption PluginConfig Value World Json)) : X :=
  foldl (fun acc o => default acc (sel o)) init options.

Definition parser_of (o : @CtxOption PluginConfig Value World Json)
  : option (option ParseConfigFunc) :=
  match o with
  | ParseConfigBy f | ParseOverrideConfigBy f _ => Some f
  | _ => None
  end.
Definition rule_parser_of (o : @CtxOption PluginConfig Value World Json)
  : option (option ParseRuleConfigFunc) :=
  match o with ParseOverrideConfigBy _ g => Some g | _ => None end.
Definition logger_of (o : @CtxOption PluginConfig Value World Json)
  : option (option Log) :=
  match o with WithLogger lg => Some lg | _ => None end.
Definition is_logger_option (o : @CtxOption PluginConfig Value World Json) : bool :=
  match o with WithLogger _ => true | _ => false end.
Definition request_headers_of (o : @CtxOption PluginConfig Value World Json)
  : option (option onHttpHeadersFunc) :=
  match o with ProcessRequestHeadersBy f => Some f | _ => None end.
Definition request_body_of (o : @CtxOption PluginConfig Value World Json)
  : option (option onHttpBodyFunc) :=
  match o with ProcessRequestBodyBy f => Some f | _ => None end.
Definition streaming_request_body_of (o : @CtxOption PluginConfig Value World Json)
  : option (option onHttpStreamingBodyFunc) :=
  match o with ProcessStreamingRequestBodyBy f => Some f | _ => None end.
Definition response_headers_of (o : @CtxOption PluginConfig Value World Json)
  : option (option onHttpHeadersFunc) :=
  match o with ProcessResponseHeadersBy f => Some f | _ => None end.
Definition response_body_of (o : @CtxOption PluginConfig Value World Json)
  : option (option onHttpBodyFunc) :=
  match o with ProcessResponseBodyBy f => Some f | _ => None end.
Definition streaming_response_body_of (o : @CtxOption PluginConfig Value World Json)
  : option (option onHttpStreamingBodyFunc) :=
  match o with ProcessStreamingResponseBodyBy f => Some f | _ => None end.
Definition stream_done_of (o : @CtxOption PluginConfig Value World Json)
  : option (option onHttpStreamDoneFunc) :=
  match o with ProcessStreamDoneBy f => Some f | _ => None end.

(** Every field of [c] but the parser and the has-custom-config flag is
    what the last option for it supplies, the logger being [logger]
    without a logger option and every other field nil without an option
    for it. *)
Definition configured (name : string) (logger : option Log)
  (options : list (@CtxOption PluginConfig Value World Json)) (c : Vm) : Prop :=
  pluginName c = name /\
  log c = last_of logger_of logger options /\
  parseRuleConfig c = last_of rule_parser_of None options /\
  onHttpRequestHeaders c = last_of request_headers_of None options /\
  onHttpRequestBody c = last_of request_body_of None options /\
  onHttpStreamingRequestBody c = last_of streaming_request_body_of None options /\
  onHttpResponseHeaders c = last_of response_headers_of None options /\
  onHttpResponseBody c = last_of response_body_of None options /\
  onHttpStreamingResponseBody c = last_of streaming_response_body_of None options /\
  onHttpStreamDone c = last_of stream_done_of None options.

Definition missing_parser : string :=
  "the `parseConfig` is missing in NewCommonVmCtx's arguments".

(** What [NewCommonVmCtxWithOptions] returns for [options] when the
    context starts with logger [logger]: with a parser from the options,
    a context with that parser and the has-custom-config flag set;
    without one, for a configuration type of size zero, a context with
    the no-op parser and the flag cleared, and a panic otherwise. *)
Definition constructed (sizeof_PluginConfig : Z) (name : string)
  (logger : option Log) (options : list (@CtxOption PluginConfig Value World Json))
  (r : Outcome Vm * list (Event PluginConfig)) : Prop :=
  match last_of parser_of None options with
  | Some f =>
      exists c, r = (Returned c, []) /\ parseConfig c = Some f /\
                hasCustomConfig c = true /\ configured name logger options c
  | None =>
      if decide (sizeof_PluginConfig = 0) then
        exists c, r = (Returned c, []) /\
                  parseConfig c = Some parseEmptyPluginConfig /\
                  hasCustomConfig c = false /\ configured name logger options c
      else
        match last_of logger_of logger options with
        | Some _ => r = (Panicked missing_parser, [EvLog LvlCritical missing_parser])
        | None => r = (Panicked nil_dereference, [])
        end
  end.

(** ** The monad *)

Lemma bind_returned {A B} (m : Comp A) (k : A -> Comp B) s a s' :
  m s = (Returned a, s') -> (m ≫= k) s = k a s'.
Proof. intros E. unfold mbind, M_bind, bind. by rewrite E. Qed.

Lemma bind_panicked {A B} (m : Comp A) (k : A -> Comp B) s msg s' :
  m s = (Panicked msg, s') -> (m ≫= k) s = (Panicked msg, s').
Proof. intros E. unfold mbind, M_bind, bind. by rewrite E. Qed.

Lemma returns_ret {A} (a : A) : returns (mret a : Comp A).
Proof. intros s. by exists a. Qed.

Lemma returns_bind {A B} (m : Comp A) (k : A -> Comp B) :
  returns m -> (forall a, returns (k a)) -> returns (m ≫= k).
Proof.
  intros Hm Hk s. destruct (Hm s) as [a Ha].
  destruct (m s) as [o s'] eqn:E. simpl in Ha. subst o.
  rewrite (bind_returned _ _ _ _ _ E). apply Hk.
Qed.

Lemma returns_settles {A} (m : Comp A) : returns m -> settles m.
Proof. intros Hm s. destruct (Hm s) as [a Ha]. by rewrite Ha. Qed.

Lemma settles_ret {A} (a : A) : settles (mret a : Comp A).
Proof. by intros s. Qed.

Lemma settles_bind {A B} (m : Comp A) (k : A -> Comp B) :
  settles m -> (forall a, settles (k a)) -> settles (m ≫= k).
Proof.
  intros Hm Hk s. specialize (Hm s).
  destruct (m s) as [[a|msg] s'] eqn:E.
  - rewrite (bind_returned _ _ _ _ _ E). apply Hk.
  - by rewrite (bind_panicked _ _ _ _ _ E).
Qed.

Lemma respects_panic P {A} msg :
  (forall s, P s s) -> respects P (panic msg : Comp A).
Proof. intros Hr s. apply Hr. Qed.

Lemma respects_ret P {A} (a : A) :
  (forall s, P s s) -> respects P (mret a : Comp A).
Proof. intros Hr s. apply Hr. Qed.

Lemma respects_bind P {A B} (m : Comp A) (k : A -> Comp B) :
  (forall s1 s2 s3, P s1 s2 -> P s2 s3 -> P s1 s3) ->
  respects P m -> (forall a, respects P (k a)) -> respects P (m ≫= k).
Proof.
  intros Ht Hm Hk s. specialize (Hm s).
  destruct (m s) as [[a|msg] s'] eqn:E.
  - rewrite (bind_returned _ _ _ _ _ E). eapply Ht; [exact Hm | apply Hk].
  - rewrite (bind_panicked _ _ _ _ _ E). exact Hm.
Qed.

(** ** What a user callback can do to an exchange *)

Lemma interface_step_refl s : interface_step s s.
Proof.
  repeat split; auto. exists []. split; [by rewrite app_nil_r | constructor].
Qed.

Lemma interface_step_trans s1 s2 s3 :
  interface_step s1 s2 -> interface_step s2 s3 -> interface_step s1 s3.
Proof.
  intros (C1 & Q1 & P1 & R1 & S1 & l1 & E1 & F1) (C2 & Q2 & P2 & R2 & S2 & l2 & E2 & F2).
  repeat split; try congruence; auto.
  exists (l1 ++ l2). split.
  - by rewrite E2, E1, app_assoc.
  - by apply Forall_app.
Qed.

Lemma interface_step_emit e s :
  quiet e = true -> interface_step s (emit e s).
Proof.
  intros Q. repeat split; auto. exists [e]. split; [done | by constructor].
Qed.

Lemma respects_call {X} op (f : World -> X * World) :
  quiet (EvHost op) = true -> respects interface_step (call op f).
Proof.
  intros Q s. unfold call. destruct (f (world s)) as [x w]. simpl.
  repeat split; auto. exists [EvHost op]. split; [done | by constructor].
Qed.

Lemma returns_call {X} op (f : World -> X * World) : returns (call op f).
Proof. intros s. unfold call. destruct (f (world s)) as [x w]. by exists x. Qed.

Lemma respects_logf lg lvl msg : respects interface_step (logf lg lvl msg).
Proof.
  intros s. destruct lg; simpl.
  - by apply interface_step_emit.
  - apply interface_step_refl.
Qed.

Lemma returns_logf lg lvl msg : returns (@logf PluginConfig Value World (Some lg) lvl msg).
Proof. intros s. by exists tt. Qed.

Lemma respects_get_ctx : respects interface_step get_ctx.
Proof. intros s. apply interface_step_refl. Qed.

Lemma returns_get_ctx : returns (@get_ctx PluginConfig Value World).
Proof. intros s. by eexists. Qed.

Lemma returns_modify_ctx f : returns (@modify_ctx PluginConfig Value World f).
Proof. intros s. by exists tt. Qed.

Lemma respects_modify_ctx f :
  (forall c, config (f c) = config c /\
             requestBodySize (f c) = requestBodySize c /\
             responseBodySize (f c) = responseBodySize c /\
             (needRequestBody c = false -> needRequestBody (f c) = false) /\
             (needResponseBody c = false -> needResponseBody (f c) = false)) ->
  respects interface_step (modify_ctx f).
Proof.
  intros Hf s. destruct (Hf (ctx s)) as (C & Q & P & R & S). simpl.
  repeat split; auto. exists []. split; [by rewrite app_nil_r | constructor].
Qed.

Ltac comp_step :=
  first
    [ progress intros
    | apply respects_ret; apply interface_step_refl
    | apply respects_panic; apply interface_step_refl
    | apply returns_ret
    | apply settles_ret
    | apply respects_bind; [exact interface_step_trans | | ]
    | apply returns_bind
    | apply settles_bind
    | apply respects_call; reflexivity
    | apply returns_call
    | apply returns_settles, returns_call
    | apply respects_logf
    | apply returns_logf
    | apply returns_settles, returns_logf
    | apply respects_get_ctx
    | apply returns_get_ctx
    | apply returns_settles, returns_get_ctx
    | apply returns_modify_ctx
    | apply returns_settles, returns_modify_ctx
    | apply respects_modify_ctx; intros; by repeat split
    | match goal with
      | |- respects _ (match ?x with _ => _ end) => destruct x
      | |- returns (match ?x with _ => _ end) => destruct x
      | |- settles (match ?x with _ => _ end) => destruct x
      end ].

Lemma respects_for_range body entries :
  (forall kv, respects interface_step (body kv)) ->
  respects interface_step (for_range body entries).
Proof. intros Hb. induction entries as [|kv rest IH]; simpl; repeat comp_step; auto. Qed.

Lemma returns_for_range (body : string * Value -> Comp unit) entries :
  (forall kv, returns (body kv)) -> returns (for_range body entries).
Proof. intros Hb. induction entries as [|kv rest IH]; simpl; repeat comp_step; auto. Qed.

Lemma respects_exec lg {X} (c : Cmd X) :
  respects interface_step (exec lg c).
Proof.
  destruct c; simpl;
    unfold Scheme, Host, Path, Method, SetContext, GetContext, GetBoolContext,
      GetStringContext, GetUserAttribute, SetUserAttribute,
      WriteUserAttributeToLog, WriteUserAttributeToLogWithKey,
      WriteUserAttributeToTrace, DontReadRequestBody, DontReadResponseBody,
      BufferRequestBody, BufferResponseBody, DisableReroute,
      SetRequestBodyBufferLimit, SetResponseBodyBufferLimit;
    try (repeat comp_step; fail).
  - repeat comp_step. apply respects_for_range. intros kv. unfold trace_one.
    repeat comp_step.
  - intros s. simpl. destruct (f (world s)) as [x w]. simpl.
    repeat split; auto. exists []. split; [by rewrite app_nil_r | constructor].
Qed.

Lemma overlay_entries_benign entries (m : option (gmap string Value)) :
  benign (overlay_entries entries m).
Proof.
  revert m. induction entries as [|kv rest IH]; intros m; [done|].
  destruct m as [m|]; simpl; [apply IH | done].
Qed.

Lemma settles_log_export lg key :
  settles (@WriteUserAttributeToLogWithKey PluginConfig Value World _ _ _
             (Some lg) key).
Proof.
  unfold WriteUserAttributeToLogWithKey.
  apply settles_bind; [repeat comp_step|]. intros [pre e0].
  apply settles_bind; [repeat comp_step|]. intros [err|prior]; [repeat comp_step|].
  apply settles_bind; [repeat comp_step|]. intros c s.
  pose proof (overlay_entries_benign (map_range (userAttribute c)) prior) as Hb.
  unfold overlay. destruct (overlay_entries (map_range (userAttribute c)) prior)
    as [m|msg]; [|exact Hb].
  revert s. change (settles (let '(jsonStr, _) := json_Marshal m in
     let marshalledJsonStr := marshalStr jsonStr in
     err ← call (OpSetProperty [key] marshalledJsonStr)
                    (SetProperty [key] marshalledJsonStr);
     match err with
     | Some e =>
         logf (Some lg) LvlWarn
           ("failed to set " +:+ key +:+ " in filter state, raw is " +:+
            marshalledJsonStr +:+ ", err is " +:+ e);;
         mret (Some e)
     | None => mret None
     end : Comp (option error))).
  destruct (json_Marshal m) as [jsonStr e1]. repeat comp_step.
Qed.

Lemma settles_exec lg {X} (c : Cmd X) : settles (exec (Some lg) c).
Proof.
  destruct c; simpl;
    try apply settles_log_export;
    unfold Scheme, Host, Path, Method, SetContext, GetContext, GetBoolContext,
      GetStringContext, GetUserAttribute, SetUserAttribute,
      WriteUserAttributeToTrace, DontReadRequestBody, DontReadResponseBody,
      BufferRequestBody, BufferResponseBody, DisableReroute,
      SetRequestBodyBufferLimit, SetResponseBodyBufferLimit;
    try (repeat comp_step; fail).
  - repeat comp_step. apply returns_settles, returns_for_range. intros kv.
    unfold trace_one. repeat comp_step.
  - intros s. simpl. by destruct (f (world s)) as [x w].
Qed.

Lemma respects_run lg {R} (p : Prog R) : respects interface_step (run lg p).
Proof.
  induction p as [r | X c k IH]; simpl.
  - apply respects_ret, interface_step_refl.
  - apply respects_bind; [exact interface_step_trans | apply respects_exec | exact IH].
Qed.

Lemma settles_run lg {R} (p : Prog R) : settles (run (Some lg) p).
Proof.
  induction p as [r | X c k IH]; simpl.
  - apply settles_ret.
  - apply settles_bind; [apply settles_exec | exact IH].
Qed.

(** ** Creation of an exchange context *)

Lemma registered_true {A} (f : option A) : registered f = true <-> f <> None.
Proof. destruct f; simpl; split; congruence. Qed.

(** C8. A new exchange context needs the body of a direction exactly when
    a whole-body or a streaming-body callback is registered for that
    direction, streams it exactly when a streaming-body callback is
    registered for it, and starts with empty user maps, zero byte counters
    and no resolved configuration. *)
Theorem new_http_context_flags (pc : @CommonPluginCtx PluginConfig Value World Json)
  (contextID : Z) :
  let c := NewHttpContext pc contextID in
  (needRequestBody c = true <->
     onHttpRequestBody (vm pc) <> None \/ onHttpStreamingRequestBody (vm pc) <> None) /\
  (needResponseBody c = true <->
     onHttpResponseBody (vm pc) <> None \/ onHttpStreamingResponseBody (vm pc) <> None) /\
  (streamingRequestBody c = true <-> onHttpStreamingRequestBody (vm pc) <> None) /\
  (streamingResponseBody c = true <-> onHttpStreamingResponseBody (vm pc) <> None) /\
  userContext c = ∅ /\ userAttribute c = ∅ /\
  requestBodySize c = 0 /\ responseBodySize c = 0 /\ config c = None.
Proof.
  simpl. rewrite !orb_true_iff, !registered_true. tauto.
Qed.

(** ** Construction of the plugin-wide context *)

Lemma apply_keeps_parser (o : CtxOption) (c : Vm) :
  is_parser_option o = false -> parseConfig (Apply o c) = parseConfig c.
Proof. destruct o; simpl; congruence. Qed.

Lemma fold_keeps_parser (options : list CtxOption) (c : Vm) :
  Forall (fun o => is_parser_option o = false) options ->
  parseConfig (foldl (fun c opt => Apply opt c) c options) = parseConfig c.
Proof.
  intros H. revert c. induction H as [|o options Ho _ IH]; intros c; simpl.
  - done.
  - rewrite IH. by apply apply_keeps_parser.
Qed.

(** C9. When no parser option is among the options: for a configuration
    type of non-zero size the construction panics, with or without the
    default logger; for a configuration type of size zero it returns a
    context whose parser is the no-op parser and whose has-custom-config
    flag is cleared. *)
Theorem construction_without_parser (sizeof_PluginConfig : Z) (name : string)
  (options : list (@CtxOption PluginConfig Value World Json)) :
  Forall (fun o => is_parser_option o = false) options ->
  (sizeof_PluginConfig <> 0 ->
     (exists msg, (NewCommonVmCtxWithOptions sizeof_PluginConfig name options).1
                  = Panicked msg) /\
     (exists msg, (NewCommonVmCtx sizeof_PluginConfig name options).1
                  = Panicked msg)) /\
  (sizeof_PluginConfig = 0 ->
     (exists c, NewCommonVmCtxWithOptions sizeof_PluginConfig name options
                = (Returned c, []) /\
                hasCustomConfig c = false /\
                parseConfig c = Some parseEmptyPluginConfig) /\
     (exists c, NewCommonVmCtx sizeof_PluginConfig name options
                = (Returned c, []) /\
                hasCustomConfig c = false /\
                parseConfig c = Some parseEmptyPluginConfig)).
Proof.
  intros Hopts.
  assert (Hopts' : Forall (fun o => is_parser_option o = false)
                          ([WithLogger (Some (DefaultLog name))] ++ options)).
  { apply Forall_app. split; [by repeat constructor | done]. }
  split; intros Hsize.
  - split; [unfold NewCommonVmCtxWithOptions | unfold NewCommonVmCtx, NewCommonVmCtxWithOptions];
      (rewrite fold_keeps_parser; [simpl | done]);
      destruct (decide (sizeof_PluginConfig <> 0)); try done;
      match goal with |- context [match log ?c with _ => _ end] => destruct (log c) end;
      eauto.
  - split; [unfold NewCommonVmCtxWithOptions | unfold NewCommonVmCtx, NewCommonVmCtxWithOptions];
      (rewrite fold_keeps_parser; [simpl | done]);
      destruct (decide (sizeof_PluginConfig <> 0)); try done;
      eexists; repeat split.
Qed.

(** ** Unmatched exchanges *)

Lemma unmatched_request_body (v : Vm) n eos (s : State') :
  config (ctx s) = None ->
  OnHttpRequestBody v n eos s = (Returned ActionContinue, s).
Proof.
  intros E. unfold OnHttpRequestBody, mbind, M_bind, bind, get_ctx.
  by rewrite E.
Qed.

Lemma unmatched_response_headers (v : Vm) n eos (s : State') :
  config (ctx s) = None ->
  OnHttpResponseHeaders v n eos s = (Returned ActionContinue, s).
Proof.
  intros E. unfold OnHttpResponseHeaders, mbind, M_bind, bind, get_ctx.
  by rewrite E.
Qed.

Lemma unmatched_response_body (v : Vm) n eos (s : State') :
  config (ctx s) = None ->
  OnHttpResponseBody v n eos s = (Returned ActionContinue, s).
Proof.
  intros E. unfold OnHttpResponseBody, mbind, M_bind, bind, get_ctx.
  by rewrite E.
Qed.

Lemma unmatched_stream_done (v : Vm) (s : State') :
  config (ctx s) = None -> OnHttpStreamDone v s = (Returned tt, s).
Proof.
  intros E. unfold OnHttpStreamDone, mbind, M_bind, bind, get_ctx.
  by rewrite E.
Qed.

Lemma unmatched_deliver (v : Vm) sig (s : State') :
  config (ctx s) = None -> is_request_headers sig = false ->
  deliver v sig s = (Returned (pass_through sig), s).
Proof.
  intros E Hs. destruct sig; try discriminate; simpl.
  - by rewrite (bind_returned _ _ _ _ _ (unmatched_request_body v _ _ s E)).
  - by rewrite (bind_returned _ _ _ _ _ (unmatched_response_headers v _ _ s E)).
  - by rewrite (bind_returned _ _ _ _ _ (unmatched_response_body v _ _ s E)).
  - by rewrite (bind_returned _ _ _ _ _ (unmatched_stream_done v s E)).
Qed.

Lemma unmatched_deliver_all (v : Vm) sigs (s : State') :
  config (ctx s) = None ->
  Forall (fun sig => is_request_headers sig = false) sigs ->
  deliver_all v sigs s = (Returned (pass_through <$> sigs), s).
Proof.
  intros E H. induction H as [|sig sigs Hsig _ IH]; simpl.
  - done.
  - rewrite (bind_returned _ _ _ _ _ (unmatched_deliver v sig s E Hsig)).
    by rewrite (bind_returned _ _ _ _ _ IH).
Qed.

Lemma request_headers_unfold (v : Vm) n eos (s : State') :
  OnHttpRequestHeaders v n eos s =
  match (match_answer s).2, (match_answer s).1 with
  | Some e, _ =>
      (logf (log v) LvlError ("get match config failed, err:" +:+ e);;
       mret ActionContinue) (after_match s)
  | None, None => (Returned ActionContinue, after_match s)
  | None, Some cfg =>
      (modify_ctx (with_config (Some cfg));;
       isBinary ← call OpIsBinaryRequestBody IsBinaryRequestBody;
       (if isBinary : bool then modify_ctx (with_needRequestBody false)
        else mret tt);;
       match onHttpRequestHeaders v with
       | None => mret ActionContinue
       | Some f => invoked (InvRequestHeaders cfg);; run (log v) (f cfg)
       end) (after_match s)
  end.
Proof.
  unfold OnHttpRequestHeaders, match_answer, after_match, before_match.
  unfold mbind at 1, M_bind at 1, bind at 1, call at 1.
  destruct (GetHttpRequestHeader "x-request-id" (world s)) as [[rid e0] w1] eqn:E1.
  simpl.
  unfold mbind at 1, M_bind at 1, bind at 1, call at 1. simpl.
  destruct (SetProperty ["x_request_id"] rid w1) as [e1 w2] eqn:E2. simpl.
  unfold mbind at 1, M_bind at 1, bind at 1, call at 1. simpl.
  destruct (GetMatchConfig w2) as [[m e] w3] eqn:E3. simpl.
  by destruct m, e.
Qed.

(** C1. When the request-header phase resolves no configuration (the
    matcher answers with an error or with no match), the handler answers
    continue, the configuration stays absent, and no callback is invoked;
    every later request-body, response-headers, response-body and
    stream-done signal then leaves the exchange as it is (so the
    configuration stays absent and no callback is invoked) and every one
    of them that has an answer answers continue. *)
Theorem unmatched_exchange_passes_through (v : Vm) (lg : Log) n eos (s : State')
  (sigs : list Signal) :
  log v = Some lg ->
  config (ctx s) = None ->
  (match_answer s).2 <> None \/ (match_answer s).1 = None ->
  Forall (fun sig => is_request_headers sig = false) sigs ->
  exists s1,
    OnHttpRequestHeaders v n eos s = (Returned ActionContinue, s1) /\
    config (ctx s1) = None /\
    filter (fun e => is_invoke e = true) (events s1)
      = filter (fun e => is_invoke e = true) (events s) /\
    deliver_all v sigs s1 = (Returned (pass_through <$> sigs), s1).
Proof.
  intros Hlog Hcfg Hfail Hsigs. rewrite request_headers_unfold, Hlog.
  assert (Hinv : forall l : list (Event PluginConfig),
             Forall (fun e => is_invoke e = false) l ->
             filter (fun e => is_invoke e = true) (events s ++ l)
             = filter (fun e => is_invoke e = true) (events s)).
  { intros l Hl. rewrite filter_app.
    replace (filter (fun e => is_invoke e = true) l) with (@nil (Event PluginConfig)).
    - by rewrite app_nil_r.
    - symmetry. induction Hl as [|e l He _ IH]; [done|].
      rewrite filter_cons. destruct (decide (is_invoke e = true)); [congruence | done]. }
  destruct (match_answer s) as [m [e|]] eqn:Em; simpl in *.
  - eexists. split; [reflexivity|]. split; [exact Hcfg|]. split.
    + simpl. unfold before_match. simpl. rewrite <- !app_assoc. apply Hinv.
      by repeat constructor.
    + apply unmatched_deliver_all; [exact Hcfg | exact Hsigs].
  - destruct Hfail as [?|Hm]; [done|]. rewrite Hm.
    eexists. split; [reflexivity|]. split; [exact Hcfg|]. split.
    + simpl. unfold before_match. simpl. rewrite <- !app_assoc. apply Hinv.
      by repeat constructor.
    + apply unmatched_deliver_all; [exact Hcfg | exact Hsigs].
Qed.

(** ** Whole-body delivery *)

Lemma wrap_small bits z :
  0 < bits -> - 2 ^ (bits - 1) <= z < 2 ^ (bits - 1) -> wrap bits z = z.
Proof.
  intros Hb Hz. unfold wrap.
  assert (E : 2 ^ bits = 2 * 2 ^ (bits - 1)).
  { replace bits with (Z.succ (bits - 1)) at 1 by lia. apply Z.pow_succ_r. lia. }
  destruct (Z.lt_ge_cases z 0) as [Hneg|Hpos].
  - replace (z mod 2 ^ bits) with (z + 2 ^ bits).
    + destruct (Z.ltb_spec (z + 2 ^ bits) (2 ^ (bits - 1))); lia.
    + apply Z.mod_unique with (q := -1); lia.
  - rewrite Z.mod_small by lia.
    destruct (Z.ltb_spec z (2 ^ (bits - 1))); lia.
Qed.

Lemma int_add_small x y : in_int (x + y) -> int_add x y = x + y.
Proof. intros H. apply wrap_small; [done | exact H]. Qed.

Lemma request_body_buffered (v : Vm) lg f cfg n eos (s : State') :
  log v = Some lg ->
  config (ctx s) = Some cfg ->
  needRequestBody (ctx s) = true ->
  streamingRequestBody (ctx s) = false ->
  onHttpRequestBody v = Some f ->
  in_int (requestBodySize (ctx s) + n) ->
  let total := requestBodySize (ctx s) + n in
  let buffered := set_ctx (with_requestBodySize total (ctx s)) s in
  let fetch := GetHttpRequestBody 0 total (world s) in
  let fetched :=
    set_world fetch.2 (emit (EvHost (OpGetHttpRequestBody 0 total)) buffered) in
  OnHttpRequestBody v n eos s =
  if eos then
    match fetch.1.2 with
    | Some e =>
        (Returned ActionContinue,
         emit (EvLog LvlWarn ("get request body failed: " +:+ e)) fetched)
    | None =>
        run (Some lg) (f cfg fetch.1.1)
            (emit (EvInvoke (InvRequestBody cfg fetch.1.1)) fetched)
    end
  else (Returned ActionPause, buffered).
Proof.
  intros Hlog Hcfg Hneed Hstream Hcb Hrange. simpl.
  unfold OnHttpRequestBody.
  unfold mbind at 1, M_bind at 1, bind at 1, get_ctx at 1.
  rewrite Hcfg, Hneed, Hstream. simpl.
  replace (match onHttpStreamingRequestBody v with
           | Some _ | _ => buffer_request_body v cfg n eos
           end) with (buffer_request_body v cfg n eos)
    by (by destruct (onHttpStreamingRequestBody v)).
  unfold buffer_request_body. rewrite Hcb, Hlog.
  unfold mbind at 1, M_bind at 1, bind at 1, modify_ctx at 1. simpl.
  rewrite int_add_small by done.
  destruct eos; simpl; [|done].
  unfold mbind at 1, M_bind at 1, bind at 1, get_ctx at 1. simpl.
  unfold mbind at 1, M_bind at 1, bind at 1, call at 1. simpl.
  destruct (GetHttpRequestBody 0 (requestBodySize (ctx s) + n) (world s))
    as [[body [e|]] w1]; simpl.
  - done.
  - done.
Qed.

Lemma response_body_buffered (v : Vm) lg f cfg n eos (s : State') :
  log v = Some lg ->
  config (ctx s) = Some cfg ->
  needResponseBody (ctx s) = true ->
  streamingResponseBody (ctx s) = false ->
  onHttpResponseBody v = Some f ->
  in_int (responseBodySize (ctx s) + n) ->
  let total := responseBodySize (ctx s) + n in
  let buffered := set_ctx (with_responseBodySize total (ctx s)) s in
  let fetch := GetHttpResponseBody 0 total (world s) in
  let fetched :=
    set_world fetch.2 (emit (EvHost (OpGetHttpResponseBody 0 total)) buffered) in
  OnHttpResponseBody v n eos s =
  if eos then
    match fetch.1.2 with
    | Some e =>
        (Returned ActionContinue,
         emit (EvLog LvlWarn ("get response body failed: " +:+ e)) fetched)
    | None =>
        run (Some lg) (f cfg fetch.1.1)
            (emit (EvInvoke (InvResponseBody cfg fetch.1.1)) fetched)
    end
  else (Returned ActionPause, buffered).
Proof.
  intros Hlog Hcfg Hneed Hstream Hcb Hrange. simpl.
  unfold OnHttpResponseBody.
  unfold mbind at 1, M_bind at 1, bind at 1, get_ctx at 1.
  rewrite Hcfg, Hneed, Hstream. simpl.
  replace (match onHttpStreamingResponseBody v with
           | Some _ | _ => buffer_response_body v cfg n eos
           end) with (buffer_response_body v cfg n eos)
    by (by destruct (onHttpStreamingResponseBody v)).
  unfold buffer_response_body. rewrite Hcb, Hlog.
  unfold mbind at 1, M_bind at 1, bind at 1, modify_ctx at 1. simpl.
  rewrite int_add_small by done.
  destruct eos; simpl; [|done].
  unfold mbind at 1, M_bind at 1, bind at 1, get_ctx at 1. simpl.
  unfold mbind at 1, M_bind at 1, bind at 1, call at 1. simpl.
  destruct (GetHttpResponseBody 0 (responseBodySize (ctx s) + n) (world s))
    as [[body [e|]] w1]; simpl.
  - done.
  - done.
Qed.

Lemma request_body_accumulates (v : Vm) lg f cfg (ns : list Z) (s : State') :
  log v = Some lg ->
  config (ctx s) = Some cfg ->
  needRequestBody (ctx s) = true ->
  streamingRequestBody (ctx s) = false ->
  onHttpRequestBody v = Some f ->
  0 <= requestBodySize (ctx s) ->
  Forall (fun n => 0 <= n) ns ->
  requestBodySize (ctx s) + sum_sizes ns < 2 ^ 31 ->
  deliver_all v ((fun n => RequestBody n false) <$> ns) s =
  (Returned ((fun _ => Some ActionPause) <$> ns),
   set_ctx (with_requestBodySize (requestBodySize (ctx s) + sum_sizes ns) (ctx s)) s).
Proof.
  intros Hlog Hcfg Hneed Hstream Hcb Hsize Hns. revert s Hcfg Hneed Hstream Hsize.
  induction Hns as [|n ns Hn Hns IH]; intros s Hcfg Hneed Hstream Hsize Hsum; simpl in *.
  - rewrite Z.add_0_r. by destruct s as [[] ? ?].
  - assert (Hsum' : 0 <= sum_sizes ns).
    { clear -Hns. induction Hns; simpl; lia. }
    assert (Hr : in_int (requestBodySize (ctx s) + n)) by (unfold in_int; lia).
    pose proof (request_body_buffered v lg f cfg n false s Hlog Hcfg Hneed Hstream Hcb Hr) as E.
    simpl in E.
    rewrite (bind_returned _ _ _ _ _ (bind_returned _ _ _ _ _ E)).
    assert (E1 := IH (set_ctx (with_requestBodySize (requestBodySize (ctx s) + n) (ctx s)) s)
                     Hcfg Hneed Hstream).
    simpl in E1.
    assert (E2 := E1 ltac:(lia)). clear E1.
    assert (Hlt : requestBodySize (ctx s) + n + sum_sizes ns < 2 ^ 31) by lia.
    specialize (E2 Hlt). rename E2 into E1.
    rewrite (bind_returned _ _ _ _ _ E1).
    simpl. unfold mret, M_ret, ret.
    replace (requestBodySize (ctx s) + n + sum_sizes ns)
      with (requestBodySize (ctx s) + (n + sum_sizes ns)) by lia.
    reflexivity.
Qed.

Lemma response_body_accumulates (v : Vm) lg f cfg (ns : list Z) (s : State') :
  log v = Some lg ->
  config (ctx s) = Some cfg ->
  needResponseBody (ctx s) = true ->
  streamingResponseBody (ctx s) = false ->
  onHttpResponseBody v = Some f ->
  0 <= responseBodySize (ctx s) ->
  Forall (fun n => 0 <= n) ns ->
  responseBodySize (ctx s) + sum_sizes ns < 2 ^ 31 ->
  deliver_all v ((fun n => ResponseBody n false) <$> ns) s =
  (Returned ((fun _ => Some ActionPause) <$> ns),
   set_ctx (with_responseBodySize (responseBodySize (ctx s) + sum_sizes ns) (ctx s)) s).
Proof.
  intros Hlog Hcfg Hneed Hstream Hcb Hsize Hns. revert s Hcfg Hneed Hstream Hsize.
  induction Hns as [|n ns Hn Hns IH]; intros s Hcfg Hneed Hstream Hsize Hsum; simpl in *.
  - rewrite Z.add_0_r. by destruct s as [[] ? ?].
  - assert (Hsum' : 0 <= sum_sizes ns).
    { clear -Hns. induction Hns; simpl; lia. }
    assert (Hr : in_int (responseBodySize (ctx s) + n)) by (unfold in_int; lia).
    pose proof (response_body_buffered v lg f cfg n false s Hlog Hcfg Hneed Hstream Hcb Hr) as E.
    simpl in E.
    rewrite (bind_returned _ _ _ _ _ (bind_returned _ _ _ _ _ E)).
    assert (E1 := IH (set_ctx (with_responseBodySize (responseBodySize (ctx s) + n) (ctx s)) s)
                     Hcfg Hneed Hstream).
    simpl in E1.
    assert (E2 := E1 ltac:(lia)). clear E1.
    assert (Hlt : responseBodySize (ctx s) + n + sum_sizes ns < 2 ^ 31) by lia.
    specialize (E2 Hlt). rename E2 into E1.
    rewrite (bind_returned _ _ _ _ _ E1).
    simpl. unfold mret, M_ret, ret.
    replace (responseBodySize (ctx s) + n + sum_sizes ns)
      with (responseBodySize (ctx s) + (n + sum_sizes ns)) by lia.
    reflexivity.
Qed.

(** *** The two directions side by side *)

Lemma run_total lg {R} (p : Prog R) (s : State') :
  exists o s', run (Some lg) p s = (o, s') /\ benign o /\ interface_step s s'.
Proof.
  pose proof (settles_run lg p s) as Hb.
  pose proof (respects_run (Some lg) p s) as Hs.
  destruct (run (Some lg) p s) as [o s'] eqn:E. by exists o, s'.
Qed.

Lemma request_body_streamed (v : Vm) lg f cfg n eos (s : State') :
  log v = Some lg ->
  config (ctx s) = Some cfg ->
  needRequestBody (ctx s) = true ->
  streamingRequestBody (ctx s) = true ->
  onHttpStreamingRequestBody v = Some f ->
  let fetch := GetHttpRequestBody 0 n (world s) in
  let s1 := emit (EvInvoke (InvStreamingRequestBody cfg fetch.1.1 eos))
                 (set_world fetch.2 (emit (EvHost (OpGetHttpRequestBody 0 n)) s)) in
  exists o s2,
    run (Some lg) (f cfg fetch.1.1 eos) s1 = (o, s2) /\
    interface_step s1 s2 /\
    match o with
    | Returned modified =>
        let rep := ReplaceHttpRequestBody modified (world s2) in
        let s3 :=
          set_world rep.2 (emit (EvHost (OpReplaceHttpRequestBody modified)) s2) in
        OnHttpRequestBody v n eos s =
        (Returned ActionContinue,
         match rep.1 with
         | Some e =>
             emit (EvLog LvlWarn ("replace request body chunk failed: " +:+ e)) s3
         | None => s3
         end)
    | Panicked msg =>
        msg = nil_map_assignment /\
        OnHttpRequestBody v n eos s = (Panicked msg, s2)
    end.
Proof.
  intros Hlog Hcfg Hneed Hstream Hcb. simpl.
  destruct (run_total lg
              (f cfg (GetHttpRequestBody 0 n (world s)).1.1 eos)
              (emit (EvInvoke (InvStreamingRequestBody cfg
                                 (GetHttpRequestBody 0 n (world s)).1.1 eos))
                 (set_world (GetHttpRequestBody 0 n (world s)).2
                    (emit (EvHost (OpGetHttpRequestBody 0 n)) s))))
    as (o & s2 & Erun & Hb & Hstep).
  exists o, s2. split; [exact Erun|]. split; [exact Hstep|].
  destruct o as [modified|msg]; [|split; [exact Hb|]];
    unfold OnHttpRequestBody;
    unfold mbind at 1, M_bind at 1, bind at 1, get_ctx at 1;
    rewrite Hcfg, Hneed, Hstream, Hcb; simpl;
    unfold stream_request_body; rewrite Hlog;
    unfold mbind at 1, M_bind at 1, bind at 1, call at 1;
    destruct (GetHttpRequestBody 0 n (world s)) as [[chunk e0] w1]; simpl in *;
    unfold mbind at 1, M_bind at 1, bind at 1, invoked at 1; simpl.
  - rewrite (bind_returned _ _ _ _ _ Erun).
    unfold mbind at 1, M_bind at 1, bind at 1, call at 1.
    destruct (ReplaceHttpRequestBody modified (world s2)) as [[e|] w3]; simpl; done.
  - by rewrite (bind_panicked _ _ _ _ _ Erun).
Qed.
Lemma response_body_streamed (v : Vm) lg f cfg n eos (s : State') :
  log v = Some lg ->
  config (ctx s) = Some cfg ->
  needResponseBody (ctx s) = true ->
  streamingResponseBody (ctx s) = true ->
  onHttpStreamingResponseBody v = Some f ->
  let fetch := GetHttpResponseBody 0 n (world s) in
  let s1 := emit (EvInvoke (InvStreamingResponseBody cfg fetch.1.1 eos))
                 (set_world fetch.2 (emit (EvHost (OpGetHttpResponseBody 0 n)) s)) in
  exists o s2,
    run (Some lg) (f cfg fetch.1.1 eos) s1 = (o, s2) /\
    interface_step s1 s2 /\
    match o with
    | Returned modified =>
        let rep := ReplaceHttpResponseBody modified (world s2) in
        let s3 :=
          set_world rep.2 (emit (EvHost (OpReplaceHttpResponseBody modified)) s2) in
        OnHttpResponseBody v n eos s =
        (Returned ActionContinue,
         match rep.1 with
         | Some e =>
             emit (EvLog LvlWarn ("replace response body chunk failed: " +:+ e)) s3
         | None => s3
         end)
    | Panicked msg =>
        msg = nil_map_assignment /\
        OnHttpResponseBody v n eos s = (Panicked msg, s2)
    end.
Proof.
  intros Hlog Hcfg Hneed Hstream Hcb. simpl.
  destruct (run_total lg
              (f cfg (GetHttpResponseBody 0 n (world s)).1.1 eos)
              (emit (EvInvoke (InvStreamingResponseBody cfg
                                 (GetHttpResponseBody 0 n (world s)).1.1 eos))
                 (set_world (GetHttpResponseBody 0 n (world s)).2
                    (emit (EvHost (OpGetHttpResponseBody 0 n)) s))))
    as (o & s2 & Erun & Hb & Hstep).
  exists o, s2. split; [exact Erun|]. split; [exact Hstep|].
  destruct o as [modified|msg]; [|split; [exact Hb|]];
    unfold OnHttpResponseBody;
    unfold mbind at 1, M_bind at 1, bind at 1, get_ctx at 1;
    rewrite Hcfg, Hneed, Hstream, Hcb; simpl;
    unfold stream_response_body; rewrite Hlog;
    unfold mbind at 1, M_bind at 1, bind at 1, call at 1;
    destruct (GetHttpResponseBody 0 n (world s)) as [[chunk e0] w1]; simpl in *;
    unfold mbind at 1, M_bind at 1, bind at 1, invoked at 1; simpl.
  - rewrite (bind_returned _ _ _ _ _ Erun).
    unfold mbind at 1, M_bind at 1, bind at 1, call at 1.
    destruct (ReplaceHttpResponseBody modified (world s2)) as [[e|] w3]; simpl; done.
  - by rewrite (bind_panicked _ _ _ _ _ Erun).
Qed.

(** C2. In a matched exchange that needs the body of a direction, does not
    stream it and has a whole-body callback for it: a body signal that is
    not the last adds its size to the running counter and answers pause,
    without a host call or a callback, and so does any run of such
    signals; the last signal fetches the body from offset 0 up to the
    accumulated counter in one host call; when the fetch succeeds the
    callback is invoked once, with that body, and its action is the
    answer; when the fetch fails a warning is logged and the answer is
    continue, without a callback. The handler ends as the callback does:
    it returns the callback's action, unless the callback's own export to
    the log property has panicked on a nil map. *)
Theorem whole_body_delivery (d : Direction) (v : Vm) lg f cfg (s : State') :
  log v = Some lg ->
  config (ctx s) = Some cfg ->
  needBody d (ctx s) = true ->
  streamingBody d (ctx s) = false ->
  onHttpBody d v = Some f ->
  0 <= bodySizeOf d (ctx s) ->
  (forall n, 0 <= n -> bodySizeOf d (ctx s) + n < 2 ^ 31 ->
     OnHttpBody d v n false s =
     (Returned ActionPause,
      set_ctx (with_bodySize d (bodySizeOf d (ctx s) + n) (ctx s)) s)) /\
  (forall ns, Forall (fun n => 0 <= n) ns ->
     bodySizeOf d (ctx s) + sum_sizes ns < 2 ^ 31 ->
     deliver_all v ((fun n => BodySignal d n false) <$> ns) s =
     (Returned ((fun _ => Some ActionPause) <$> ns),
      set_ctx (with_bodySize d (bodySizeOf d (ctx s) + sum_sizes ns) (ctx s)) s)) /\
  (forall n, 0 <= n -> bodySizeOf d (ctx s) + n < 2 ^ 31 ->
     let total := bodySizeOf d (ctx s) + n in
     let fetch := GetHttpBody d 0 total (world s) in
     let fetched :=
       set_world fetch.2
         (emit (EvHost (OpGetHttpBody d 0 total))
               (set_ctx (with_bodySize d total (ctx s)) s)) in
     match fetch.1.2 with
     | Some e =>
         OnHttpBody d v n true s =
         (Returned ActionContinue,
          emit (EvLog LvlWarn
                  ("get " +:+ direction_name d +:+ " body failed: " +:+ e))
               fetched)
     | None =>
         OnHttpBody d v n true s =
         run (Some lg) (f cfg fetch.1.1)
             (emit (EvInvoke (InvBody d cfg fetch.1.1)) fetched) /\
         exists o s' l,
           OnHttpBody d v n true s = (o, s') /\
           benign o /\
           events s' = events s ++
                       EvHost (OpGetHttpBody d 0 total) ::
                       EvInvoke (InvBody d cfg fetch.1.1) :: l /\
           Forall (fun e => quiet e = true) l
     end).
Proof.
  intros Hlog Hcfg Hneed Hstream Hcb Hsize.
  split; [|split].
  - intros n Hn Hlt.
    assert (Hr : in_int (bodySizeOf d (ctx s) + n)) by (unfold in_int; lia).
    destruct d; simpl in *.
    + exact (request_body_buffered v lg f cfg n false s Hlog Hcfg Hneed Hstream Hcb Hr).
    + exact (response_body_buffered v lg f cfg n false s Hlog Hcfg Hneed Hstream Hcb Hr).
  - intros ns Hns Hlt. destruct d; simpl in *.
    + by apply (request_body_accumulates v lg f cfg).
    + by apply (response_body_accumulates v lg f cfg).
  - intros n Hn Hlt.
    assert (Hr : in_int (bodySizeOf d (ctx s) + n)) by (unfold in_int; lia).
    assert (E : OnHttpBody d v n true s =
      match (GetHttpBody d 0 (bodySizeOf d (ctx s) + n) (world s)).1.2 with
      | Some e =>
          (Returned ActionContinue,
           emit (EvLog LvlWarn ("get " +:+ direction_name d +:+ " body failed: " +:+ e))
             (set_world (GetHttpBody d 0 (bodySizeOf d (ctx s) + n) (world s)).2
                (emit (EvHost (OpGetHttpBody d 0 (bodySizeOf d (ctx s) + n)))
                   (set_ctx (with_bodySize d (bodySizeOf d (ctx s) + n) (ctx s)) s))))
      | None =>
          run (Some lg)
            (f cfg (GetHttpBody d 0 (bodySizeOf d (ctx s) + n) (world s)).1.1)
            (emit (EvInvoke (InvBody d cfg
                     (GetHttpBody d 0 (bodySizeOf d (ctx s) + n) (world s)).1.1))
               (set_world (GetHttpBody d 0 (bodySizeOf d (ctx s) + n) (world s)).2
                  (emit (EvHost (OpGetHttpBody d 0 (bodySizeOf d (ctx s) + n)))
                     (set_ctx (with_bodySize d (bodySizeOf d (ctx s) + n) (ctx s)) s))))
      end).
    { destruct d; simpl in *.
      - exact (request_body_buffered v lg f cfg n true s Hlog Hcfg Hneed Hstream Hcb Hr).
      - exact (response_body_buffered v lg f cfg n true s Hlog Hcfg Hneed Hstream Hcb Hr). }
    simpl.
    destruct ((GetHttpBody d 0 (bodySizeOf d (ctx s) + n) (world s)).1.2) as [e|];
      [exact E|].
    split; [exact E|]. rewrite E.
    match goal with |- context [run (Some lg) ?p ?s1] =>
      destruct (run_total lg p s1) as (o & s' & Erun & Hb & Hstep) end.
    destruct Hstep as (_ & _ & _ & _ & _ & l & El & Hl).
    exists o, s', l. split; [exact Erun|]. split; [exact Hb|]. split; [|exact Hl].
    rewrite El. simpl. by rewrite <- !app_assoc.
Qed.

(** C3. In a matched exchange that needs the body of a direction, streams
    it and has a streaming callback for it, every body signal fetches the
    bytes of that signal (offset 0, the size of the signal), invokes the
    streaming callback once with that chunk and the end-of-stream flag,
    replaces the outbound body by the bytes the callback returns and
    answers continue, whether the replacement succeeds or fails; a
    failure is logged as a warning and nothing more. A callback whose own
    export to the log property panics on a nil map returns no bytes: the
    handler then ends with that panic, after the fetch and the
    invocation and without a replacement. *)
Theorem streaming_body_delivery (d : Direction) (v : Vm) lg f cfg n eos (s : State') :
  log v = Some lg ->
  config (ctx s) = Some cfg ->
  needBody d (ctx s) = true ->
  streamingBody d (ctx s) = true ->
  onHttpStreamingBody d v = Some f ->
  let fetch := GetHttpBody d 0 n (world s) in
  let s1 := emit (EvInvoke (InvStreamingBody d cfg fetch.1.1 eos))
                 (set_world fetch.2 (emit (EvHost (OpGetHttpBody d 0 n)) s)) in
  exists o s2 l,
    run (Some lg) (f cfg fetch.1.1 eos) s1 = (o, s2) /\
    events s2 = events s ++
                EvHost (OpGetHttpBody d 0 n) ::
                EvInvoke (InvStreamingBody d cfg fetch.1.1 eos) :: l /\
    Forall (fun e => quiet e = true) l /\
    match o with
    | Returned modified =>
        let rep := ReplaceHttpBody d modified (world s2) in
        let s3 :=
          set_world rep.2 (emit (EvHost (OpReplaceHttpBody d modified)) s2) in
        OnHttpBody d v n eos s =
        (Returned ActionContinue,
         match rep.1 with
         | Some e =>
             emit (EvLog LvlWarn
                     ("replace " +:+ direction_name d +:+
                      " body chunk failed: " +:+ e)) s3
         | None => s3
         end)
    | Panicked msg =>
        msg = nil_map_assignment /\ OnHttpBody d v n eos s = (Panicked msg, s2)
    end.
Proof.
  intros Hlog Hcfg Hneed Hstream Hcb. simpl.
  destruct d; simpl in *.
  - destruct (request_body_streamed v lg f cfg n eos s Hlog Hcfg Hneed Hstream Hcb)
      as (o & s2 & Erun & Hstep & E).
    destruct Hstep as (_ & _ & _ & _ & _ & l & El & Hl).
    exists o, s2, l. split; [exact Erun|]. split; [|split; [exact Hl|]].
    + rewrite El. simpl. by rewrite <- !app_assoc.
    + by destruct o.
  - destruct (response_body_streamed v lg f cfg n eos s Hlog Hcfg Hneed Hstream Hcb)
      as (o & s2 & Erun & Hstep & E).
    destruct Hstep as (_ & _ & _ & _ & _ & l & El & Hl).
    exists o, s2, l. split; [exact Erun|]. split; [|split; [exact Hl|]].
    + rewrite El. simpl. by rewrite <- !app_assoc.
    + by destruct o.
Qed.

(** ** The binary guard *)

Lemma stays_off_refl d s : stays_off d s s.
Proof. intros H. split; [done|]. exists []. by rewrite app_nil_r. Qed.

Lemma stays_off_trans d s1 s2 s3 :
  stays_off d s1 s2 -> stays_off d s2 s3 -> stays_off d s1 s3.
Proof.
  intros H1 H2 H. destruct (H1 H) as (N1 & l1 & E1 & F1).
  destruct (H2 N1) as (N2 & l2 & E2 & F2). split; [done|].
  exists (l1 ++ l2). split; [by rewrite E2, E1, app_assoc | by apply Forall_app].
Qed.

Lemma quiet_off_body d e : quiet e = true -> off_body d e = true.
Proof.
  unfold quiet. destruct d, e as [| |[]]; simpl; try done; by destruct op.
Qed.

Lemma stays_off_interface d s s' : interface_step s s' -> stays_off d s s'.
Proof.
  intros (_ & _ & _ & R & S & l & E & F) H. split.
  - destruct d; simpl in *; auto.
  - exists l. split; [done|]. eapply Forall_impl; [exact F|]. apply quiet_off_body.
Qed.

Lemma stays_off_emit d e s : off_body d e = true -> stays_off d s (emit e s).
Proof. intros Q H. split; [done|]. exists [e]. split; [done | by constructor]. Qed.

Lemma off_call d {X} op (f : World -> X * World) :
  off_body d (EvHost op) = true -> respects (stays_off d) (call op f).
Proof.
  intros Q s H. unfold call. destruct (f (world s)) as [x w]. simpl.
  split; [done|]. exists [EvHost op]. split; [done | by constructor].
Qed.

Lemma off_invoked d inv :
  off_body d (EvInvoke inv) = true ->
  respects (stays_off d) (@invoked PluginConfig Value World inv).
Proof. intros Q s. by apply stays_off_emit. Qed.

Lemma returns_invoked inv : returns (@invoked PluginConfig Value World inv).
Proof. intros s. by exists tt. Qed.

Lemma off_logf d lg lvl msg : respects (stays_off d) (logf lg lvl msg).
Proof. intros s. apply stays_off_interface, respects_logf. Qed.

Lemma off_get_ctx d : respects (stays_off d) get_ctx.
Proof. intros s. apply stays_off_refl. Qed.

Lemma off_modify_ctx d f :
  (forall c, needBody d c = false -> needBody d (f c) = false) ->
  respects (stays_off d) (modify_ctx f).
Proof.
  intros Hf s H. simpl. split; [by apply Hf|]. exists []. by rewrite app_nil_r.
Qed.

Lemma off_run d lg {R} (p : Prog R) : respects (stays_off d) (run lg p).
Proof. intros s. apply stays_off_interface, respects_run. Qed.

Ltac off_step d :=
  first
    [ progress intros
    | apply respects_ret; apply stays_off_refl
    | apply settles_ret
    | apply respects_bind; [exact (stays_off_trans d) | | ]
    | apply settles_bind
    | apply off_call; first [reflexivity | by destruct d]
    | apply returns_settles, returns_call
    | apply off_invoked; first [reflexivity | by destruct d]
    | apply returns_settles, returns_invoked
    | apply off_logf
    | apply returns_settles, returns_logf
    | apply off_get_ctx
    | apply returns_settles, returns_get_ctx
    | apply returns_settles, returns_modify_ctx
    | apply off_modify_ctx; intros [] ?; first [by simpl in * | by destruct d]
    | apply off_run
    | apply settles_run
    | match goal with
      | |- respects _ (match ?x with _ => _ end) => destruct x
      | |- settles (match ?x with _ => _ end) => destruct x
      end ].

Lemma off_request_headers d (v : Vm) n eos :
  respects (stays_off d) (OnHttpRequestHeaders v n eos).
Proof. unfold OnHttpRequestHeaders. repeat off_step d. Qed.

Lemma off_response_headers d (v : Vm) n eos :
  respects (stays_off d) (OnHttpResponseHeaders v n eos).
Proof. unfold OnHttpResponseHeaders. repeat off_step d. Qed.

Lemma off_stream_done d (v : Vm) : respects (stays_off d) (OnHttpStreamDone v).
Proof. unfold OnHttpStreamDone. repeat off_step d. Qed.

Lemma off_other_request_body (v : Vm) n eos :
  respects (stays_off Response) (OnHttpRequestBody v n eos).
Proof.
  unfold OnHttpRequestBody, stream_request_body, buffer_request_body.
  repeat off_step Response.
Qed.

Lemma off_other_response_body (v : Vm) n eos :
  respects (stays_off Request) (OnHttpResponseBody v n eos).
Proof.
  unfold OnHttpResponseBody, stream_response_body, buffer_response_body.
  repeat off_step Request.
Qed.

Lemma handlers_settle (v : Vm) lg :
  log v = Some lg ->
  (forall n eos, settles (OnHttpRequestHeaders v n eos)) /\
  (forall n eos, settles (OnHttpRequestBody v n eos)) /\
  (forall n eos, settles (OnHttpResponseHeaders v n eos)) /\
  (forall n eos, settles (OnHttpResponseBody v n eos)) /\
  settles (OnHttpStreamDone v).
Proof.
  intros Hlog.
  unfold OnHttpRequestHeaders, OnHttpRequestBody, OnHttpResponseHeaders,
    OnHttpResponseBody, OnHttpStreamDone, stream_request_body,
    buffer_request_body, stream_response_body, buffer_response_body.
  rewrite Hlog. repeat split; repeat off_step Request.
Qed.

Lemma body_skipped_request (v : Vm) n eos (s : State') :
  needRequestBody (ctx s) = false ->
  OnHttpRequestBody v n eos s = (Returned ActionContinue, s).
Proof.
  intros E. unfold OnHttpRequestBody, mbind, M_bind, bind, get_ctx.
  rewrite E. by destruct (config (ctx s)).
Qed.

Lemma body_skipped_response (v : Vm) n eos (s : State') :
  needResponseBody (ctx s) = false ->
  OnHttpResponseBody v n eos s = (Returned ActionContinue, s).
Proof.
  intros E. unfold OnHttpResponseBody, mbind, M_bind, bind, get_ctx.
  rewrite E. by destruct (config (ctx s)).
Qed.

Lemma run_off d {A} (m : Comp A) (s : State') :
  settles m -> respects (stays_off d) m -> needBody d (ctx s) = false ->
  exists o s' l,
    m s = (o, s') /\ benign o /\ needBody d (ctx s') = false /\
    events s' = events s ++ l /\ Forall (fun e => off_body d e = true) l.
Proof.
  intros Hr Hs Hn. specialize (Hr s). specialize (Hs s Hn).
  destruct (m s) as [o s'] eqn:E. simpl in *.
  destruct Hs as (N & l & El & Fl). by exists o, s', l.
Qed.

Lemma deliver_off d (v : Vm) lg sig (s : State') :
  log v = Some lg -> needBody d (ctx s) = false ->
  exists o s' l,
    deliver v sig s = (o, s') /\ benign o /\ needBody d (ctx s') = false /\
    events s' = events s ++ l /\ Forall (fun e => off_body d e = true) l /\
    (is_body_signal d sig = true -> o = Returned (Some ActionContinue)).
Proof.
  intros Hlog Hn.
  destruct (handlers_settle v lg Hlog) as (R1 & R2 & R3 & R4 & R5).
  assert (Hskip : is_body_signal d sig = true ->
            deliver v sig s = (Returned (Some ActionContinue), s)).
  { destruct d, sig; try discriminate; intros _; simpl in *.
    - by rewrite (bind_returned _ _ _ _ _ (body_skipped_request v _ _ s Hn)).
    - by rewrite (bind_returned _ _ _ _ _ (body_skipped_response v _ _ s Hn)). }
  destruct (is_body_signal d sig) eqn:Hb.
  - exists (Returned (Some ActionContinue)), s, []. rewrite Hskip by done.
    rewrite app_nil_r. by repeat split.
  - assert (Hgen : forall (B : Type) (m : Comp B) (k : B -> option Action),
              settles m -> respects (stays_off d) m ->
              exists o s' l,
                (a0 ← m; mret (k a0)) s = (o, s') /\ benign o /\
                needBody d (ctx s') = false /\
                events s' = events s ++ l /\
                Forall (fun e => off_body d e = true) l /\
                (false = true -> o = Returned (Some ActionContinue))).
    { intros B m k Hr Hs.
      destruct (run_off d m s Hr Hs Hn) as ([a|msg] & s' & l & E & Ho & N & El & Fl).
      - exists (Returned (k a)), s', l. rewrite (bind_returned _ _ _ _ _ E).
        by repeat split.
      - exists (Panicked msg), s', l. rewrite (bind_panicked _ _ _ _ _ E).
        by repeat split. }
    destruct sig; simpl.
    + apply (Hgen _ _ Some); [apply R1 | apply off_request_headers].
    + apply (Hgen _ _ Some); [apply R2|]. destruct d; [discriminate|].
      apply off_other_request_body.
    + apply (Hgen _ _ Some); [apply R3 | apply off_response_headers].
    + apply (Hgen _ _ Some); [apply R4|]. destruct d; [|discriminate].
      apply off_other_response_body.
    + apply (Hgen _ _ (fun _ => None)); [apply R5 | apply off_stream_done].
Qed.

Lemma deliver_all_off d (v : Vm) lg sigs (s : State') :
  log v = Some lg -> needBody d (ctx s) = false ->
  exists o s' l,
    deliver_all v sigs s = (o, s') /\ benign o /\
    needBody d (ctx s') = false /\
    events s' = events s ++ l /\ Forall (fun e => off_body d e = true) l /\
    forall answers, o = Returned answers ->
      Forall2 (fun sig a => is_body_signal d sig = true -> a = Some ActionContinue)
              sigs answers.
Proof.
  intros Hlog. revert s. induction sigs as [|sig sigs IH]; intros s Hn; simpl.
  - exists (Returned []), s, []. rewrite app_nil_r.
    repeat split; try done. intros answers [= <-]. constructor.
  - destruct (deliver_off d v lg sig s Hlog Hn)
      as ([a|msg] & s1 & l1 & E1 & B1 & N1 & El1 & F1 & A1).
    + destruct (IH s1 N1) as ([answers|msg] & s2 & l2 & E2 & B2 & N2 & El2 & F2 & A2).
      * exists (Returned (a :: answers)), s2, (l1 ++ l2).
        rewrite (bind_returned _ _ _ _ _ E1), (bind_returned _ _ _ _ _ E2).
        split; [done|]. split; [done|]. split; [done|].
        split; [by rewrite El2, El1, app_assoc|].
        split; [by apply Forall_app|]. intros ? [= <-]. constructor.
        -- intros Hb. specialize (A1 Hb). by inversion A1.
        -- by apply A2.
      * exists (Panicked msg), s2, (l1 ++ l2).
        rewrite (bind_returned _ _ _ _ _ E1), (bind_panicked _ _ _ _ _ E2).
        split; [done|]. split; [done|]. split; [done|].
        split; [by rewrite El2, El1, app_assoc|].
        split; [by apply Forall_app | done].
    + exists (Panicked msg), s1, l1. rewrite (bind_panicked _ _ _ _ _ E1).
      by repeat split.
Qed.

Lemma binary_headers_guard d (v : Vm) lg n eos (s : State') :
  log v = Some lg -> binary_headers d s ->
  exists o s1 l,
    OnHttpHeaders d v n eos s = (o, s1) /\ benign o /\
    needBody d (ctx s1) = false /\
    events s1 = events s ++ l /\ Forall (fun e => off_body d e = true) l.
Proof.
  intros Hlog Hbin. destruct d; simpl in *.
  - destruct Hbin as (He & Hm & Hb). rewrite request_headers_unfold, He.
    destruct ((match_answer s).1) as [cfg|] eqn:Em; [|done].
    unfold mbind at 1, M_bind at 1, bind at 1, modify_ctx at 1. simpl.
    unfold mbind at 1, M_bind at 1, bind at 1, call at 1. simpl.
    match goal with |- context [IsBinaryRequestBody ?w] =>
      destruct (IsBinaryRequestBody w) as [b w1] eqn:Eb end.
    simpl in Hb. subst b. simpl.
    unfold mbind at 1, M_bind at 1, bind at 1, modify_ctx at 1. simpl.
    match goal with |- context [?m ?s0 = _] =>
      match type of s0 with St _ _ _ =>
        destruct (run_off Request m s0) as (o & s1 & l & E & Ho & N & El & Fl)
      end end.
    + rewrite Hlog. repeat off_step Request.
    + repeat off_step Request.
    + done.
    + exists o, s1, (EvHost (OpGetHttpRequestHeader "x-request-id")
                       :: EvHost (OpSetProperty ["x_request_id"]
                            (GetHttpRequestHeader "x-request-id" (world s)).1.1)
                       :: EvHost OpGetMatchConfig
                       :: EvHost OpIsBinaryRequestBody :: l).
      split; [exact E|]. split; [exact Ho|]. split; [exact N|]. split.
      * rewrite El. simpl. unfold before_match. simpl. by rewrite <- !app_assoc.
      * by repeat constructor.
  - destruct Hbin as (Hc & Hb).
    destruct (config (ctx s)) as [cfg|] eqn:Ec; [|done].
    unfold OnHttpResponseHeaders.
    unfold mbind at 1, M_bind at 1, bind at 1, get_ctx at 1. rewrite Ec.
    unfold mbind at 1, M_bind at 1, bind at 1, call at 1. simpl.
    destruct (IsBinaryResponseBody (world s)) as [b w1] eqn:Eb.
    simpl in Hb. subst b. simpl.
    unfold mbind at 1, M_bind at 1, bind at 1, modify_ctx at 1. simpl.
    match goal with |- context [?m ?s0 = _] =>
      match type of s0 with St _ _ _ =>
        destruct (run_off Response m s0) as (o & s1 & l & E & Ho & N & El & Fl)
      end end.
    + rewrite Hlog. repeat off_step Response.
    + repeat off_step Response.
    + done.
    + exists o, s1, (EvHost OpIsBinaryResponseBody :: l).
      split; [exact E|]. split; [exact Ho|]. split; [exact N|]. split.
      * rewrite El. simpl. by rewrite <- !app_assoc.
      * by repeat constructor.
Qed.

(** C7. When the header phase of a direction classifies the body binary
    in a matched exchange (for the request direction: right after the
    match), the need-body flag of that direction is false when the
    handler ends, and through every later signal of the exchange it
    stays false, every body signal of that direction answers continue,
    and the trace gains neither a fetch of that body nor a call of its
    whole-body or streaming callback, whatever is registered. A handler
    ends by returning, unless a callback's own export to the log property
    has panicked on a nil map; the answers are those of an exchange whose
    signals all return. *)
Theorem binary_guard (d : Direction) (v : Vm) lg n eos (s : State')
  (sigs : list Signal) :
  log v = Some lg ->
  binary_headers d s ->
  exists o s1 l1,
    OnHttpHeaders d v n eos s = (o, s1) /\
    benign o /\
    needBody d (ctx s1) = false /\
    events s1 = events s ++ l1 /\
    Forall (fun e => off_body d e = true) l1 /\
    exists o2 s2 l2,
      deliver_all v sigs s1 = (o2, s2) /\
      benign o2 /\
      needBody d (ctx s2) = false /\
      events s2 = events s1 ++ l2 /\
      Forall (fun e => off_body d e = true) l2 /\
      (forall answers, o2 = Returned answers ->
         Forall2 (fun sig a => is_body_signal d sig = true ->
                               a = Some ActionContinue)
                 sigs answers) /\
      (forall n' eos', OnHttpBody d v n' eos' s2 = (Returned ActionContinue, s2)).
Proof.
  intros Hlog Hbin.
  destruct (binary_headers_guard d v lg n eos s Hlog Hbin)
    as (o & s1 & l1 & E1 & B1 & N1 & El1 & F1).
  exists o, s1, l1. repeat (split; [done|]).
  destruct (deliver_all_off d v lg sigs s1 Hlog N1)
    as (o2 & s2 & l2 & E2 & B2 & N2 & El2 & F2 & A2).
  exists o2, s2, l2. repeat (split; [done|]).
  intros n' eos'. destruct d; simpl in *.
  - by apply body_skipped_request.
  - by apply body_skipped_response.
Qed.

(** ** Export of the user attributes *)

Lemma foldl_insert_union (l : list (string * Value)) (m : gmap string Value) :
  NoDup l.*1 ->
  foldl (fun acc kv => <[kv.1 := kv.2]> acc) m l = list_to_map l ∪ m.
Proof.
  revert m. induction l as [|[k x] l IH]; intros m Hnd; simpl.
  - by rewrite (left_id_L ∅ (∪)).
  - inversion Hnd as [|? ? Hk Hnd']; subst. rewrite IH by done.
    rewrite <- insert_union_l. rewrite insert_union_r; [done|].
    by apply not_elem_of_list_to_map_1.
Qed.

Lemma overlay_entries_object (l : list (string * Value))
  (m : gmap string Value) :
  overlay_entries l (Some m) =
  Returned (Some (foldl (fun acc kv => <[kv.1 := kv.2]> acc) m l)).
Proof. revert m. induction l as [|kv l IH]; intros m; simpl; [done | apply IH]. Qed.

Lemma overlay_laid_over (acc : gmap string Value)
  (prior : option (gmap string Value)) :
  range_enumerates -> overlay acc prior = laid_over acc prior.
Proof.
  intros Hr. unfold overlay, laid_over. destruct prior as [m|].
  - rewrite overlay_entries_object.
    assert (Hnd : NoDup (map_range acc).*1).
    { rewrite (Hr acc). apply NoDup_fst_map_to_list. }
    rewrite foldl_insert_union by done. do 3 f_equal.
    rewrite (list_to_map_proper _ _ Hnd (Hr acc)). apply list_to_map_to_list.
  - pose proof (Hr acc) as Hp. destruct (decide (acc = ∅)) as [->|Hne].
    + rewrite map_to_list_empty in Hp. apply Permutation_nil_r in Hp.
      by rewrite Hp.
    + destruct (map_range acc) as [|kv l]; [|done].
      exfalso. apply Hne, map_to_list_empty_iff. by apply Permutation_nil_l in Hp.
Qed.

Lemma for_range_exported lg entries (s : State') :
  exists l w',
    exported entries (world s) l w' /\
    for_range (trace_one (Some lg)) entries s =
    (Returned tt, {| ctx := ctx s; world := w'; events := events s ++ l |}).
Proof.
  revert s. induction entries as [|[k x] rest IH]; intros s.
  - exists [], (world s). split; [constructor|].
    rewrite app_nil_r. by destruct s.
  - cbn [for_range].
    destruct (decide (fmt_Sprint x = "")) as [Hx|Hx].
    + assert (E1 : trace_one (Some lg) (k, x) s =
        (Returned tt,
         emit (EvLog LvlWarn
           ("Failed to set trace attribute - " +:+ (TraceSpanTagPrefix +:+ k) +:+
            ": " +:+ fmt_Sprint x +:+ ", error message: " +:+
            ("value of " +:+ (TraceSpanTagPrefix +:+ k) +:+ " is empty"))) s)).
      { unfold trace_one. cbn [fst snd].
        destruct (decide (fmt_Sprint x = "")); [reflexivity | done]. }
      rewrite (bind_returned _ _ _ _ _ E1).
      destruct (IH (emit (EvLog LvlWarn
           ("Failed to set trace attribute - " +:+ (TraceSpanTagPrefix +:+ k) +:+
            ": " +:+ fmt_Sprint x +:+ ", error message: " +:+
            ("value of " +:+ (TraceSpanTagPrefix +:+ k) +:+ " is empty"))) s))
        as (l & w' & Hex & E).
      eexists _, w'. split; [by apply exported_empty|].
      rewrite E. cbn [ctx events emit]. by rewrite <- app_assoc.
    + destruct (SetProperty [TraceSpanTagPrefix +:+ k] (fmt_Sprint x) (world s))
        as [[e|] w1] eqn:Es.
      * assert (E1 : trace_one (Some lg) (k, x) s =
          (Returned tt,
           emit (EvLog LvlWarn
             ("Failed to set trace attribute - " +:+ (TraceSpanTagPrefix +:+ k) +:+
              ": " +:+ fmt_Sprint x +:+ ", error message: " +:+ e))
             (set_world w1 (emit (EvHost (OpSetProperty [TraceSpanTagPrefix +:+ k]
                                            (fmt_Sprint x))) s)))).
        { unfold trace_one. cbn [fst snd].
          destruct (decide (fmt_Sprint x = "")); [done|].
          unfold mbind, M_bind, bind, call. by rewrite Es. }
        rewrite (bind_returned _ _ _ _ _ E1).
        destruct (IH (emit (EvLog LvlWarn
             ("Failed to set trace attribute - " +:+ (TraceSpanTagPrefix +:+ k) +:+
              ": " +:+ fmt_Sprint x +:+ ", error message: " +:+ e))
             (set_world w1 (emit (EvHost (OpSetProperty [TraceSpanTagPrefix +:+ k]
                                            (fmt_Sprint x))) s))))
          as (l & w' & Hex & E).
        eexists _, w'. split; [by eapply exported_failed|].
        rewrite E. cbn [ctx events emit set_world]. by rewrite <- !app_assoc.
      * assert (E1 : trace_one (Some lg) (k, x) s =
          (Returned tt,
           set_world w1 (emit (EvHost (OpSetProperty [TraceSpanTagPrefix +:+ k]
                                          (fmt_Sprint x))) s))).
        { unfold trace_one. cbn [fst snd].
          destruct (decide (fmt_Sprint x = "")); [done|].
          unfold mbind, M_bind, bind, call. by rewrite Es. }
        rewrite (bind_returned _ _ _ _ _ E1).
        destruct (IH (set_world w1 (emit (EvHost (OpSetProperty
                         [TraceSpanTagPrefix +:+ k] (fmt_Sprint x))) s)))
          as (l & w' & Hex & E).
        eexists _, w'. split; [by eapply exported_written|].
        rewrite E. cbn [ctx events emit set_world]. by rewrite <- !app_assoc.
Qed.

(** C10. With a logger installed, the export to the trace properties
    returns a nil error whatever the accumulator holds: every entry that
    [range] visits is handled in turn, an empty value or a failed write
    only adds a warning to the log, and the exchange context is left as it
    was. *)
Theorem trace_export_never_fails (lg : Log) (s : State') :
  exists l w',
    exported (map_range (userAttribute (ctx s))) (world s) l w' /\
    WriteUserAttributeToTrace (Some lg) s =
    (Returned None, {| ctx := ctx s; world := w'; events := events s ++ l |}).
Proof.
  destruct (for_range_exported lg (map_range (userAttribute (ctx s))) s)
    as (l & w' & Hex & E).
  exists l, w'. split; [exact Hex|].
  unfold WriteUserAttributeToTrace, mbind, M_bind, bind, get_ctx in *.
  by rewrite E.
Qed.

(** *** Export to the log property *)

Lemma log_export_unfold lg key (s : State') :
  WriteUserAttributeToLogWithKey (Some lg) key s =
  if decide (prior_value key s = "") then
    store_laid key (overlay (userAttribute (ctx s)) (Some ∅)) (after_get key s)
  else
    match (parse_prior (prior_value key s)).2 with
    | Some e =>
        (Returned (Some e),
         emit (EvLog LvlWarn
                 ("Unmarshal failed, will overwrite " +:+ key +:+
                  ", pre value is: " +:+ prior_value key s))
              (after_get key s))
    | None =>
        store_laid key
          (overlay (userAttribute (ctx s)) (parse_prior (prior_value key s)).1)
          (after_get key s)
    end.
Proof.
  unfold WriteUserAttributeToLogWithKey, prior_value, after_get, parse_prior,
    store_laid, store_merged, encoded.
  unfold mbind at 1, M_bind at 1, bind at 1, call at 1.
  destruct (GetProperty [key] (world s)) as [[pre e0] w1]. cbn [fst snd].
  destruct (decide (pre = "")) as [Hp|Hp].
  - unfold mbind, M_bind, bind, mret, M_ret, ret, get_ctx, call, panic.
    cbn [fst snd ctx set_world emit world].
    destruct (overlay (userAttribute (ctx s)) (Some ∅)) as [m|msg]; [|done].
    destruct (json_Marshal m) as [js ?].
    cbn [fst snd ctx set_world emit world].
    by destruct (SetProperty [key] (marshalStr js) w1) as [[e|] w2].
  - destruct (json_Unmarshal (unmarshalStr (dquote +:+ pre +:+ dquote)))
      as [m [e|]]; cbn [fst snd].
    + reflexivity.
    + unfold mbind, M_bind, bind, mret, M_ret, ret, get_ctx, call, panic.
      cbn [fst snd ctx set_world emit world].
      destruct (overlay (userAttribute (ctx s)) m) as [m'|msg]; [|done].
      destruct (json_Marshal m') as [js ?].
      cbn [fst snd ctx set_world emit world].
      by destruct (SetProperty [key] (marshalStr js) w1) as [[e|] w2].
Qed.

Lemma log_export_laid lg key (s : State') :
  range_enumerates ->
  WriteUserAttributeToLogWithKey (Some lg) key s =
  if decide (prior_value key s = "") then
    store_merged key (Some (userAttribute (ctx s) ∪ ∅)) (after_get key s)
  else
    match (parse_prior (prior_value key s)).2 with
    | Some e =>
        (Returned (Some e),
         emit (EvLog LvlWarn
                 ("Unmarshal failed, will overwrite " +:+ key +:+
                  ", pre value is: " +:+ prior_value key s))
              (after_get key s))
    | None =>
        store_laid key
          (laid_over (userAttribute (ctx s)) (parse_prior (prior_value key s)).1)
          (after_get key s)
    end.
Proof.
  intros Hr. rewrite log_export_unfold.
  destruct (decide (prior_value key s = "")); by rewrite overlay_laid_over.
Qed.

Lemma first_export_stored lg key (s s1 : State') :
  range_enumerates ->
  WriteUserAttributeToLogWithKey (Some lg) key s = (Returned None, s1) ->
  SetProperty [key] (encoded (merged_object key s)) (world (after_get key s))
  = (None, world s1).
Proof.
  intros Hr E. rewrite log_export_laid in E by done. unfold merged_object.
  assert (Hst : forall m,
            store_merged key m (after_get key s) = (Returned None, s1) ->
            SetProperty [key] (encoded m) (world (after_get key s))
            = (None, world s1)).
  { intros m Em. unfold store_merged in Em.
    destruct (SetProperty [key] (encoded m) (world (after_get key s)))
      as [[err|] w']; cbn [fst snd] in Em; [discriminate|]. by inversion Em. }
  destruct (decide (prior_value key s = "")); [by apply Hst|].
  destruct ((parse_prior (prior_value key s)).2); [discriminate|].
  destruct ((parse_prior (prior_value key s)).1) as [m|]; simpl in *;
    [by apply Hst|].
  destruct (decide (userAttribute (ctx s) = ∅)); [by apply Hst | discriminate].
Qed.

(** C4. A prior value of the log property that is a JSON null parses
    without an error and leaves the map nil. With an accumulator that
    holds an entry the export then panics on the first assignment of the
    overlay: the read is the only host call it has made, nothing is
    written, and no error is returned. *)
Theorem log_export_null_prior (lg : Log) (key : string) (s : State') :
  range_enumerates ->
  prior_value key s <> "" ->
  parse_prior (prior_value key s) = (None, None) ->
  userAttribute (ctx s) <> ∅ ->
  WriteUserAttributeToLogWithKey (Some lg) key s =
  (Panicked nil_map_assignment, after_get key s).
Proof.
  intros Hr Hp Hnull Hacc. rewrite log_export_laid by done.
  destruct (decide (prior_value key s = "")); [done|].
  rewrite Hnull. simpl. by destruct (decide (userAttribute (ctx s) = ∅)).
Qed.

(** X19. The export to the log property reads the prior value of the
    property. An absent or empty prior value counts as the empty object.
    Any other prior value is unescaped once and parsed; when parsing
    fails the export logs a warning and returns the error, and the read
    is the only host call it has made, so the property keeps its value.
    When the prior value parses to an object the accumulator is laid over
    it, its entries winning on equal keys, and the merged object is
    serialized, escaped and written to the same property. When it parses
    to nil, as a JSON null does, an empty accumulator has nil serialized
    and written, and any other accumulator makes the export panic after
    the read. On a host that keeps properties and with a codec that reads
    the stored form back, an export that follows a successful one stores
    the later accumulator laid over the object stored before; with the
    same accumulator that is the same object again. *)
Theorem log_export_merges (lg : Log) (key : string) (s : State') :
  range_enumerates ->
  let acc := userAttribute (ctx s) in
  let pre := prior_value key s in
  (pre = "" ->
     WriteUserAttributeToLogWithKey (Some lg) key s =
     store_merged key (Some (acc ∪ ∅)) (after_get key s)) /\
  (pre <> "" -> forall e, (parse_prior pre).2 = Some e ->
     WriteUserAttributeToLogWithKey (Some lg) key s =
     (Returned (Some e),
      emit (EvLog LvlWarn
              ("Unmarshal failed, will overwrite " +:+ key +:+
               ", pre value is: " +:+ pre))
           (after_get key s))) /\
  (pre <> "" -> forall m, parse_prior pre = (Some m, None) ->
     WriteUserAttributeToLogWithKey (Some lg) key s =
     store_merged key (Some (acc ∪ m)) (after_get key s)) /\
  (pre <> "" -> parse_prior pre = (None, None) ->
     WriteUserAttributeToLogWithKey (Some lg) key s =
     if decide (acc = ∅) then store_merged key None (after_get key s)
     else (Panicked nil_map_assignment, after_get key s)) /\
  (forall (prior : gmap string Value) k,
     (acc ∪ prior) !! k =
     match acc !! k with Some x => Some x | None => prior !! k end) /\
  (property_store ->
   forall s1 m,
     WriteUserAttributeToLogWithKey (Some lg) key s = (Returned None, s1) ->
     merged_object key s = Some m ->
     round_trips m ->
     forall s2, world s2 = world s1 ->
       WriteUserAttributeToLogWithKey (Some lg) key s2 =
       store_merged key (Some (userAttribute (ctx s2) ∪ m))
                    (after_get key s2) /\
       (userAttribute (ctx s2) = acc -> userAttribute (ctx s2) ∪ m = m)).
Proof.
  intros Hr acc pre. subst acc pre.
  pose proof (log_export_laid lg key s Hr) as E.
  split; [|split; [|split; [|split; [|split]]]].
  - intros Hp. rewrite E. by destruct (decide (prior_value key s = "")).
  - intros Hp e He. rewrite E. destruct (decide (prior_value key s = "")); [done|].
    by rewrite He.
  - intros Hp m Hm. rewrite E. destruct (decide (prior_value key s = "")); [done|].
    by rewrite Hm.
  - intros Hp Hm. rewrite E. destruct (decide (prior_value key s = "")); [done|].
    rewrite Hm. simpl. by destruct (decide (userAttribute (ctx s) = ∅)).
  - intros prior k. rewrite lookup_union.
    destruct (userAttribute (ctx s) !! k), (prior !! k); done.
  - intros [Hget Hput] s1 m E1 Hm [Hne Hparse] s2 Hw.
    pose proof (first_export_stored lg key s s1 Hr E1) as Hset.
    rewrite Hm in Hset.
    assert (Hprior : prior_value key s2 = encoded (Some m)).
    { unfold prior_value. rewrite Hw. by eapply Hput. }
    split.
    + rewrite (log_export_laid lg key s2 Hr), Hprior.
      destruct (decide (encoded (Some m) = "")); [done|].
      by rewrite Hparse.
    + intros Hacc. rewrite Hacc. unfold merged_object in Hm.
      destruct (decide (prior_value key s = "")).
      * injection Hm as <-.
        by rewrite (assoc_L (∪)), (idemp_L (∪) (userAttribute (ctx s))).
      * destruct ((parse_prior (prior_value key s)).1) as [m0|]; [|done].
        injection Hm as <-.
        by rewrite (assoc_L (∪)), (idemp_L (∪) (userAttribute (ctx s))).
Qed.

(** ** Plugin start *)

Lemma start_rules_status (pc : PluginCtx) lg json (p0 : Proc') :
  log (vm pc) = Some lg ->
  let b := ParseRuleConfig json (global_parser pc) (override_parser pc)
                           (pemit (EvHost OpParseRuleConfig) p0) in
  (forall msg, b.1 <> Panicked msg) ->
  exists st pc' p',
    start_rules pc json p0 = (Returned st, pc', p') /\
    (st = OnPluginStartStatusFailed <->
       (exists e, b.1 = Returned (Some e)) \/
       (b.1 = Returned None /\ globalOnTickFuncs b.2 <> None /\
        (SetTickPeriodMilliSeconds 100 (pworld b.2)).1 <> None)).
Proof.
  intros Hlog b Hnp. subst b. unfold start_rules. rewrite Hlog.
  destruct (ParseRuleConfig json (global_parser pc) (override_parser pc)
              (pemit (EvHost OpParseRuleConfig) p0)) as [[[e|]|msg] p1];
    cbn [fst snd] in *.
  - eexists _, _, _. split; [reflexivity|]. split; [eauto|done].
  - destruct (globalOnTickFuncs p1) as [fs|].
    + unfold pcall. cbn [pworld pemit pset_world].
      destruct (SetTickPeriodMilliSeconds 100 (pworld p1)) as [[e|] w]; cbn [fst snd].
      * eexists _, _, _. split; [reflexivity|]. split; [|done].
        intros _. right. by repeat split.
      * eexists _, _, _. split; [reflexivity|]. split; [done|].
        intros [[e He]|(_ & _ & H)]; done.
    + eexists _, _, _. split; [reflexivity|]. split; [done|].
      intros [[e He]|(_ & H & _)]; done.
  - by destruct (Hnp msg).
Qed.

(** C6 (as amended). With a logger installed and a rule-set build that
    returns, plugin start returns exactly one status: failed exactly when
    reading the raw configuration fails with an error other than
    not-found, or the non-empty raw bytes are not valid JSON, or the build
    of the rule set fails, or tick entries were staged and arming the
    100 ms timer fails; ok otherwise. When the read does not fail, the raw
    bytes are empty and a parser was registered, a warning is logged and
    the rule set is built from the zero JSON value; the status is then ok
    exactly when neither the build nor the arming fails. *)
Theorem start_status (pc : PluginCtx) (lg : Log) (p : Proc') :
  log (vm pc) = Some lg ->
  (forall msg, (build pc p).1 <> Panicked msg) ->
  exists st pc' p',
    OnPluginStart pc p = (Returned st, pc', p') /\
    (st = OnPluginStartStatusFailed <->
       read_fails p \/ malformed p \/ build_fails pc p \/ arming_fails pc p) /\
    (st = OnPluginStartStatusOK <->
       ~ (read_fails p \/ malformed p \/ build_fails pc p \/ arming_fails pc p)) /\
    (~ read_fails p -> raw_configuration p = "" -> hasCustomConfig (vm pc) = true ->
       OnPluginStart pc p =
       start_rules pc gjson_zero
         (pemit (EvLog LvlWarn "config is empty, but has ParseConfigFunc")
                (after_read p)) /\
       (st = OnPluginStartStatusOK <-> ~ build_fails pc p /\ ~ arming_fails pc p)).
Proof.
  intros Hlog Hnp.
  assert (Hmain : exists st pc' p',
    OnPluginStart pc p = (Returned st, pc', p') /\
    (st = OnPluginStartStatusFailed <->
       read_fails p \/ malformed p \/ build_fails pc p \/ arming_fails pc p) /\
    (~ read_fails p -> raw_configuration p = "" -> hasCustomConfig (vm pc) = true ->
       OnPluginStart pc p =
       start_rules pc gjson_zero
         (pemit (EvLog LvlWarn "config is empty, but has ParseConfigFunc")
                (after_read p)))).
  { unfold read_fails, malformed, build_fails, arming_fails, build, before_build,
      start_json, raw_configuration, read_error, after_read, start_read in *.
    unfold OnPluginStart. rewrite Hlog.
    destruct (pcall OpGetPluginConfiguration GetPluginConfiguration p)
      as [[data err] p1]. cbn [fst snd] in *.
    destruct (read_failed err) eqn:Hread.
    { eexists _, _, _. split; [reflexivity|]. split; [|done]. split; auto. }
    destruct (decide (data = "")) as [Hd|Hd].
    - destruct (hasCustomConfig (vm pc)) eqn:Hcc.
      + unfold plog_then.
        destruct (start_rules_status pc lg gjson_zero _ Hlog Hnp)
          as (st & pc' & p' & E & Hst).
        exists st, pc', p'. split; [exact E|]. split; [|done].
        rewrite Hst. split; [tauto|].
        intros [?|[[? _]|[?|?]]]; try done; tauto.
      + destruct (start_rules_status pc lg gjson_zero _ Hlog Hnp)
          as (st & pc' & p' & E & Hst).
        exists st, pc', p'. split; [exact E|]. split; [|done].
        rewrite Hst. split; [tauto|].
        intros [?|[[? _]|[?|?]]]; try done; tauto.
    - destruct (gjson_ValidBytes data) eqn:Hv; cbn [negb].
      + destruct (start_rules_status pc lg (gjson_ParseBytes data) _ Hlog Hnp)
          as (st & pc' & p' & E & Hst).
        exists st, pc', p'. split; [exact E|]. split; [|done].
        rewrite Hst. split; [tauto|].
        intros [?|[[_ ?]|[?|?]]]; try done; tauto.
      + eexists _, _, _. split; [reflexivity|]. split; [|done].
        split; auto. }
  destruct Hmain as (st & pc' & p' & E & Hfail & Hempty).
  exists st, pc', p'. split; [exact E|]. split; [exact Hfail|]. split.
  - rewrite <- Hfail. destruct st; split; intros; congruence.
  - intros Hr Hd Hcc. split; [by apply Hempty|].
    assert (Hm : ~ malformed p) by (intros [? _]; done).
    destruct st; split; intros H; try done.
    + split; intros ?; assert (OnPluginStartStatusOK = OnPluginStartStatusFailed)
        by (apply Hfail; tauto); done.
    + destruct H as [H1 H2]. assert (Hany : read_fails p \/ malformed p \/
        build_fails pc p \/ arming_fails pc p) by (by apply Hfail). tauto.
Qed.

(** ** The tick scheduler *)

Lemma tick_loop_entries (pre fs : list TickEntry') (p : Proc') :
  foldl (fun st i => tick_at i st) (pre ++ fs, p) (seq (length pre) (length fs))
  = (pre ++ (tick_entries (length pre) fs p).1, (tick_entries (length pre) fs p).2).
Proof.
  revert pre p. induction fs as [|e rest IH]; intros pre p.
  - reflexivity.
  - cbn [length seq foldl tick_entries]. unfold tick_at at 2.
    assert (Hl : (pre ++ e :: rest) !! length pre = Some e).
    { rewrite lookup_app_r by lia. by rewrite Nat.sub_diag. }
    rewrite Hl. unfold fires.
    destruct (time_Now_UnixMilli (pworld p)) as [t w1]. cbn [fst snd].
    destruct (tickPeriod e <=? int64_sub t (lastExecuted e)).
    + assert (Hi : <[length pre := with_lastExecuted t e]> (pre ++ e :: rest)
                   = (pre ++ [with_lastExecuted t e]) ++ rest).
      { rewrite insert_app_r_alt by lia. rewrite Nat.sub_diag. simpl.
        by rewrite <- app_assoc. }
      rewrite Hi. specialize (IH (pre ++ [with_lastExecuted t e])).
      rewrite length_app in IH. simpl in IH. rewrite Nat.add_1_r in IH.
      rewrite IH. cbn [fst snd]. by rewrite <- app_assoc.
    + specialize (IH (pre ++ [e]) (pset_world w1 p)).
      rewrite length_app in IH. simpl in IH. rewrite Nat.add_1_r in IH.
      rewrite <- app_assoc in IH. simpl in IH.
      rewrite IH. cbn [fst snd]. by rewrite <- app_assoc.
Qed.

Lemma OnTick_entries (pc : PluginCtx) (fs : list TickEntry') (p : Proc') :
  onTickFuncs pc = Some fs ->
  OnTick pc p = (with_onTickFuncs (Some (tick_entries 0 fs p).1) pc,
                 (tick_entries 0 fs p).2).
Proof.
  intros E. unfold OnTick. rewrite E.
  pose proof (tick_loop_entries [] fs p) as H. simpl in H. by rewrite H.
Qed.

(** *** Ticks at a fixed cadence *)

Lemma fired_emit_tick i j (p : Proc') :
  fired i (pemit (EvInvoke (InvTick j)) p)
  = (fired i p + (if Nat.eqb i j then 1 else 0))%nat.
Proof.
  unfold fired. cbn [pevents pemit]. rewrite filter_app, length_app.
  f_equal. rewrite filter_cons, filter_nil. simpl.
  destruct (Nat.eqb i j); by case_decide.
Qed.

Lemma tick_entries_steady (t : Z) (fs : list TickEntry') (i0 : nat) (p : Proc') :
  (forall w, now (time_Now_UnixMilli w).2 = now w) ->
  Forall (fun e => forall w, now (tickFunc e w) = now w) fs ->
  now (pworld p) = t ->
  (tick_entries i0 fs p).1 = step_entry t <$> fs /\
  now (pworld (tick_entries i0 fs p).2) = t /\
  forall i, fired i (tick_entries i0 fs p).2 = (fired i p + fired_at t i0 fs i)%nat.
Proof.
  intros Hread Hfs. revert i0 p.
  induction Hfs as [|e rest He _ IH]; intros i0 p Ht.
  - simpl. repeat split; auto.
  - cbn [tick_entries fired_at]. unfold step_entry at 1. cbn [fmap list_fmap].
    change (time_Now_UnixMilli (pworld p)).1 with (now (pworld p)). rewrite Ht.
    destruct (fires t e) eqn:Hf; cbn [fst snd].
    + match goal with |- context [tick_entries (S i0) rest ?q] =>
        destruct (IH (S i0) q) as (E1 & E2 & E3) end.
      { cbn [pworld pset_world pemit]. cbv beta in He. by rewrite (He _), Hread. }
      rewrite E1. split; [done|]. split; [done|]. intros i. rewrite E3.
      unfold fired at 1. cbn [pevents pset_world].
      change (length (filter (fun e0 => is_tick i e0 = true)
                (pevents (pemit (EvInvoke (InvTick i0)) (pset_world (time_Now_UnixMilli (pworld p)).2 p)))))
        with (fired i (pemit (EvInvoke (InvTick i0)) (pset_world (time_Now_UnixMilli (pworld p)).2 p))).
      rewrite fired_emit_tick. unfold fired at 1. cbn [pevents pset_world].
      fold (fired i p). simpl. lia.
    + destruct (IH (S i0) (pset_world (time_Now_UnixMilli (pworld p)).2 p)) as (E1 & E2 & E3).
      { cbn [pworld pset_world]. by rewrite Hread. }
      rewrite E1. split; [done|]. split; [done|]. intros i. rewrite E3.
      unfold fired at 1. cbn [pevents pset_world]. fold (fired i p). simpl. lia.
Qed.

Lemma fired_at_lookup (t : Z) (fs : list TickEntry') (i0 j : nat) e :
  fs !! j = Some e ->
  fired_at t i0 fs (i0 + j) = if fires t e then 1%nat else 0%nat.
Proof.
  revert i0 j. induction fs as [|e0 rest IH]; intros i0 j Hj; [done|].
  cbn [fired_at]. destruct j as [|j]; simpl in Hj.
  - inversion Hj; subst. rewrite Nat.add_0_r, Nat.eqb_refl, andb_true_r.
    assert (Hz : forall i, (i0 < i)%nat -> fired_at t i rest i0 = 0%nat).
    { clear. induction rest as [|e1 rest IH]; intros i Hi; [done|].
      cbn [fired_at]. rewrite IH by lia.
      replace (Nat.eqb i0 i) with false by (symmetry; apply Nat.eqb_neq; lia).
      by rewrite andb_false_r. }
    rewrite Hz by lia. by destruct (fires t e).
  - replace (Nat.eqb (i0 + S j) i0) with false by (symmetry; apply Nat.eqb_neq; lia).
    rewrite andb_false_r. replace (i0 + S j)%nat with (S i0 + j)%nat by lia.
    by rewrite (IH (S i0) j Hj).
Qed.

Lemma step_entry_fields t (e : TickEntry') :
  tickFunc (step_entry t e) = tickFunc e /\ tickPeriod (step_entry t e) = tickPeriod e.
Proof. unfold step_entry. by destruct (fires t e). Qed.

Lemma entry_after_fields t0 G n (e : TickEntry') :
  tickFunc (entry_after t0 G n e) = tickFunc e /\
  tickPeriod (entry_after t0 G n e) = tickPeriod e.
Proof.
  induction n as [|n [IH1 IH2]]; [done|]. cbn [entry_after].
  destruct (step_entry_fields (t0 + Z.of_nat (S n) * G)
              (entry_after t0 G n e)) as [E1 E2].
  split; congruence.
Qed.

Lemma fired_pset_world i w (p : Proc') : fired i (pset_world w p) = fired i p.
Proof. reflexivity. Qed.

Lemma run_ticks_steady (advance : World -> World) (G t0 : Z) (pc : PluginCtx)
  (fs : list TickEntry') (p : Proc') (n : nat) :
  onTickFuncs pc = Some fs ->
  steady_clock advance G fs ->
  now (pworld p) = t0 ->
  onTickFuncs (run_ticks advance n pc p).1 = Some (entry_after t0 G n <$> fs) /\
  now (pworld (run_ticks advance n pc p).2) = t0 + Z.of_nat n * G /\
  forall i e, fs !! i = Some e ->
    fired i (run_ticks advance n pc p).2 = (fired i p + fire_count t0 G n e)%nat.
Proof.
  intros Hfs (Hread & Hadv & Hcb) Ht0. induction n as [|n (IH1 & IH2 & IH3)].
  - simpl. split; [|split].
    + rewrite Hfs. f_equal. by rewrite list_fmap_id.
    + lia.
    + intros. lia.
  - cbn [run_ticks].
    set (r := run_ticks advance n pc p) in *.
    rewrite (OnTick_entries r.1 _ _ IH1). cbn [fst snd].
    assert (Hcb' : Forall (fun e => forall w, now (tickFunc e w) = now w)
                          (entry_after t0 G n <$> fs)).
    { apply Forall_fmap. eapply Forall_impl; [exact Hcb|]. intros e He w. simpl.
      destruct (entry_after_fields t0 G n e) as [-> _]. apply He. }
    assert (Hnow : now (pworld (pset_world (advance (pworld r.2)) r.2))
                   = t0 + Z.of_nat (S n) * G).
    { cbn [pworld pset_world]. rewrite Hadv, IH2. lia. }
    destruct (tick_entries_steady _ _ 0%nat _ Hread Hcb' Hnow) as (E1 & E2 & E3).
    split; [|split].
    + cbn [onTickFuncs with_onTickFuncs]. rewrite E1. f_equal.
      rewrite <- list_fmap_compose. reflexivity.
    + exact E2.
    + intros i e Hi. rewrite E3, fired_pset_world, (IH3 i e Hi).
      assert (Hi' : (entry_after t0 G n <$> fs) !! i = Some (entry_after t0 G n e)).
      { by rewrite list_lookup_fmap, Hi. }
      pose proof (fired_at_lookup (t0 + Z.of_nat (S n) * G) _ 0%nat i _ Hi') as Hf.
      simpl in Hf. rewrite Hf. cbn [fire_count]. lia.
Qed.

Lemma int64_sub_small x y : 0 <= y <= x -> x < 2 ^ 63 -> int64_sub x y = x - y.
Proof. intros H1 H2. unfold int64_sub. apply wrap_small; lia. Qed.

(** An entry that was never fired, whose period is [k] granules, on a
    clock that is at least one period past zero at the first tick: it
    fires at the first tick and from then on at every [k]-th. *)
Lemma entry_cadence (t0 G k : Z) (e : TickEntry') (n : nat) :
  0 < G -> 1 <= k -> tickPeriod e = k * G -> lastExecuted e = 0 ->
  0 <= t0 -> k * G <= t0 + G ->
  t0 + Z.of_nat (S n) * G < 2 ^ 63 ->
  lastExecuted (entry_after t0 G (S n) e) = t0 + G * (1 + k * (Z.of_nat n / k)) /\
  Z.of_nat (fire_count t0 G (S n) e) = 1 + Z.of_nat n / k.
Proof.
  intros HG Hk HP Hlast Ht0 Hfar. induction n as [|n IH]; intros Hbound.
  - cbn [entry_after fire_count]. unfold step_entry, fires.
    rewrite Hlast, HP, int64_sub_small by lia.
    destruct (Z.leb_spec (k * G) (t0 + Z.of_nat 1 * G - 0)); [|lia].
    cbn [lastExecuted with_lastExecuted]. rewrite Z.div_0_l by lia. lia.
  - destruct IH as [IHl IHc]; [lia|].
    set (q := Z.of_nat n / k) in *.
    assert (Hq : k * q <= Z.of_nat n < k * q + k).
    { pose proof (Z.div_mod (Z.of_nat n) k ltac:(lia)) as Hdm.
      pose proof (Z.mod_pos_bound (Z.of_nat n) k ltac:(lia)). fold q in Hdm. lia. }
    remember (S n) as m eqn:Hm.
    cbn [entry_after fire_count]. unfold step_entry, fires.
    destruct (entry_after_fields t0 G m e) as [_ HP'].
    rewrite HP', HP, IHl.
    rewrite int64_sub_small by nia.
    replace (t0 + Z.of_nat (S m) * G - (t0 + G * (1 + k * q)))
      with (G * (Z.of_nat m - k * q)) by lia.
    destruct (Z.leb_spec (k * G) (G * (Z.of_nat m - k * q))) as [Hf|Hf].
    + assert (Hmk : Z.of_nat m = k * (q + 1)) by nia.
      assert (Hq' : Z.of_nat m / k = q + 1).
      { rewrite Hmk, Z.mul_comm. apply Z.div_mul. lia. }
      cbn [lastExecuted with_lastExecuted]. rewrite Hq', Nat2Z.inj_add, IHc.
      split; lia.
    + assert (Hq' : Z.of_nat m / k = q).
      { symmetry. apply Z.div_unique with (r := Z.of_nat m - k * q); nia. }
      rewrite Hq', Nat2Z.inj_add, IHl, IHc. split; lia.
Qed.

Lemma entry_fire_count (t0 G k : Z) (e : TickEntry') (n : nat) :
  0 < G -> 1 <= k -> tickPeriod e = k * G -> lastExecuted e = 0 ->
  0 <= t0 -> k * G <= t0 + G ->
  t0 + Z.of_nat n * G < 2 ^ 63 ->
  Z.of_nat (fire_count t0 G n e)
  = (Z.of_nat n * G + tickPeriod e - G) / tickPeriod e.
Proof.
  intros HG Hk HP Hlast Ht0 Hfar Hbound. destruct n as [|n].
  - simpl. rewrite Z.div_small; [done | nia].
  - destruct (entry_cadence t0 G k e n HG Hk HP Hlast Ht0 Hfar Hbound) as [_ Hc].
    rewrite Hc, HP.
    replace (Z.of_nat (S n) * G + k * G - G) with ((Z.of_nat n + 1 * k) * G) by lia.
    rewrite Z.div_mul_cancel_r by lia. rewrite Z.div_add by lia. lia.
Qed.

(** C5 (as amended). On a tick the scheduler goes through the entries in
    registration order; for each it reads the clock, and the entry fires
    exactly when the time elapsed since its last firing has reached its
    period; its callback then runs on the spot and its last-fired time
    becomes the time just read, before the next entry is looked at.
    Entries start with last-fired time 0 on a clock that counts from the
    Unix epoch. So with ticks exactly every granularity [G], periods that
    are positive multiples of [G] and a clock that is at least one period
    past 0 at the first tick, every entry fires at the first tick and
    then once per period: after [n] ticks, elapsed time [T = n * G], entry
    [i] has fired [(T + period_i - G) / period_i] times, the ceiling of
    [T / period_i]. *)
Theorem tick_schedule (advance : World -> World) (G t0 : Z) (pc : PluginCtx)
  (fs : list TickEntry') (p : Proc') (n : nat) :
  onTickFuncs pc = Some fs ->
  steady_clock advance G fs ->
  now (pworld p) = t0 ->
  0 < G -> 0 <= t0 -> t0 + Z.of_nat n * G < 2 ^ 63 ->
  Forall (fun e => lastExecuted e = 0 /\
                   (exists k, 1 <= k /\ tickPeriod e = k * G) /\
                   tickPeriod e <= t0 + G) fs ->
  (forall q, OnTick pc q = (with_onTickFuncs (Some (tick_entries 0 fs q).1) pc,
                            (tick_entries 0 fs q).2)) /\
  (forall i e, fs !! i = Some e ->
     Z.of_nat (fired i (run_ticks advance n pc p).2)
     = Z.of_nat (fired i p) + (Z.of_nat n * G + tickPeriod e - G) / tickPeriod e).
Proof.
  intros Hfs Hclock Ht0 HG Hpos Hbound Hentries. split.
  - intros q. by apply OnTick_entries.
  - intros i e Hi.
    destruct (run_ticks_steady advance G t0 pc fs p n Hfs Hclock Ht0) as (_ & _ & Hf).
    rewrite (Hf i e Hi), Nat2Z.inj_add. f_equal.
    rewrite Forall_forall in Hentries.
    destruct (Hentries e) as (Hl & (k & Hk & HP) & Hfar).
    { apply list_elem_of_lookup. eauto. }
    apply (entry_fire_count t0 G k); auto. by rewrite <- HP.
Qed.

(** * Further properties of the wrapper *)

(** ** What the methods of [HttpContext] change *)

Section Keeps.

Variable g : HttpCtx' -> bool.
Variable R : HttpCtx' -> HttpCtx' -> Prop.
Variable ok : Event PluginConfig -> bool.

Hypothesis R_refl : forall c, R c c.
Hypothesis R_trans : forall c1 c2 c3, R c1 c2 -> R c2 c3 -> R c1 c3.
Hypothesis methods_keep :
  forall c c', method_update c c' -> g c = true -> g c' = true /\ R c c'.
Hypothesis methods_ok : forall e, method_event e = true -> ok e = true.

Lemma keeps_refl s : keeps g R ok s s.
Proof.
  intros G. split; [done|]. split; [apply R_refl|].
  exists []. split; [by rewrite app_nil_r | constructor].
Qed.

Lemma keeps_trans s1 s2 s3 :
  keeps g R ok s1 s2 -> keeps g R ok s2 s3 -> keeps g R ok s1 s3.
Proof.
  intros H1 H2 G. destruct (H1 G) as (G2 & R1 & l1 & E1 & F1).
  destruct (H2 G2) as (G3 & R2 & l2 & E2 & F2).
  split; [done|]. split; [by eapply R_trans|].
  exists (l1 ++ l2). split; [by rewrite E2, E1, app_assoc | by apply Forall_app].
Qed.

Lemma keeps_emit e s : ok e = true -> keeps g R ok s (emit e s).
Proof.
  intros O G. split; [done|]. split; [apply R_refl|].
  exists [e]. split; [done | by constructor].
Qed.

Lemma keeps_call {X} op (f : World -> X * World) :
  ok (EvHost op) = true -> respects (keeps g R ok) (call op f).
Proof.
  intros O s. unfold call. destruct (f (world s)) as [x w].
  by apply (keeps_emit (EvHost op) s).
Qed.

Lemma keeps_invoked inv :
  ok (EvInvoke inv) = true ->
  respects (keeps g R ok) (@invoked PluginConfig Value World inv).
Proof. intros O s. by apply keeps_emit. Qed.

Lemma keeps_logf lg lvl msg : respects (keeps g R ok) (logf lg lvl msg).
Proof.
  intros s. destruct lg; simpl.
  - apply keeps_emit. by apply methods_ok.
  - apply keeps_refl.
Qed.

Lemma keeps_get_ctx : respects (keeps g R ok) get_ctx.
Proof. intros s. apply keeps_refl. Qed.

Lemma keeps_modify_ctx f :
  (forall c, g c = true -> g (f c) = true /\ R c (f c)) ->
  respects (keeps g R ok) (modify_ctx f).
Proof.
  intros Hf s G. destruct (Hf _ G) as [G' HR]. simpl.
  split; [done|]. split; [done|].
  exists []. split; [by rewrite app_nil_r | constructor].
Qed.

Lemma keeps_method f :
  (forall c, method_update c (f c)) -> respects (keeps g R ok) (modify_ctx f).
Proof. intros Hf. apply keeps_modify_ctx. intros c. apply methods_keep, Hf. Qed.

Lemma keeps_bind {A B} (m : Comp A) (k : A -> Comp B) :
  respects (keeps g R ok) m -> (forall a, respects (keeps g R ok) (k a)) ->
  respects (keeps g R ok) (m ≫= k).
Proof. apply respects_bind. exact keeps_trans. Qed.

Ltac keeps_method_step :=
  first
    [ progress intros
    | apply respects_ret; apply keeps_refl
    | apply keeps_bind
    | apply keeps_call; apply methods_ok; reflexivity
    | apply keeps_logf
    | apply keeps_get_ctx
    | apply keeps_method; intros; constructor
    | match goal with
      | |- respects _ (match ?x with _ => _ end) => destruct x
      end ].

Lemma keeps_for_range body entries :
  (forall kv, respects (keeps g R ok) (body kv)) ->
  respects (keeps g R ok) (for_range body entries).
Proof.
  intros Hb. induction entries as [|kv rest IH]; simpl;
    repeat keeps_method_step; auto.
Qed.

Lemma keeps_exec lg {X} (c : Cmd X) : respects (keeps g R ok) (exec lg c).
Proof.
  destruct c; simpl;
    unfold Scheme, Host, Path, Method, SetContext, GetContext, GetBoolContext,
      GetStringContext, GetUserAttribute, SetUserAttribute,
      WriteUserAttributeToLog, WriteUserAttributeToLogWithKey,
      WriteUserAttributeToTrace, DontReadRequestBody, DontReadResponseBody,
      BufferRequestBody, BufferResponseBody, DisableReroute,
      SetRequestBodyBufferLimit, SetResponseBodyBufferLimit;
    try (repeat keeps_method_step; fail).
  - repeat keeps_method_step. apply keeps_for_range. intros kv. unfold trace_one.
    repeat keeps_method_step.
  - intros s. simpl. destruct (f (world s)) as [x w]. apply (keeps_refl s).
Qed.

Lemma keeps_run lg {A} (p : Prog A) : respects (keeps g R ok) (run lg p).
Proof.
  induction p as [r | X c k IH]; simpl.
  - apply respects_ret, keeps_refl.
  - apply keeps_bind; [apply keeps_exec | exact IH].
Qed.

End Keeps.

(** ** The two maps of an exchange *)

(** X1. A value stored with [SetContext] is what [GetContext] returns for
    that key; the other keys of the user context, and the whole of the
    user attributes, are as before. The same holds with the roles of the
    two maps exchanged. A key never stored in a new exchange context reads
    as nil, and a second write to a key replaces the first. *)
Theorem user_maps_round_trip (key key' : string) (value value' : Value)
  (s : State') (pc : PluginCtx) (contextID : Z) :
  (SetContext key value;; GetContext key') s =
    (Returned (if decide (key' = key) then Some value
               else userContext (ctx s) !! key'),
     set_ctx (with_userContext (<[key := value]> (userContext (ctx s))) (ctx s)) s) /\
  (SetContext key value;; GetUserAttribute key') s =
    (Returned (userAttribute (ctx s) !! key'),
     set_ctx (with_userContext (<[key := value]> (userContext (ctx s))) (ctx s)) s) /\
  (SetUserAttribute key value;; GetUserAttribute key') s =
    (Returned (if decide (key' = key) then Some value
               else userAttribute (ctx s) !! key'),
     set_ctx (with_userAttribute (<[key := value]> (userAttribute (ctx s))) (ctx s)) s) /\
  (SetUserAttribute key value;; GetContext key') s =
    (Returned (userContext (ctx s) !! key'),
     set_ctx (with_userAttribute (<[key := value]> (userAttribute (ctx s))) (ctx s)) s) /\
  ((SetContext key value;; SetContext key value';; GetContext key) s).1
    = Returned (Some value') /\
  ((SetUserAttribute key value;; SetUserAttribute key value';;
    GetUserAttribute key) s).1 = Returned (Some value') /\
  (let s0 := {| ctx := NewHttpContext pc contextID; world := world s;
                events := events s |} in
   GetContext key s0 = (Returned None, s0) /\
   GetUserAttribute key s0 = (Returned None, s0)).
Proof.
  split; [|split; [|split; [|split; [|split; [|split; [|split]]]]]];
    try reflexivity;
    unfold SetContext, GetContext, SetUserAttribute, GetUserAttribute, mbind,
      M_bind, bind, modify_ctx, get_ctx, mret, M_ret, ret; simpl.
  - destruct (decide (key' = key)) as [->|Hne].
    + by rewrite lookup_insert_eq.
    + by rewrite lookup_insert_ne.
  - destruct (decide (key' = key)) as [->|Hne].
    + by rewrite lookup_insert_eq.
    + by rewrite lookup_insert_ne.
  - by rewrite lookup_insert_eq.
  - by rewrite lookup_insert_eq.
Qed.

(** X2. [GetBoolContext] and [GetStringContext] read the user context:
    they return the stored value when it has the asked-for dynamic type,
    and the default when the key is absent or holds a value of another
    type; they change nothing, and a value stored among the user
    attributes is not seen by them. *)
Theorem typed_getters_default (key key' : string) (value : Value)
  (defaultBool : bool) (defaultString : string) (s : State') :
  GetBoolContext key defaultBool s =
    (Returned (default defaultBool (userContext (ctx s) !! key ≫= as_bool)), s) /\
  GetStringContext key defaultString s =
    (Returned (default defaultString (userContext (ctx s) !! key ≫= as_string)), s) /\
  ((SetContext key value;; GetBoolContext key defaultBool) s).1 =
    Returned (default defaultBool (as_bool value)) /\
  ((SetContext key value;; GetStringContext key defaultString) s).1 =
    Returned (default defaultString (as_string value)) /\
  ((SetUserAttribute key value;; GetBoolContext key' defaultBool) s).1 =
    (GetBoolContext key' defaultBool s).1 /\
  ((SetUserAttribute key value;; GetStringContext key' defaultString) s).1 =
    (GetStringContext key' defaultString s).1.
Proof.
  split; [|split; [|split; [|split; [|split]]]]; try reflexivity;
    unfold GetBoolContext, GetStringContext, SetContext, SetUserAttribute,
      mbind, M_bind, bind, modify_ctx, get_ctx, mret, M_ret, ret; simpl;
    try reflexivity.
  - by case_match.
  - by case_match.
  - rewrite lookup_insert_eq. simpl. by case_match.
  - rewrite lookup_insert_eq. simpl. by case_match.
  - by case_match.
  - by case_match.
Qed.

(** ** What stays fixed in an exchange *)

Lemma keeps_weaken g (R R' : HttpCtx' -> HttpCtx' -> Prop)
  (ok ok' : Event PluginConfig -> bool) {A} (m : Comp A) :
  (forall c c', R c c' -> R' c c') -> (forall e, ok e = true -> ok' e = true) ->
  respects (keeps g R ok) m -> respects (keeps g R' ok') m.
Proof.
  intros HR Hok Hm s G. destruct (Hm s G) as (G' & H & l & E & F).
  split; [done|]. split; [by apply HR|]. exists l. split; [done|].
  eapply Forall_impl; [exact F | exact Hok].
Qed.

Lemma lowered_refl c : lowered c c.
Proof. by repeat split. Qed.

Lemma lowered_trans c1 c2 c3 : lowered c1 c2 -> lowered c2 c3 -> lowered c1 c3.
Proof.
  intros (I1 & A1 & B1 & C1 & D1) (I2 & A2 & B2 & C2 & D2).
  repeat split; [congruence | auto ..].
Qed.

Lemma settled_refl c : settled c c.
Proof. split; [done | apply lowered_refl]. Qed.

Lemma settled_trans c1 c2 c3 : settled c1 c2 -> settled c2 c3 -> settled c1 c3.
Proof.
  intros [E1 L1] [E2 L2]. split; [congruence | by eapply lowered_trans].
Qed.

Lemma method_settled c c' :
  method_update c c' -> always c = true -> always c' = true /\ settled c c'.
Proof. intros [] _; by repeat split. Qed.

Lemma method_lowered c c' :
  method_update c c' -> always c = true -> always c' = true /\ lowered c c'.
Proof. intros U G. destruct (method_settled c c' U G) as [G' [_ L]]. by split. Qed.

Lemma method_no_match e : method_event e = true -> no_match_call e = true.
Proof. by destruct e as [| [] |]. Qed.

(** A step of a handler outside the callbacks, for the relation
    [keeps g R ok] whose four laws are [Hr], [Ht], [Hm] and [Ho]; [side]
    settles what an update of the context has to satisfy. *)
Ltac keeps_step Hr Ht Hm Ho side :=
  first
    [ progress intros
    | apply respects_ret; apply keeps_refl; exact Hr
    | apply keeps_bind; [exact Ht | | ]
    | apply keeps_call; first [exact Hr | reflexivity]
    | apply keeps_invoked; first [exact Hr | reflexivity]
    | apply keeps_logf; first [exact Hr | exact Ho]
    | apply keeps_get_ctx; exact Hr
    | apply keeps_modify_ctx; side
    | apply keeps_run; first [exact Hr | exact Ht | exact Hm | exact Ho]
    | match goal with
      | |- respects _ (match ?x with _ => _ end) => destruct x
      | |- respects _ (if ?x then _ else _) => destruct x
      end ].

Ltac settled_step :=
  keeps_step settled_refl settled_trans method_settled method_no_match
             ltac:(by intros [] _; repeat split).

Lemma settled_request_body (v : Vm) n eos :
  respects (keeps always settled no_match_call) (OnHttpRequestBody v n eos).
Proof.
  unfold OnHttpRequestBody, stream_request_body, buffer_request_body.
  repeat settled_step.
Qed.

Lemma settled_response_headers (v : Vm) n eos :
  respects (keeps always settled no_match_call) (OnHttpResponseHeaders v n eos).
Proof. unfold OnHttpResponseHeaders. repeat settled_step. Qed.

Lemma settled_response_body (v : Vm) n eos :
  respects (keeps always settled no_match_call) (OnHttpResponseBody v n eos).
Proof.
  unfold OnHttpResponseBody, stream_response_body, buffer_response_body.
  repeat settled_step.
Qed.

Lemma settled_stream_done (v : Vm) :
  respects (keeps always settled no_match_call) (OnHttpStreamDone v).
Proof. unfold OnHttpStreamDone. repeat settled_step. Qed.

Lemma settled_deliver (v : Vm) sig :
  is_request_headers sig = false ->
  respects (keeps always settled no_match_call) (deliver v sig).
Proof.
  destruct sig; [discriminate | intros _ ..]; simpl.
  - apply keeps_bind; [exact settled_trans | apply settled_request_body |].
    repeat settled_step.
  - apply keeps_bind; [exact settled_trans | apply settled_response_headers |].
    repeat settled_step.
  - apply keeps_bind; [exact settled_trans | apply settled_response_body |].
    repeat settled_step.
  - apply keeps_bind; [exact settled_trans | apply settled_stream_done |].
    repeat settled_step.
Qed.

Lemma settled_deliver_all (v : Vm) sigs :
  Forall (fun sig => is_request_headers sig = false) sigs ->
  respects (keeps always settled no_match_call) (deliver_all v sigs).
Proof.
  induction 1 as [|sig sigs Hsig _ IH]; simpl.
  - apply respects_ret, keeps_refl, settled_refl.
  - apply keeps_bind; [exact settled_trans | by apply settled_deliver |].
    intros a. apply keeps_bind; [exact settled_trans | exact IH |].
    repeat settled_step.
Qed.

Lemma run_settled lg {A} (p : Prog A) (s : State') :
  exists o s' l,
    run (Some lg) p s = (o, s') /\ benign o /\ settled (ctx s) (ctx s') /\
    events s' = events s ++ l /\ Forall (fun e => method_event e = true) l.
Proof.
  pose proof (settles_run lg p s) as Ho.
  destruct (keeps_run always settled method_event settled_refl settled_trans
              method_settled (fun e H => H) (Some lg) p s eq_refl)
    as (_ & HR & l & E & F).
  destruct (run (Some lg) p s) as [o s'] eqn:Er. simpl in *.
  by exists o, s', l.
Qed.

(** X3. Once the request-header phase is over, the resolved
    configuration of an exchange is fixed: through every later
    request-body, response-headers, response-body and stream-done signal,
    whatever the callbacks do and whether or not a handler panics, the
    configuration and the context id stay what they were and the matcher
    is not asked again. *)
Theorem configuration_settled (v : Vm) (sigs : list Signal) (s : State') :
  Forall (fun sig => is_request_headers sig = false) sigs ->
  let s' := (deliver_all v sigs s).2 in
  config (ctx s') = config (ctx s) /\
  contextID (ctx s') = contextID (ctx s) /\
  exists l, events s' = events s ++ l /\
            Forall (fun e => is_match_call e = false) l.
Proof.
  intros Hsigs.
  destruct (settled_deliver_all v sigs Hsigs s eq_refl)
    as (_ & (Hc & Hid & _) & l & E & F).
  split; [exact Hc|]. split; [exact Hid|]. exists l. split; [exact E|].
  eapply Forall_impl; [exact F|]. intros e He. by apply negb_true_iff.
Qed.

Ltac lowered_step :=
  keeps_step lowered_refl lowered_trans method_lowered (fun e (_ : method_event e = true) => eq_refl (any_event e))
             ltac:(by intros [] _; repeat split).

Lemma lowered_request_headers (v : Vm) n eos :
  respects (keeps always lowered any_event) (OnHttpRequestHeaders v n eos).
Proof. unfold OnHttpRequestHeaders. repeat lowered_step. Qed.

Lemma settled_lowered {A} (m : Comp A) :
  respects (keeps always settled no_match_call) m ->
  respects (keeps always lowered any_event) m.
Proof. apply keeps_weaken; [by intros c c' [_ L] | done]. Qed.

Lemma lowered_deliver (v : Vm) sig :
  respects (keeps always lowered any_event) (deliver v sig).
Proof.
  destruct (is_request_headers sig) eqn:E.
  - destruct sig; try discriminate. simpl.
    apply keeps_bind; [exact lowered_trans | apply lowered_request_headers |].
    repeat lowered_step.
  - by apply settled_lowered, settled_deliver.
Qed.

Lemma lowered_deliver_all (v : Vm) sigs :
  respects (keeps always lowered any_event) (deliver_all v sigs).
Proof.
  induction sigs as [|sig sigs IH]; simpl.
  - apply respects_ret, keeps_refl, lowered_refl.
  - apply keeps_bind; [exact lowered_trans | apply lowered_deliver |].
    intros a. apply keeps_bind; [exact lowered_trans | exact IH |].
    repeat lowered_step.
Qed.

(** X4. No handler and no callback ever raises a flag of an exchange or
    changes its context id: through any sequence of signals a need-body
    or streaming flag that is false stays false. So in every state an
    exchange reaches from its creation, a need-body flag that is set has a
    whole-body or streaming callback of its direction behind it, a
    streaming flag that is set has a streaming callback behind it, and the
    context id is the one given at creation. *)
Theorem flags_never_raised (v : Vm) (sigs : list Signal) (s : State')
  (pc : PluginCtx) (contextID0 : Z) (w : World) (d : Direction) :
  lowered (ctx s) (ctx (deliver_all v sigs s).2) /\
  let s0 := {| ctx := NewHttpContext pc contextID0; world := w; events := [] |} in
  let c := ctx (deliver_all (vm pc) sigs s0).2 in
  contextID c = contextID0 /\
  (needBody d c = true ->
     onHttpBody d (vm pc) <> None \/ onHttpStreamingBody d (vm pc) <> None) /\
  (streamingBody d c = true -> onHttpStreamingBody d (vm pc) <> None).
Proof.
  split.
  - by destruct (lowered_deliver_all v sigs s eq_refl) as (_ & L & _).
  - intros s0 c.
    destruct (lowered_deliver_all (vm pc) sigs s0 eq_refl)
      as (_ & (Hid & Hq & Hp & Hsq & Hsp) & _).
    fold c in Hid, Hq, Hp, Hsq, Hsp. simpl in Hid, Hq, Hp, Hsq, Hsp.
    split; [exact Hid|]. split.
    + intros Hneed. rewrite <- !registered_true, <- orb_true_iff.
      destruct d; simpl in *.
      * destruct (registered (onHttpRequestBody (vm pc)) ||
                  registered (onHttpStreamingRequestBody (vm pc))); [done|].
        by rewrite Hq in Hneed.
      * destruct (registered (onHttpResponseBody (vm pc)) ||
                  registered (onHttpStreamingResponseBody (vm pc))); [done|].
        by rewrite Hp in Hneed.
    + intros Hstream. rewrite <- registered_true.
      destruct d; simpl in *.
      * destruct (registered (onHttpStreamingRequestBody (vm pc))); [done|].
        by rewrite Hsq in Hstream.
      * destruct (registered (onHttpStreamingResponseBody (vm pc))); [done|].
        by rewrite Hsp in Hstream.
Qed.

(** ** The header phases and the end of a matched exchange *)

Lemma events_after_match (s : State') :
  events (after_match s) =
  events s ++
  [EvHost (OpGetHttpRequestHeader "x-request-id");
   EvHost (OpSetProperty ["x_request_id"]
             (GetHttpRequestHeader "x-request-id" (world s)).1.1);
   EvHost OpGetMatchConfig].
Proof. simpl. by rewrite <- !app_assoc. Qed.

Ltac lowered_quiet_step :=
  keeps_step lowered_refl lowered_trans method_lowered method_no_match
             ltac:(by intros [] _; repeat split).

(** X5. Every request-header phase, whatever its outcome, starts the
    same way: it reads the header [x-request-id], writes the value the
    read returned to the property [x_request_id], whether or not the read
    or the write failed, and then asks the matcher, once. *)
Theorem request_id_forwarded (v : Vm) n eos (s : State') :
  let requestID := (GetHttpRequestHeader "x-request-id" (world s)).1.1 in
  exists l,
    events (OnHttpRequestHeaders v n eos s).2 =
    events s ++
    EvHost (OpGetHttpRequestHeader "x-request-id") ::
    EvHost (OpSetProperty ["x_request_id"] requestID) ::
    EvHost OpGetMatchConfig :: l /\
    Forall (fun e => is_match_call e = false) l.
Proof.
  intros requestID.
  assert (Hrest : forall m : Comp Action,
            respects (keeps always lowered no_match_call) m ->
            exists l,
              events (m (after_match s)).2 =
              events s ++
              EvHost (OpGetHttpRequestHeader "x-request-id") ::
              EvHost (OpSetProperty ["x_request_id"] requestID) ::
              EvHost OpGetMatchConfig :: l /\
              Forall (fun e => is_match_call e = false) l).
  { intros m Hm. destruct (Hm (after_match s) eq_refl) as (_ & _ & l & E & F).
    exists l. rewrite E, events_after_match, <- app_assoc. split; [done|].
    eapply Forall_impl; [exact F|]. intros e He. by apply negb_true_iff. }
  rewrite request_headers_unfold.
  destruct (match_answer s).2 as [e|]; [|destruct (match_answer s).1 as [cfg|]].
  - apply Hrest. repeat lowered_quiet_step.
  - apply Hrest. repeat lowered_quiet_step.
  - exists []. split; [|constructor].
    change (events (after_match s) = events s ++
            [EvHost (OpGetHttpRequestHeader "x-request-id");
             EvHost (OpSetProperty ["x_request_id"] requestID);
             EvHost OpGetMatchConfig]).
    apply events_after_match.
Qed.

(** X6. A request-header phase in which the matcher resolves a
    configuration stores it in the exchange, asks whether the request body
    is binary and, if so, clears the need-request-body flag. Without a
    request-headers callback it then answers continue. With one, the
    callback is called exactly once, with the resolved configuration, its
    action is the answer, and when it ends the configuration is still
    the resolved one; what the callback adds to the trace are entries of
    the methods of [HttpContext] only. The handler ends as the callback
    does: it returns the callback's action, unless the callback's own
    export to the log property has panicked on a nil map. *)
Theorem request_headers_matched (v : Vm) (lg : Log) n eos (s : State')
  (cfg : PluginConfig) :
  log v = Some lg ->
  match_answer s = (Some cfg, None) ->
  let probe := IsBinaryRequestBody (world (after_match s)) in
  let s1 := set_world probe.2
              (emit (EvHost OpIsBinaryRequestBody)
                 (set_ctx (with_config (Some cfg) (ctx (after_match s)))
                    (after_match s))) in
  let s2 := if probe.1 then set_ctx (with_needRequestBody false (ctx s1)) s1
            else s1 in
  (onHttpRequestHeaders v = None ->
     OnHttpRequestHeaders v n eos s = (Returned ActionContinue, s2)) /\
  (forall f, onHttpRequestHeaders v = Some f ->
     OnHttpRequestHeaders v n eos s =
     run (Some lg) (f cfg) (emit (EvInvoke (InvRequestHeaders cfg)) s2) /\
     exists o s' l,
       OnHttpRequestHeaders v n eos s = (o, s') /\
       benign o /\
       config (ctx s') = Some cfg /\
       events s' = events (after_match s) ++
                   EvHost OpIsBinaryRequestBody ::
                   EvInvoke (InvRequestHeaders cfg) :: l /\
       Forall (fun e => method_event e = true) l).
Proof.
  intros Hlog Hmatch probe s1 s2.
  assert (Hunfold :
    OnHttpRequestHeaders v n eos s =
    match onHttpRequestHeaders v with
    | None => (Returned ActionContinue, s2)
    | Some f => run (log v) (f cfg) (emit (EvInvoke (InvRequestHeaders cfg)) s2)
    end).
  { rewrite request_headers_unfold, Hmatch. subst s2 s1 probe.
    unfold mbind, M_bind, bind, modify_ctx, call, invoked.
    cbn [fst snd ctx world events set_ctx set_world emit].
    destruct (IsBinaryRequestBody (world (after_match s))) as [[] w1];
      cbn [fst snd]; by destruct (onHttpRequestHeaders v). }
  split.
  - intros Hnone. by rewrite Hunfold, Hnone.
  - intros f Hf. rewrite Hunfold, Hf, Hlog. split; [done|].
    destruct (run_settled lg (f cfg) (emit (EvInvoke (InvRequestHeaders cfg)) s2))
      as (o & s' & l & Erun & Ho & (Hc & _) & E & F).
    exists o, s', l. split; [exact Erun|]. split; [exact Ho|]. split.
    + rewrite Hc. subst s2 s1. by destruct probe.1.
    + split; [|exact F]. rewrite E. subst s2 s1. simpl.
      destruct probe.1; simpl; by rewrite <- !app_assoc.
Qed.

(** X7. The response-header phase of a matched exchange does not ask the
    matcher: it asks whether the response body is binary and, if so,
    clears the need-response-body flag. Without a response-headers
    callback it then answers continue. With one, the callback is called
    exactly once, with the configuration resolved in the request-header
    phase, its action is the answer, and the configuration is unchanged
    when it ends. The handler ends as the callback does: it returns the
    callback's action, unless the callback's own export to the log
    property has panicked on a nil map. *)
Theorem response_headers_matched (v : Vm) (lg : Log) n eos (s : State')
  (cfg : PluginConfig) :
  log v = Some lg ->
  config (ctx s) = Some cfg ->
  let probe := IsBinaryResponseBody (world s) in
  let s1 := set_world probe.2 (emit (EvHost OpIsBinaryResponseBody) s) in
  let s2 := if probe.1 then set_ctx (with_needResponseBody false (ctx s1)) s1
            else s1 in
  (onHttpResponseHeaders v = None ->
     OnHttpResponseHeaders v n eos s = (Returned ActionContinue, s2)) /\
  (forall f, onHttpResponseHeaders v = Some f ->
     OnHttpResponseHeaders v n eos s =
     run (Some lg) (f cfg) (emit (EvInvoke (InvResponseHeaders cfg)) s2) /\
     exists o s' l,
       OnHttpResponseHeaders v n eos s = (o, s') /\
       benign o /\
       config (ctx s') = Some cfg /\
       events s' = events s ++
                   EvHost OpIsBinaryResponseBody ::
                   EvInvoke (InvResponseHeaders cfg) :: l /\
       Forall (fun e => method_event e = true) l).
Proof.
  intros Hlog Hcfg probe s1 s2.
  assert (Hunfold :
    OnHttpResponseHeaders v n eos s =
    match onHttpResponseHeaders v with
    | None => (Returned ActionContinue, s2)
    | Some f => run (log v) (f cfg) (emit (EvInvoke (InvResponseHeaders cfg)) s2)
    end).
  { unfold OnHttpResponseHeaders, mbind, M_bind, bind, get_ctx. rewrite Hcfg.
    unfold call, modify_ctx, invoked. subst s2 s1 probe.
    destruct (IsBinaryResponseBody (world s)) as [[] w1]; simpl;
      by destruct (onHttpResponseHeaders v). }
  split.
  - intros Hnone. by rewrite Hunfold, Hnone.
  - intros f Hf. rewrite Hunfold, Hf, Hlog. split; [done|].
    destruct (run_settled lg (f cfg) (emit (EvInvoke (InvResponseHeaders cfg)) s2))
      as (o & s' & l & Erun & Ho & (Hc & _) & E & F).
    exists o, s', l. split; [exact Erun|]. split; [exact Ho|]. split.
    + rewrite Hc. subst s2 s1. by destruct probe.1.
    + split; [|exact F]. rewrite E. subst s2 s1. simpl.
      destruct probe.1; simpl; by rewrite <- !app_assoc.
Qed.

(** X8. At the end of a matched exchange the stream-done callback, when
    one is registered, is called exactly once, with the resolved
    configuration; the wrapper itself makes no host call and calls no
    other callback, so what follows the call in the trace are entries of
    the methods of [HttpContext] the callback used, and the configuration
    is unchanged when it ends. The handler ends as the callback does: it
    returns, unless the callback's own export to the log property has
    panicked on a nil map. Without a stream-done callback the exchange is
    left as it is. *)
Theorem stream_done_matched (v : Vm) (lg : Log) (s : State') (cfg : PluginConfig) :
  log v = Some lg ->
  config (ctx s) = Some cfg ->
  (onHttpStreamDone v = None -> OnHttpStreamDone v s = (Returned tt, s)) /\
  (forall f, onHttpStreamDone v = Some f ->
     OnHttpStreamDone v s =
     run (Some lg) (f cfg) (emit (EvInvoke (InvStreamDone cfg)) s) /\
     exists o s' l,
       OnHttpStreamDone v s = (o, s') /\
       benign o /\
       config (ctx s') = Some cfg /\
       events s' = events s ++ EvInvoke (InvStreamDone cfg) :: l /\
       Forall (fun e => method_event e = true) l).
Proof.
  intros Hlog Hcfg.
  assert (Hunfold :
    OnHttpStreamDone v s =
    match onHttpStreamDone v with
    | None => (Returned tt, s)
    | Some f => run (log v) (f cfg) (emit (EvInvoke (InvStreamDone cfg)) s)
    end).
  { unfold OnHttpStreamDone, mbind, M_bind, bind, get_ctx. rewrite Hcfg.
    by destruct (onHttpStreamDone v). }
  split.
  - intros Hnone. by rewrite Hunfold, Hnone.
  - intros f Hf. rewrite Hunfold, Hf, Hlog. split; [done|].
    destruct (run_settled lg (f cfg) (emit (EvInvoke (InvStreamDone cfg)) s))
      as (o & s' & l & Erun & Ho & (Hc & _) & E & F).
    exists o, s', l. split; [exact Erun|]. split; [exact Ho|].
    split; [by rewrite Hc|].
    split; [|exact F]. rewrite E. simpl. by rewrite <- app_assoc.
Qed.

(** ** Opting out of a body, and out of streaming it *)

Lemma deliver_all_settles (v : Vm) lg sigs :
  log v = Some lg -> settles (deliver_all v sigs).
Proof.
  intros Hlog. destruct (handlers_settle v lg Hlog) as (R1 & R2 & R3 & R4 & R5).
  induction sigs as [|sig sigs IH]; simpl.
  - apply settles_ret.
  - apply settles_bind.
    + destruct sig; simpl; (apply settles_bind; [auto | intros; apply settles_ret]).
    + intros a. apply settles_bind; [exact IH | intros; apply settles_ret].
Qed.

(** X9. When neither a whole-body nor a streaming callback is registered
    for a direction, the body of that direction is not read: from the
    creation of the exchange on, through every sequence of signals, the
    wrapper never fetches that body, and every body signal of that
    direction answers continue. The signals all return, unless the own
    export of some other callback to the log property has panicked on a
    nil map; the trace is free of fetches either way. *)
Theorem body_unread_by_default (d : Direction) (pc : PluginCtx) (lg : Log)
  (contextID0 : Z) (w : World) (sigs : list Signal) :
  log (vm pc) = Some lg ->
  onHttpBody d (vm pc) = None ->
  onHttpStreamingBody d (vm pc) = None ->
  let s0 := {| ctx := NewHttpContext pc contextID0; world := w; events := [] |} in
  exists o s',
    deliver_all (vm pc) sigs s0 = (o, s') /\
    benign o /\
    needBody d (ctx s') = false /\
    Forall (fun e => off_body d e = true) (events s') /\
    forall answers, o = Returned answers ->
      Forall2 (fun sig a => is_body_signal d sig = true -> a = Some ActionContinue)
              sigs answers.
Proof.
  intros Hlog Hb Hs s0.
  assert (Hneed : needBody d (ctx s0) = false).
  { destruct d; simpl in *; by rewrite Hb, Hs. }
  destruct (deliver_all_off d (vm pc) lg sigs s0 Hlog Hneed)
    as (o & s' & l & E & B & N & El & F & A).
  exists o, s'. by rewrite El.
Qed.

(** X10. From the moment a callback calls [DontReadRequestBody] (or
    [DontReadResponseBody]) the body of that direction is not read: the
    flag is false when the callback ends, whatever else the callback
    does, and through every later signal the flag stays false, the
    wrapper fetches no byte of that body, calls neither body callback of
    that direction, and answers every body signal of that direction with
    continue. The callback and the signals return, unless a callback's own
    export to the log property has panicked on a nil map. *)
Theorem dont_read_body (d : Direction) (v : Vm) (lg : Log) {A : Type}
  (k : unit -> Prog A) (sigs : list Signal) (s : State') :
  log v = Some lg ->
  DontReadBody d s = (Returned tt, set_ctx (ctx (DontReadBody d s).2) s) /\
  needBody d (ctx (DontReadBody d s).2) = false /\
  exists o s1 l1,
    run (Some lg) (Vis (CallDontReadBody d) k) s = (o, s1) /\
    benign o /\
    needBody d (ctx s1) = false /\
    events s1 = events s ++ l1 /\
    Forall (fun e => method_event e = true) l1 /\
    exists o2 s2 l2,
      deliver_all v sigs s1 = (o2, s2) /\
      benign o2 /\
      needBody d (ctx s2) = false /\
      events s2 = events s1 ++ l2 /\
      Forall (fun e => off_body d e = true) l2 /\
      forall answers, o2 = Returned answers ->
        Forall2 (fun sig a => is_body_signal d sig = true ->
                              a = Some ActionContinue)
                sigs answers.
Proof.
  intros Hlog. split; [by destruct d|]. split; [by destruct d|].
  assert (Hexec : exec (Some lg) (CallDontReadBody d) s
                  = (Returned tt, (DontReadBody d s).2)) by (by destruct d).
  assert (Hoff : needBody d (ctx (DontReadBody d s).2) = false) by (by destruct d).
  assert (Hev : events (DontReadBody d s).2 = events s) by (by destruct d).
  destruct (run_settled lg (k tt) (DontReadBody d s).2)
    as (o & s1 & l1 & Erun & Ho & (_ & _ & Hq & Hp & _) & E1 & F1).
  assert (Hoff1 : needBody d (ctx s1) = false).
  { destruct d; simpl in *; auto. }
  exists o, s1, l1. split.
  { simpl. by rewrite (bind_returned _ _ _ _ _ Hexec). }
  split; [exact Ho|].
  split; [exact Hoff1|]. split; [by rewrite E1, Hev|]. split; [exact F1|].
  exact (deliver_all_off d v lg sigs s1 Hlog Hoff1).
Qed.

Lemma method_buffered d c c' :
  method_update c c' -> buffered d c = true -> buffered d c' = true /\ unrelated c c'.
Proof. intros [] G; split; try done; by destruct d. Qed.

Lemma method_no_streaming d e : method_event e = true -> no_streaming d e = true.
Proof. by destruct d, e as [| [] |]. Qed.

Lemma unrelated_refl c : unrelated c c.
Proof. done. Qed.

Lemma unrelated_trans c1 c2 c3 : unrelated c1 c2 -> unrelated c2 c3 -> unrelated c1 c3.
Proof. done. Qed.

Ltac buffered_step d :=
  keeps_step unrelated_refl unrelated_trans (method_buffered d)
             (method_no_streaming d)
             ltac:(intros [] ?; split; [assumption | done]).

Lemma buffered_request_headers d (v : Vm) n eos :
  respects (keeps (buffered d) unrelated (no_streaming d))
           (OnHttpRequestHeaders v n eos).
Proof. unfold OnHttpRequestHeaders. destruct d; repeat buffered_step Request;
  repeat buffered_step Response. Qed.

Lemma buffered_response_headers d (v : Vm) n eos :
  respects (keeps (buffered d) unrelated (no_streaming d))
           (OnHttpResponseHeaders v n eos).
Proof. unfold OnHttpResponseHeaders. destruct d; repeat buffered_step Request;
  repeat buffered_step Response. Qed.

Lemma buffered_stream_done d (v : Vm) :
  respects (keeps (buffered d) unrelated (no_streaming d)) (OnHttpStreamDone v).
Proof. unfold OnHttpStreamDone. destruct d; repeat buffered_step Request;
  repeat buffered_step Response. Qed.

Lemma buffered_other_request_body (v : Vm) n eos :
  respects (keeps (buffered Response) unrelated (no_streaming Response))
           (OnHttpRequestBody v n eos).
Proof.
  unfold OnHttpRequestBody, stream_request_body, buffer_request_body.
  repeat buffered_step Response.
Qed.

Lemma buffered_other_response_body (v : Vm) n eos :
  respects (keeps (buffered Request) unrelated (no_streaming Request))
           (OnHttpResponseBody v n eos).
Proof.
  unfold OnHttpResponseBody, stream_response_body, buffer_response_body.
  repeat buffered_step Request.
Qed.

Lemma buffered_request_body (v : Vm) n eos :
  respects (keeps (buffered Request) unrelated (no_streaming Request))
           (OnHttpRequestBody v n eos).
Proof.
  intros s G.
  assert (Hflag : streamingRequestBody (ctx s) = false) by (by apply negb_true_iff).
  assert (Hbuf : forall cfg,
            respects (keeps (buffered Request) unrelated (no_streaming Request))
                     (buffer_request_body v cfg n eos)).
  { intros cfg. unfold buffer_request_body. repeat buffered_step Request. }
  unfold OnHttpRequestBody, mbind, M_bind, bind, get_ctx. rewrite Hflag.
  destruct (config (ctx s)) as [cfg|]; [|by apply (keeps_refl _ _ _ unrelated_refl)].
  destruct (needRequestBody (ctx s)); simpl;
    [|by apply (keeps_refl _ _ _ unrelated_refl)].
  destruct (onHttpStreamingRequestBody v); by apply Hbuf.
Qed.

Lemma buffered_response_body (v : Vm) n eos :
  respects (keeps (buffered Response) unrelated (no_streaming Response))
           (OnHttpResponseBody v n eos).
Proof.
  intros s G.
  assert (Hflag : streamingResponseBody (ctx s) = false) by (by apply negb_true_iff).
  assert (Hbuf : forall cfg,
            respects (keeps (buffered Response) unrelated (no_streaming Response))
                     (buffer_response_body v cfg n eos)).
  { intros cfg. unfold buffer_response_body. repeat buffered_step Response. }
  unfold OnHttpResponseBody, mbind, M_bind, bind, get_ctx. rewrite Hflag.
  destruct (config (ctx s)) as [cfg|]; [|by apply (keeps_refl _ _ _ unrelated_refl)].
  destruct (needResponseBody (ctx s)); simpl;
    [|by apply (keeps_refl _ _ _ unrelated_refl)].
  destruct (onHttpStreamingResponseBody v); by apply Hbuf.
Qed.

Lemma buffered_deliver d (v : Vm) sig :
  respects (keeps (buffered d) unrelated (no_streaming d)) (deliver v sig).
Proof.
  destruct sig; simpl;
    (apply keeps_bind; [exact unrelated_trans | | intros; apply respects_ret;
                        apply keeps_refl; exact unrelated_refl]).
  - apply buffered_request_headers.
  - destruct d; [apply buffered_request_body | apply buffered_other_request_body].
  - apply buffered_response_headers.
  - destruct d; [apply buffered_other_response_body | apply buffered_response_body].
  - apply buffered_stream_done.
Qed.

Lemma buffered_deliver_all d (v : Vm) sigs :
  respects (keeps (buffered d) unrelated (no_streaming d)) (deliver_all v sigs).
Proof.
  induction sigs as [|sig sigs IH]; simpl.
  - apply respects_ret, keeps_refl, unrelated_refl.
  - apply keeps_bind; [exact unrelated_trans | apply buffered_deliver |].
    intros a. apply keeps_bind; [exact unrelated_trans | exact IH |].
    intros. apply respects_ret, keeps_refl, unrelated_refl.
Qed.

Lemma body_passes_unbuffered d (v : Vm) n eos (s : State') :
  streamingBody d (ctx s) = false -> onHttpBody d v = None ->
  OnHttpBody d v n eos s = (Returned ActionContinue, s).
Proof.
  intros Hflag Hnone.
  destruct d; simpl in *;
    unfold OnHttpRequestBody, OnHttpResponseBody, buffer_request_body,
      buffer_response_body, mbind, M_bind, bind, get_ctx;
    rewrite Hflag, Hnone;
    destruct (config (ctx s)); try done;
    [destruct (needRequestBody (ctx s)) | destruct (needResponseBody (ctx s))];
    simpl; try done;
    [by destruct (onHttpStreamingRequestBody v)
    | by destruct (onHttpStreamingResponseBody v)].
Qed.

(** X11. From the moment a callback calls [BufferRequestBody] (or
    [BufferResponseBody]) the body of that direction is not streamed: the
    streaming flag is false when the callback ends, whatever else the
    callback does, and through every later signal it stays false and the
    streaming callback of that direction is not called. When no
    whole-body callback is registered for that direction either, every
    later body signal of that direction answers continue and leaves the
    exchange as it is: the body is neither streamed nor buffered. The
    callback and the signals return, unless a callback's own export to
    the log property has panicked on a nil map. *)
Theorem buffer_body_switch (d : Direction) (v : Vm) (lg : Log) {A : Type}
  (k : unit -> Prog A) (sigs : list Signal) (s : State') :
  log v = Some lg ->
  BufferBody d s = (Returned tt, set_ctx (ctx (BufferBody d s).2) s) /\
  streamingBody d (ctx (BufferBody d s).2) = false /\
  exists o s1 l1,
    run (Some lg) (Vis (CallBufferBody d) k) s = (o, s1) /\
    benign o /\
    streamingBody d (ctx s1) = false /\
    events s1 = events s ++ l1 /\
    Forall (fun e => method_event e = true) l1 /\
    exists o2 s2 l2,
      deliver_all v sigs s1 = (o2, s2) /\
      benign o2 /\
      streamingBody d (ctx s2) = false /\
      events s2 = events s1 ++ l2 /\
      Forall (fun e => is_streaming_invoke d e = false) l2 /\
      (onHttpBody d v = None ->
       forall n eos, OnHttpBody d v n eos s2 = (Returned ActionContinue, s2)).
Proof.
  intros Hlog. split; [by destruct d|]. split; [by destruct d|].
  assert (Hexec : exec (Some lg) (CallBufferBody d) s
                  = (Returned tt, (BufferBody d s).2)) by (by destruct d).
  assert (Hoff : streamingBody d (ctx (BufferBody d s).2) = false) by (by destruct d).
  assert (Hev : events (BufferBody d s).2 = events s) by (by destruct d).
  destruct (run_settled lg (k tt) (BufferBody d s).2)
    as (o & s1 & l1 & Erun & Ho & (_ & _ & _ & _ & Hq & Hp) & E1 & F1).
  assert (Hoff1 : streamingBody d (ctx s1) = false).
  { destruct d; simpl in *; auto. }
  exists o, s1, l1. split.
  { simpl. by rewrite (bind_returned _ _ _ _ _ Hexec). }
  split; [exact Ho|].
  split; [exact Hoff1|]. split; [by rewrite E1, Hev|]. split; [exact F1|].
  pose proof (deliver_all_settles v lg sigs Hlog s1) as Hans.
  assert (G1 : buffered d (ctx s1) = true) by (unfold buffered; by rewrite Hoff1).
  destruct (buffered_deliver_all d v sigs s1 G1) as (G2 & _ & l2 & E2 & F2).
  destruct (deliver_all v sigs s1) as [o2 s2] eqn:Ed. simpl in *.
  assert (Hoff2 : streamingBody d (ctx s2) = false) by (by apply negb_true_iff).
  exists o2, s2, l2. split; [done|]. split; [exact Hans|]. split; [exact Hoff2|].
  split; [exact E2|]. split.
  - eapply Forall_impl; [exact F2|]. intros e He. by apply negb_true_iff.
  - intros Hnone n eos. by apply body_passes_unbuffered.
Qed.

(** ** More on the tick scheduler *)

Lemma tick_entries_once (i0 : nat) (fs : list TickEntry') (p : Proc') :
  exists js,
    pevents (tick_entries i0 fs p).2 = pevents p ++ (tick_event <$> js) /\
    StronglySorted lt js /\
    Forall (fun j => (i0 <= j < i0 + length fs)%nat) js /\
    globalOnTickFuncs (tick_entries i0 fs p).2 = globalOnTickFuncs p /\
    length (tick_entries i0 fs p).1 = length fs /\
    forall i e, fs !! i = Some e ->
      exists e', (tick_entries i0 fs p).1 !! i = Some e' /\
        tickPeriod e' = tickPeriod e /\ tickFunc e' = tickFunc e /\
        if decide ((i0 + i)%nat ∈ js) then fires (lastExecuted e') e = true
        else lastExecuted e' = lastExecuted e.
Proof.
  revert i0 p. induction fs as [|e rest IH]; intros i0 p.
  - exists []. simpl. rewrite app_nil_r.
    repeat split; try constructor. intros i e Hi. done.
  - cbn [tick_entries]. destruct (fires (time_Now_UnixMilli (pworld p)).1 e) eqn:Hf.
    + match goal with |- context [tick_entries (S i0) rest ?q] =>
        destruct (IH (S i0) q) as (js & E & Hs & Hr & Hg & Hl & He) end.
      exists (i0 :: js). cbn [fst snd]. split; [|split; [|split; [|split; [|split]]]].
      * rewrite E. cbn [pevents pset_world pemit fmap list_fmap].
        by rewrite <- app_assoc.
      * constructor; [exact Hs|]. eapply Forall_impl; [exact Hr|].
        intros j Hj. simpl in Hj. lia.
      * constructor; [simpl; lia|]. eapply Forall_impl; [exact Hr|].
        intros j Hj. simpl in *. lia.
      * by rewrite Hg.
      * simpl. f_equal. exact Hl.
      * intros [|i] e0 Hi; simpl in Hi.
        -- inversion Hi; subst e0. eexists. split; [reflexivity|].
           split; [done|]. split; [done|].
           rewrite Nat.add_0_r. rewrite decide_True by (by left). exact Hf.
        -- destruct (He i e0 Hi) as (e' & L' & P' & F' & D').
           exists e'. split; [exact L'|]. split; [done|]. split; [done|].
           replace (i0 + S i)%nat with (S i0 + i)%nat by lia.
           destruct (decide ((S i0 + i)%nat ∈ js)) as [Hin|Hout].
           ++ rewrite decide_True by (by right). exact D'.
           ++ rewrite decide_False; [exact D'|].
              intros [Heq|Hin]%elem_of_cons; [lia | done].
    + destruct (IH (S i0) (pset_world (time_Now_UnixMilli (pworld p)).2 p))
        as (js & E & Hs & Hr & Hg & Hl & He).
      exists js. cbn [fst snd]. split; [|split; [|split; [|split; [|split]]]].
      * exact E.
      * exact Hs.
      * eapply Forall_impl; [exact Hr|]. intros j Hj. simpl in *. lia.
      * exact Hg.
      * simpl. f_equal. exact Hl.
      * intros [|i] e0 Hi; simpl in Hi.
        -- inversion Hi; subst e0. exists e. split; [reflexivity|].
           split; [done|]. split; [done|].
           rewrite Nat.add_0_r. rewrite decide_False; [done|].
           intros Hin. rewrite Forall_forall in Hr. specialize (Hr _ Hin). lia.
        -- destruct (He i e0 Hi) as (e' & L' & P' & F' & D').
           exists e'. split; [exact L'|]. split; [done|]. split; [done|].
           by replace (i0 + S i)%nat with (S i0 + i)%nat by lia.
Qed.

(** X12. One tick, on any clock: without tick entries, as in a plugin
    context fresh from [NewPluginContext], [OnTick] does nothing, not
    even read the clock. Otherwise the callbacks that run
    are those of a set of entries, each once, in registration order; the
    number of entries, their periods and their callbacks are as before;
    an entry that has fired has as its new last-fired time a time at
    which it was due, and an entry that has not fired is unchanged. *)
Theorem tick_fires_once_each (pc : PluginCtx) (p : Proc') (v : Vm)
  (contextID : Z) :
  OnTick (NewPluginContext v contextID) p = (NewPluginContext v contextID, p) /\
  match onTickFuncs pc with
  | None => OnTick pc p = (pc, p)
  | Some fs =>
      exists fs' js,
        (OnTick pc p).1 = with_onTickFuncs (Some fs') pc /\
        pevents (OnTick pc p).2 = pevents p ++ (tick_event <$> js) /\
        StronglySorted lt js /\
        Forall (fun j => (j < length fs)%nat) js /\
        globalOnTickFuncs (OnTick pc p).2 = globalOnTickFuncs p /\
        length fs' = length fs /\
        forall i e, fs !! i = Some e ->
          exists e', fs' !! i = Some e' /\
            tickPeriod e' = tickPeriod e /\ tickFunc e' = tickFunc e /\
            if decide (i ∈ js) then fires (lastExecuted e') e = true
            else lastExecuted e' = lastExecuted e
  end.
Proof.
  split; [done|].
  destruct (onTickFuncs pc) as [fs|] eqn:Hfs.
  - rewrite (OnTick_entries pc fs p Hfs). cbn [fst snd].
    destruct (tick_entries_once 0 fs p) as (js & E & Hs & Hr & Hg & Hl & He).
    exists (tick_entries 0 fs p).1, js.
    split; [done|]. split; [exact E|]. split; [exact Hs|]. split.
    { eapply Forall_impl; [exact Hr|]. intros j Hj. simpl in Hj. lia. }
    split; [exact Hg|]. split; [exact Hl|]. exact He.
  - unfold OnTick. by rewrite Hfs.
Qed.



(** ** More on plugin start *)

Lemma start_forgets_staged (pc : PluginCtx) (p : Proc') staged :
  OnPluginStart pc (pset_global staged p) = OnPluginStart pc p.
Proof.
  unfold OnPluginStart, pcall. cbn [pworld pset_global].
  by destruct (GetPluginConfiguration (pworld p)) as [[data err] w].
Qed.

Lemma start_unfold (pc : PluginCtx) lg (p : Proc') :
  log (vm pc) = Some lg ->
  OnPluginStart pc p =
  if read_failed (read_error p) then
    (Returned OnPluginStartStatusFailed, pc,
     pemit (EvLog LvlCritical
              ("error reading plugin configuration: " +:+ default "" (read_error p)))
           (after_read p))
  else if decide (raw_configuration p = "") then
    start_rules pc (start_json p) (before_build pc p)
  else if negb (gjson_ValidBytes (raw_configuration p)) then
    (Returned OnPluginStartStatusFailed, pc,
     pemit (EvLog LvlWarn
              ("the plugin configuration is not a valid json: " +:+
               raw_configuration p))
           (after_read p))
  else start_rules pc (start_json p) (before_build pc p).
Proof.
  intros Hlog.
  unfold OnPluginStart, before_build, start_json, raw_configuration, read_error,
    after_read, start_read, fail_with, plog_then.
  rewrite Hlog.
  destruct (pcall OpGetPluginConfiguration GetPluginConfiguration p)
    as [[data err] p1]. cbn [fst snd].
  destruct (read_failed err); [done|].
  destruct (decide (data = "")); [by destruct (hasCustomConfig (vm pc))|].
  by destruct (gjson_ValidBytes data).
Qed.

Lemma start_rules_ticks (pc : PluginCtx) lg json (p0 : Proc') :
  log (vm pc) = Some lg ->
  let b := ParseRuleConfig json (global_parser pc) (override_parser pc)
                           (pemit (EvHost OpParseRuleConfig) p0) in
  (forall msg, b.1 <> Panicked msg) ->
  exists st pc' p',
    start_rules pc json p0 = (Returned st, pc', p') /\
    vm pc' = vm pc /\
    match b.1, globalOnTickFuncs b.2 with
    | Returned None, Some fs =>
        onTickFuncs pc' = Some fs /\
        exists l,
          pevents p' = pevents b.2 ++ EvHost (OpSetTickPeriodMilliSeconds 100) :: l /\
          (st = OnPluginStartStatusOK <-> l = [])
    | _, _ =>
        onTickFuncs pc' = onTickFuncs pc /\
        exists l, pevents p' = pevents b.2 ++ l /\
                  Forall (fun e => is_log e = true) l
    end.
Proof.
  intros Hlog b Hnp. subst b. unfold start_rules, fail_with, plog_then.
  rewrite Hlog.
  destruct (ParseRuleConfig json (global_parser pc) (override_parser pc)
              (pemit (EvHost OpParseRuleConfig) p0)) as [[[e|]|msg] p1];
    cbn [fst snd] in *.
  - eexists _, _, _. split; [reflexivity|]. split; [done|].
    assert (Hgoal : onTickFuncs pc = onTickFuncs pc /\
              exists l, pevents (pemit (EvLog LvlWarn
                                   ("parse rule config failed: " +:+ e)) p1)
                        = pevents p1 ++ l /\
                        Forall (fun e => is_log e = true) l).
    { split; [done|]. eexists. split; [reflexivity|]. by repeat constructor. }
    by destruct (globalOnTickFuncs p1).
  - destruct (globalOnTickFuncs p1) as [fs|].
    + unfold pcall. cbn [pworld pemit pset_world].
      destruct (SetTickPeriodMilliSeconds 100 (pworld p1)) as [[e|] w]; cbn [fst snd].
      * eexists _, _, _. split; [reflexivity|]. split; [done|]. split; [done|].
        exists [EvLog LvlError
                  "SetTickPeriodMilliSeconds failed, onTick functions will not take effect."].
        cbn [pevents pemit pset_world]. rewrite <- app_assoc.
        split; [reflexivity|]. done.
      * eexists _, _, _. split; [reflexivity|]. split; [done|]. split; [done|].
        exists []. done.
    + eexists _, _, _. split; [reflexivity|]. split; [done|]. split; [done|].
      exists []. rewrite app_nil_r. split; [done | constructor].
  - by destruct (Hnp msg).
Qed.

(** X14. Plugin start and the tick entries. Whatever was staged with
    [RegisteTickFunc] before start is dropped. With a logger installed and
    a rule-set build that returns: start leaves the plugin-wide context
    as it is; when it fails before the build (the read fails, or the bytes
    are not valid JSON) the tick entries of the plugin are untouched and
    the staging area is nil; when the build succeeds and has staged tick
    entries, the plugin takes exactly these entries and the timer is
    armed, with period 100, right after the build, and the plugin keeps
    the entries even when arming fails and start reports failed; when the
    build fails or stages nothing, the tick entries of the plugin are
    untouched and no host call follows the build. *)
Theorem start_installs_ticks (pc : PluginCtx) (lg : Log) (p : Proc') :
  log (vm pc) = Some lg ->
  (forall msg, (build pc p).1 <> Panicked msg) ->
  exists st pc' p',
    OnPluginStart pc p = (Returned st, pc', p') /\
    (forall staged,
       OnPluginStart pc (pset_global staged p) = (Returned st, pc', p')) /\
    vm pc' = vm pc /\
    (read_fails p \/ malformed p ->
       onTickFuncs pc' = onTickFuncs pc /\ globalOnTickFuncs p' = None) /\
    (~ read_fails p -> ~ malformed p ->
       match (build pc p).1, globalOnTickFuncs (build pc p).2 with
       | Returned None, Some fs =>
           onTickFuncs pc' = Some fs /\
           exists l,
             pevents p' = pevents (build pc p).2 ++
                          EvHost (OpSetTickPeriodMilliSeconds 100) :: l /\
             (st = OnPluginStartStatusOK <-> l = [])
       | _, _ =>
           onTickFuncs pc' = onTickFuncs pc /\
           exists l, pevents p' = pevents (build pc p).2 ++ l /\
                     Forall (fun e => is_log e = true) l
       end).
Proof.
  intros Hlog Hnp.
  destruct (start_rules_ticks pc lg (start_json p) (before_build pc p) Hlog Hnp)
    as (st & pc' & p' & E & Hvm & Hticks).
  fold (build pc p) in Hticks.
  pose proof (start_unfold pc lg p Hlog) as Hu.
  assert (Hstaged : forall r, OnPluginStart pc p = r ->
            forall staged, OnPluginStart pc (pset_global staged p) = r).
  { intros r Hr staged. by rewrite start_forgets_staged. }
  unfold read_fails, malformed.
  destruct (read_failed (read_error p)) eqn:Hread.
  { eexists _, _, _. split; [exact Hu|]. split; [by apply Hstaged|].
    split; [done|]. split; [done|]. intros H. by destruct H. }
  destruct (decide (raw_configuration p = "")) as [Hd|Hd].
  { rewrite E in Hu. exists st, pc', p'. split; [exact Hu|].
    split; [by apply Hstaged|]. split; [exact Hvm|]. split.
    - intros [?|[? _]]; done.
    - intros _ _. exact Hticks. }
  destruct (gjson_ValidBytes (raw_configuration p)) eqn:Hv; cbn [negb] in Hu.
  - rewrite E in Hu. exists st, pc', p'. split; [exact Hu|].
    split; [by apply Hstaged|]. split; [exact Hvm|]. split.
    + intros [?|[_ ?]]; done.
    + intros _ _. exact Hticks.
  - eexists _, _, _. split; [exact Hu|]. split; [by apply Hstaged|].
    split; [done|]. split; [done|]. intros _ H. destruct H. by split.
Qed.

Lemma register_all_app rs r (p : Proc') :
  register_all (rs ++ [r]) p = RegisteTickFunc r.1 r.2 (register_all rs p).
Proof. unfold register_all. by rewrite foldl_app. Qed.

Lemma register_all_staged rs (p : Proc') :
  rs <> [] ->
  globalOnTickFuncs (register_all rs p)
  = Some (default [] (globalOnTickFuncs p) ++ (new_entry <$> rs)).
Proof.
  induction rs as [|r rs IH] using rev_ind; [done|]. intros _.
  rewrite register_all_app. cbn [RegisteTickFunc globalOnTickFuncs].
  destruct rs as [|r0 rs0]; [done|].
  rewrite IH by done. cbn [default]. by rewrite fmap_app, app_assoc.
Qed.

(** X15. Calls of [RegisteTickFunc] stage their entries in the order of
    the calls, behind what is staged already, each with its period, its
    callback and last-fired time 0; a call on a nil staging area makes it
    non-nil; the world and the trace are not touched. *)
Theorem registration_order (rs : list (Z * (World -> World))) (p : Proc') :
  globalOnTickFuncs (register_all rs p) =
    match rs with
    | [] => globalOnTickFuncs p
    | _ => Some (default [] (globalOnTickFuncs p) ++ (new_entry <$> rs))
    end /\
  pworld (register_all rs p) = pworld p /\
  pevents (register_all rs p) = pevents p /\
  forall period f, globalOnTickFuncs (RegisteTickFunc period f p) <> None.
Proof.
  split; [|split; [|split]]; [| | |done].
  - destruct rs as [|r0 rs0]; [done|]. by apply register_all_staged.
  - induction rs as [|r rs IH] using rev_ind; [done|].
    by rewrite register_all_app.
  - induction rs as [|r rs IH] using rev_ind; [done|].
    by rewrite register_all_app.
Qed.

(** ** More on the construction of the plugin-wide context *)

Lemma last_of_cons {X} (sel : CtxOption -> option X) init o options :
  last_of sel init (o :: options) = last_of sel (default init (sel o)) options.
Proof. reflexivity. Qed.

Lemma last_of_skip {X} (sel : CtxOption -> option X) (skip : CtxOption -> bool)
  init options :
  Forall (fun o => skip o = true) options ->
  (forall o, skip o = true -> sel o = None) ->
  last_of sel init options = init.
Proof.
  intros Hall Hsel. induction Hall as [|o options Ho _ IH]; [done|].
  by rewrite last_of_cons, (Hsel o Ho).
Qed.

Lemma fold_fields (options : list CtxOption) (c0 : Vm) :
  let c := foldl (fun c opt => Apply opt c) c0 options in
  pluginName c = pluginName c0 /\
  hasCustomConfig c = hasCustomConfig c0 /\
  parseConfig c = last_of parser_of (parseConfig c0) options /\
  log c = last_of logger_of (log c0) options /\
  parseRuleConfig c = last_of rule_parser_of (parseRuleConfig c0) options /\
  onHttpRequestHeaders c = last_of request_headers_of (onHttpRequestHeaders c0) options /\
  onHttpRequestBody c = last_of request_body_of (onHttpRequestBody c0) options /\
  onHttpStreamingRequestBody c
    = last_of streaming_request_body_of (onHttpStreamingRequestBody c0) options /\
  onHttpResponseHeaders c
    = last_of response_headers_of (onHttpResponseHeaders c0) options /\
  onHttpResponseBody c = last_of response_body_of (onHttpResponseBody c0) options /\
  onHttpStreamingResponseBody c
    = last_of streaming_response_body_of (onHttpStreamingResponseBody c0) options /\
  onHttpStreamDone c = last_of stream_done_of (onHttpStreamDone c0) options.
Proof.
  revert c0. induction options as [|o options IH]; intros c0.
  - by repeat split.
  - cbn [foldl]. rewrite !last_of_cons.
    destruct (IH (Apply o c0)) as (H1 & H2 & H3 & H4 & H5 & H6 & H7 & H8 & H9 & H10 & H11 & H12).
    cbv zeta. rewrite H1, H2, H3, H4, H5, H6, H7, H8, H9, H10, H11, H12.
    by destruct o.
Qed.

Lemma constructed_with (sizeof_PluginConfig : Z) (name : string)
  (logger : option Log) (pre options : list CtxOption) :
  last_of logger_of None pre = logger ->
  Forall (fun o => is_logger_option o = true) pre ->
  constructed sizeof_PluginConfig name logger options
    (NewCommonVmCtxWithOptions sizeof_PluginConfig name (pre ++ options)).
Proof.
  intros Hlogger Hpre. unfold constructed, NewCommonVmCtxWithOptions.
  rewrite foldl_app.
  match goal with |- context [foldl _ (foldl ?f ?c0 pre) options] =>
    set (c1 := foldl f c0 pre) end.
  pose proof (fold_fields pre
    {| pluginName := name; log := None; hasCustomConfig := true;
       parseConfig := None; parseRuleConfig := None;
       onHttpRequestHeaders := None; onHttpRequestBody := None;
       onHttpStreamingRequestBody := None;
       onHttpResponseHeaders := None; onHttpResponseBody := None;
       onHttpStreamingResponseBody := None; onHttpStreamDone := None |}) as Hc1.
  cbv zeta in Hc1. fold c1 in Hc1. cbn [pluginName log hasCustomConfig parseConfig
    parseRuleConfig onHttpRequestHeaders onHttpRequestBody
    onHttpStreamingRequestBody onHttpResponseHeaders onHttpResponseBody
    onHttpStreamingResponseBody onHttpStreamDone] in Hc1.
  rewrite Hlogger in Hc1.
  rewrite !(last_of_skip _ is_logger_option None pre Hpre) in Hc1 by (by intros []).
  destruct Hc1 as (P1 & P2 & P3 & P4 & P5 & P6 & P7 & P8 & P9 & P10 & P11 & P12).
  destruct (fold_fields options c1)
    as (H1 & H2 & H3 & H4 & H5 & H6 & H7 & H8 & H9 & H10 & H11 & H12).
  rewrite P1 in H1. rewrite P2 in H2. rewrite P3 in H3. rewrite P4 in H4.
  rewrite P5 in H5. rewrite P6 in H6. rewrite P7 in H7. rewrite P8 in H8.
  rewrite P9 in H9. rewrite P10 in H10. rewrite P11 in H11. rewrite P12 in H12.
  set (c := foldl (fun c opt => Apply opt c) c1 options) in *.
  rewrite H3. destruct (last_of parser_of None options) as [f|].
  - exists c. by repeat split.
  - rewrite H4. destruct (decide (sizeof_PluginConfig = 0)) as [Hz|Hz].
    + rewrite decide_False by (intros H; by apply H).
      eexists. split; [reflexivity|]. by repeat split.
    + rewrite decide_True by done. fold missing_parser.
      by destruct (last_of logger_of logger options).
Qed.

(** X16. The options of the plugin-wide context are applied in order, so
    for every field the last option that writes it wins, an option that
    supplies nil included; [ParseOverrideConfigBy] writes both parsers.
    [NewCommonVmCtxWithOptions] starts without a logger and
    [NewCommonVmCtx] with the default logger of the plugin name, which a
    [WithLogger] option among the options replaces. With a parser from
    the options the construction returns a context with that parser and
    the has-custom-config flag set, whatever the size of the
    configuration type; without one it returns a context with the no-op
    parser for a configuration type of size zero, and panics otherwise. *)
Theorem options_last_wins (sizeof_PluginConfig : Z) (name : string)
  (options : list (@CtxOption PluginConfig Value World Json)) :
  constructed sizeof_PluginConfig name None options
    (NewCommonVmCtxWithOptions sizeof_PluginConfig name options) /\
  constructed sizeof_PluginConfig name (Some (DefaultLog name)) options
    (NewCommonVmCtx sizeof_PluginConfig name options).
Proof.
  split.
  - by apply (constructed_with sizeof_PluginConfig name None [] options).
  - apply (constructed_with sizeof_PluginConfig name (Some (DefaultLog name))
             [WithLogger (Some (DefaultLog name))] options); [done|].
    by repeat constructor.
Qed.

(** X17. The diagnostics of the wrapper need a logger. When
    [NewCommonVmCtxWithOptions] gets neither a parser for a configuration
    type of non-zero size nor a logger, it panics on the nil logger and
    the message about the missing parser is never logged; with the
    default logger of [NewCommonVmCtx] the message is logged and is the
    panic. And in an exchange of a context without logger, a
    request-header phase in which the matcher fails does not answer
    continue: it panics on the nil logger, right after the matcher has
    answered, and a failed fetch of a buffered body does the same. *)
Theorem diagnostics_need_logger (sizeof_PluginConfig : Z) (name : string)
  (options : list (@CtxOption PluginConfig Value World Json)) (v : Vm)
  n eos (s : State') :
  (sizeof_PluginConfig <> 0 ->
   Forall (fun o => is_parser_option o = false) options ->
   Forall (fun o => is_logger_option o = false) options ->
   NewCommonVmCtxWithOptions sizeof_PluginConfig name options
     = (Panicked nil_dereference, []) /\
   NewCommonVmCtx sizeof_PluginConfig name options
     = (Panicked missing_parser, [EvLog LvlCritical missing_parser])) /\
  (log v = None ->
   (forall e, (match_answer s).2 = Some e ->
      OnHttpRequestHeaders v n eos s = (Panicked nil_dereference, after_match s)) /\
   (forall d f cfg e,
      config (ctx s) = Some cfg -> needBody d (ctx s) = true ->
      streamingBody d (ctx s) = false -> onHttpBody d v = Some f ->
      (GetHttpBody d 0 (int_add (bodySizeOf d (ctx s)) n) (world s)).1.2 = Some e ->
      (OnHttpBody d v n true s).1 = Panicked nil_dereference)).
Proof.
  split.
  - intros Hsize Hp Hl.
    assert (Hp' : Forall (fun o => negb (is_parser_option o) = true) options).
    { eapply Forall_impl; [exact Hp|]. intros o Ho. simpl in Ho. by rewrite Ho. }
    assert (Hl' : Forall (fun o => negb (is_logger_option o) = true) options).
    { eapply Forall_impl; [exact Hl|]. intros o Ho. simpl in Ho. by rewrite Ho. }
    pose proof (constructed_with sizeof_PluginConfig name None [] options
                  eq_refl ltac:(constructor)) as H1.
    pose proof (constructed_with sizeof_PluginConfig name (Some (DefaultLog name))
                  [WithLogger (Some (DefaultLog name))] options
                  eq_refl ltac:(by repeat constructor)) as H2.
    unfold constructed in H1, H2.
    rewrite (last_of_skip parser_of _ None options Hp') in H1, H2 by (by intros []).
    rewrite (last_of_skip logger_of _ _ options Hl') in H1 by (by intros []).
    rewrite (last_of_skip logger_of _ _ options Hl') in H2 by (by intros []).
    rewrite decide_False in H1, H2 by done. done.
  - intros Hlog. split.
    + intros e He. rewrite request_headers_unfold, He, Hlog. reflexivity.
    + intros d f cfg e Hcfg Hneed Hstream Hf Hfetch.
      destruct d; simpl in *;
        unfold OnHttpRequestBody, OnHttpResponseBody, buffer_request_body,
          buffer_response_body, mbind, M_bind, bind, get_ctx, modify_ctx, call;
        rewrite Hcfg, Hneed, Hstream, Hf, Hlog; simpl;
        [destruct (onHttpStreamingRequestBody v)
        | destruct (onHttpStreamingResponseBody v)];
        simpl;
        match goal with
        | H : (?g _ _ ?w).1.2 = Some _ |- context [?g' _ _ ?w'] =>
            destruct (g' 0 (int_add _ n) w') as [[body err] w1] eqn:E
        end; simpl in *; subst; reflexivity.
Qed.

(** ** The request metadata *)

(** X18. [Scheme], [Host], [Path] and [Method] read the metadata of their
    own exchange: in every state an exchange reaches from its creation,
    each of them first makes the context id given at creation the
    effective context of the host, then reads the value, and leaves the
    exchange context as it is. *)
Theorem request_metadata_of_own_exchange (pc : PluginCtx) (contextID0 : Z)
  (w : World) (sigs : list Signal) :
  let s0 := {| ctx := NewHttpContext pc contextID0; world := w; events := [] |} in
  let s := (deliver_all (vm pc) sigs s0).2 in
  let own := SetEffectiveContext contextID0 (world s) in
  let asked op :=
    emit (EvHost op)
         (set_world own (emit (EvHost (OpSetEffectiveContext contextID0)) s)) in
  Scheme s = (Returned (GetRequestScheme own).1,
              set_world (GetRequestScheme own).2 (asked OpGetRequestScheme)) /\
  Host s = (Returned (GetRequestHost own).1,
            set_world (GetRequestHost own).2 (asked OpGetRequestHost)) /\
  Path s = (Returned (GetRequestPath own).1,
            set_world (GetRequestPath own).2 (asked OpGetRequestPath)) /\
  Method s = (Returned (GetRequestMethod own).1,
              set_world (GetRequestMethod own).2 (asked OpGetRequestMethod)).
Proof.
  intros s0 s own asked.
  assert (Hid : contextID (ctx s) = contextID0).
  { by destruct (lowered_deliver_all (vm pc) sigs s0 eq_refl) as (_ & (Hid & _) & _). }
  subst asked own.
  unfold Scheme, Host, Path, Method, mbind, M_bind, bind, get_ctx, call.
  rewrite Hid. cbn [fst snd world set_world emit].
  repeat split.
  - by destruct (GetRequestScheme (SetEffectiveContext contextID0 (world s))).
  - by destruct (GetRequestHost (SetEffectiveContext contextID0 (world s))).
  - by destruct (GetRequestPath (SetEffectiveContext contextID0 (world s))).
  - by destruct (GetRequestMethod (SetEffectiveContext contextID0 (world s))).
Qed.

End Properties.

(** * The properties on the concrete world *)

Module Witnesses.
Import Sim Demo.

Abbreviation Vm := (@CommonVmCtx string string Sim.World string).
Abbreviation PluginCtx := (@CommonPluginCtx string string Sim.World string).
Abbreviation State := (St string string Sim.World).
Abbreviation Proc := (Process string Sim.World).

(** An exchange no rule matches, with every callback registered. *)
Lemma unmatched_exchange_witness :
  let s := fresh vm_all world_with_bodies in
  log vm_all = Some logger /\
  config (ctx s) = None /\
  ((match_answer (Json := string) s).2 <> None \/
   (match_answer (Json := string) s).1 = None) /\
  Forall (fun sig => is_request_headers sig = false) later_signals /\
  exists s1,
    OnHttpRequestHeaders vm_all 3 false s = (Returned ActionContinue, s1) /\
    config (ctx s1) = None /\
    filter (fun e => is_invoke e = true) (events s1)
      = filter (fun e => is_invoke e = true) (events s) /\
    deliver_all vm_all later_signals s1
      = (Returned [Some ActionContinue; Some ActionContinue;
                   Some ActionContinue; None], s1).
Proof.
  assert (H3 : (match_answer (Json := string) (fresh vm_all world_with_bodies)).2 <> None \/
               (match_answer (Json := string) (fresh vm_all world_with_bodies)).1 = None)
    by (right; reflexivity).
  assert (H4 : Forall (fun sig => is_request_headers sig = false) later_signals)
    by (repeat constructor).
  split; [reflexivity|]. split; [reflexivity|]. split; [exact H3|].
  split; [exact H4|].
  exact (unmatched_exchange_passes_through vm_all logger 3 false
           (fresh vm_all world_with_bodies) later_signals
           eq_refl eq_refl H3 H4).
Defined.

(** A buffered request body: two signals of 5 and 6 bytes. *)
Lemma whole_body_delivery_witness :
  let s := matched vm_whole world_matching in
  let s5 := set_ctx (with_requestBodySize 5 (ctx s)) s in
  (log vm_whole = Some logger /\ config (ctx s5) = Some "R" /\
   needBody Request (ctx s5) = true /\ streamingBody Request (ctx s5) = false /\
   onHttpBody Request vm_whole = Some mark_body /\
   0 <= bodySizeOf Request (ctx s5)) /\
  OnHttpRequestBody vm_whole 5 false s = (Returned ActionPause, s5) /\
  exists a s' l,
    OnHttpRequestBody vm_whole 6 true s5 = (Returned a, s') /\
    events s' = events s5 ++
                EvHost (OpGetHttpRequestBody 0 11) ::
                EvInvoke (InvRequestBody "R" "hello world") :: l /\
    Forall (fun e => quiet e = true) l.
Proof.
  simpl.
  assert (H6 : 0 <= 5) by lia.
  destruct (whole_body_delivery Request vm_whole logger mark_body "R"
              (matched vm_whole world_matching)
              eq_refl eq_refl eq_refl eq_refl eq_refl (Z.le_refl 0))
    as (Hpause & _ & _).
  destruct (whole_body_delivery Request vm_whole logger mark_body "R"
              (set_ctx (with_requestBodySize 5 (ctx (matched vm_whole world_matching)))
                 (matched vm_whole world_matching))
              eq_refl eq_refl eq_refl eq_refl eq_refl H6)
    as (_ & _ & Hlast).
  split; [by repeat split|]. split.
  - exact (Hpause 5 ltac:(lia) ltac:(reflexivity)).
  - destruct (proj2 (Hlast 6 ltac:(lia) ltac:(reflexivity)))
      as ([a|msg] & s' & l & E & _ & El & Fl).
    + by exists a, s', l.
    + vm_compute in E. discriminate E.
Defined.

(** A streamed request body: one signal of 5 bytes. *)
Lemma streaming_body_delivery_witness :
  let s := matched vm_all world_matching in
  (log vm_all = Some logger /\ config (ctx s) = Some "R" /\
   needBody Request (ctx s) = true /\ streamingBody Request (ctx s) = true /\
   onHttpStreamingBody Request vm_all = Some upper_chunk) /\
  exists modified s2 l,
    run (Some logger) (upper_chunk "R" "hello" false)
        (emit (EvInvoke (InvStreamingRequestBody "R" "hello" false))
              (emit (EvHost (OpGetHttpRequestBody 0 5)) s))
      = (Returned modified, s2) /\
    events s2 = events s ++
                EvHost (OpGetHttpRequestBody 0 5) ::
                EvInvoke (InvStreamingRequestBody "R" "hello" false) :: l /\
    Forall (fun e => quiet e = true) l /\
    let rep := ReplaceHttpRequestBody modified (world s2) in
    let s3 := set_world rep.2 (emit (EvHost (OpReplaceHttpRequestBody modified)) s2) in
    OnHttpRequestBody vm_all 5 false s =
    (Returned ActionContinue,
     match rep.1 with
     | Some e =>
         emit (EvLog LvlWarn ("replace request body chunk failed: " +:+ e)) s3
     | None => s3
     end).
Proof.
  cbv zeta. split; [by repeat split|].
  destruct (streaming_body_delivery Request vm_all logger upper_chunk "R" 5 false
              (matched vm_all world_matching)
              eq_refl eq_refl eq_refl eq_refl eq_refl)
    as ([modified|msg] & s2 & l & E & El & Fl & H).
  - by exists modified, s2, l.
  - vm_compute in E. discriminate E.
Defined.

Lemma sim_range_enumerates : range_enumerates (Value := string).
Proof. intros m. reflexivity. Qed.

Lemma sim_property_store : property_store (World := Sim.World).
Proof.
  split.
  - intros path w. simpl. by destruct (props w !! path).
  - intros path x w w' E. simpl in *.
    destruct (bool_decide (path ∈ readonly_props w)); [discriminate|].
    inversion E; subst. simpl. by rewrite lookup_insert_eq.
Qed.

(** Two exports to an absent log property, with accumulators
    [{'a':'1'}] and then [{'b':'2'}], and the second one repeated. *)
Lemma log_export_witness :
  let s := with_attributes attrs_a (matched vm_all world_matching) in
  let s1 := (WriteUserAttributeToLogWithKey (Some logger) CustomLogKey s).2 in
  let s2 := (WriteUserAttributeToLogWithKey (Some logger) CustomLogKey
               (with_attributes attrs_b s1)).2 in
  let s3 := (WriteUserAttributeToLogWithKey (Some logger) CustomLogKey s2).2 in
  range_enumerates (Value := string) /\
  prior_value CustomLogKey s = "" /\
  props (world s1) !! [CustomLogKey]
    = Some (sim_marshalStr (json_text "{'a':'1'}")) /\
  WriteUserAttributeToLogWithKey (Some logger) CustomLogKey (with_attributes attrs_b s1)
    = store_merged CustomLogKey (Some (attrs_b ∪ attrs_a))
                   (after_get CustomLogKey (with_attributes attrs_b s1)) /\
  props (world s2) !! [CustomLogKey]
    = Some (sim_marshalStr (json_text "{'a':'1','b':'2'}")) /\
  props (world s3) !! [CustomLogKey] = props (world s2) !! [CustomLogKey].
Proof.
  pose proof (log_export_merges logger CustomLogKey
                (with_attributes attrs_a (matched vm_all world_matching))
                sim_range_enumerates) as (_ & _ & _ & _ & _ & Hnext).
  cbv zeta. split; [exact sim_range_enumerates|].
  split; [reflexivity|]. split; [vm_compute; reflexivity|]. split.
  - assert (Hfirst :
      WriteUserAttributeToLogWithKey (Some logger) CustomLogKey
        (with_attributes attrs_a (matched vm_all world_matching))
      = (Returned None,
         (WriteUserAttributeToLogWithKey (Some logger) CustomLogKey
            (with_attributes attrs_a (matched vm_all world_matching))).2))
      by (vm_compute; reflexivity).
    assert (Hm : merged_object CustomLogKey
                   (with_attributes attrs_a (matched vm_all world_matching))
                 = Some attrs_a) by (vm_compute; reflexivity).
    assert (Hrt : round_trips attrs_a)
      by (split; [vm_compute; discriminate | vm_compute; reflexivity]).
    exact (proj1 (Hnext sim_property_store _ attrs_a Hfirst Hm Hrt
                    (with_attributes attrs_b
                       (WriteUserAttributeToLogWithKey (Some logger) CustomLogKey
                          (with_attributes attrs_a (matched vm_all world_matching))).2)
                    eq_refl)).
  - split; vm_compute; reflexivity.
Defined.

(** An export of the accumulator [{'a':'1'}] to a log property that holds
    a JSON null. *)
Lemma log_export_null_prior_witness :
  let s := with_attributes attrs_a (matched vm_export world_null_log) in
  (range_enumerates (Value := string) /\
   prior_value CustomLogKey s = "null" /\
   parse_prior (World := Sim.World) "null" = (None, None) /\
   userAttribute (ctx s) <> ∅) /\
  WriteUserAttributeToLogWithKey (Some logger) CustomLogKey s =
  (Panicked nil_map_assignment, after_get CustomLogKey s) /\
  props (world (after_get CustomLogKey s)) !! [CustomLogKey] = Some "null".
Proof.
  assert (Hp : prior_value CustomLogKey
                 (with_attributes attrs_a (matched vm_export world_null_log))
               <> "") by (vm_compute; discriminate).
  assert (Hn : parse_prior
                 (prior_value CustomLogKey
                    (with_attributes attrs_a (matched vm_export world_null_log)))
               = (None, None)) by (vm_compute; reflexivity).
  assert (Ha : userAttribute
                 (ctx (with_attributes attrs_a (matched vm_export world_null_log)))
               <> ∅) by (vm_compute; discriminate).
  cbv zeta. split; [|split].
  - split; [exact sim_range_enumerates|]. split; [vm_compute; reflexivity|].
    split; [vm_compute; reflexivity | exact Ha].
  - exact (log_export_null_prior logger CustomLogKey
             (with_attributes attrs_a (matched vm_export world_null_log))
             sim_range_enumerates Hp Hn Ha).
  - vm_compute. reflexivity.
Defined.

(** The request-header phase of an exchange whose callback exports to a
    log property holding a JSON null: the handler panics, and the
    property still holds the null. *)
Example null_log_panics_handler :
  let r := OnHttpRequestHeaders vm_export 3 false (fresh vm_export world_null_log) in
  r.1 = Panicked nil_map_assignment /\
  props (world r.2) !! [CustomLogKey] = Some "null" /\
  events r.2 =
    [EvHost (OpGetHttpRequestHeader "x-request-id");
     EvHost (OpSetProperty ["x_request_id"] "");
     EvHost OpGetMatchConfig;
     EvHost OpIsBinaryRequestBody;
     EvInvoke (InvRequestHeaders "R");
     EvHost (OpGetProperty [CustomLogKey])].
Proof. vm_compute. repeat split. Qed.

Lemma sim_steady_clock : steady_clock advance100 100 [one_second_entry].
Proof.
  unfold steady_clock. split; [|split].
  - intros w. reflexivity.
  - intros w. reflexivity.
  - constructor; [|constructor]. intros w. reflexivity.
Qed.

(** One entry of period 1000 registered by the parser, ticks every 100:
    25 ticks, elapsed time 2500. *)
Lemma tick_schedule_witness :
  (onTickFuncs started_plugin = Some [one_second_entry] /\
   steady_clock advance100 100 [one_second_entry] /\
   now (pworld started_process) = 1700000000000 /\
   0 < 100 /\ 0 <= 1700000000000 /\
   1700000000000 + Z.of_nat 25 * 100 < 2 ^ 63 /\
   Forall (fun e => lastExecuted e = 0 /\
                    (exists k, 1 <= k /\ tickPeriod e = k * 100) /\
                    tickPeriod e <= 1700000000000 + 100) [one_second_entry]) /\
  Z.of_nat (fired 0 (run_ticks advance100 25 started_plugin started_process).2) = 3.
Proof.
  assert (H1 : onTickFuncs started_plugin = Some [one_second_entry]) by reflexivity.
  assert (H3 : now (pworld started_process) = 1700000000000) by reflexivity.
  assert (H4 : 0 < 100) by lia.
  assert (H5 : 0 <= 1700000000000) by lia.
  assert (H6 : 1700000000000 + Z.of_nat 25 * 100 < 2 ^ 63) by (vm_compute; reflexivity).
  assert (H7 : Forall (fun e => lastExecuted e = 0 /\
                    (exists k, 1 <= k /\ tickPeriod e = k * 100) /\
                    tickPeriod e <= 1700000000000 + 100) [one_second_entry]).
  { constructor; [|constructor]. split; [reflexivity|]. split.
    - exists 10. split; [lia | reflexivity].
    - vm_compute. discriminate. }
  split;
    [exact (conj H1 (conj sim_steady_clock (conj H3 (conj H4 (conj H5 (conj H6 H7))))))|].
  exact (proj2 (tick_schedule advance100 100 1700000000000 started_plugin
                  [one_second_entry] started_process 25
                  H1 sim_steady_clock H3 H4 H5 H6 H7)
               0%nat one_second_entry eq_refl).
Defined.

(** After one tick, elapsed time 100, the entry of period 1000 has fired
    once, not [100 / 1000 = 0] times. *)
Lemma tick_fairness_counterexample :
  onTickFuncs started_plugin = Some [one_second_entry] /\
  tickPeriod one_second_entry = 10 * 100 /\
  fired 0 started_process = 0%nat /\
  Z.of_nat (fired 0 (run_ticks advance100 1 started_plugin started_process).2)
  <> (Z.of_nat 1 * 100) / tickPeriod one_second_entry.
Proof. repeat split; vm_compute; discriminate. Qed.

Lemma sim_build_returns msg : (build (plugin vm_all) process0).1 <> Panicked msg.
Proof. discriminate. Qed.

(** Start with an empty configuration and a parser that accepts it. *)
Lemma start_status_witness :
  (log (vm (plugin vm_all)) = Some logger /\
   forall msg, (build (plugin vm_all) process0).1 <> Panicked msg) /\
  exists st,
    (OnPluginStart (plugin vm_all) process0).1.1 = Returned st /\
    (st = OnPluginStartStatusFailed <->
       read_fails process0 \/ malformed process0 \/
       build_fails (plugin vm_all) process0 \/
       arming_fails (plugin vm_all) process0) /\
    (st = OnPluginStartStatusOK <->
       ~ build_fails (plugin vm_all) process0 /\
       ~ arming_fails (plugin vm_all) process0).
Proof.
  assert (H2 : forall msg, (build (plugin vm_all) process0).1 <> Panicked msg)
    by exact sim_build_returns.
  split; [by split|].
  destruct (start_status (plugin vm_all) logger process0 eq_refl H2)
    as (st & pc' & p' & E & Hfail & _ & Hempty).
  exists st. rewrite E. split; [reflexivity|]. split; [exact Hfail|].
  refine (proj2 (Hempty _ eq_refl eq_refl)).
  unfold read_fails. vm_compute. discriminate.
Defined.

(** Start with an empty configuration, a registered parser that stages a
    tick function, and a host that refuses to arm the timer: the warning
    is logged, the rule set is built, and start fails. *)
Lemma start_empty_config_counterexample :
  NewCommonVmCtx 8 "demo"
    [ParseConfigBy (Some with_tick);
     ProcessRequestHeadersBy (Some mark_headers);
     ProcessRequestBodyBy (Some mark_body);
     ProcessStreamingRequestBodyBy (Some upper_chunk);
     ProcessResponseHeadersBy (Some mark_headers);
     ProcessResponseBodyBy (Some mark_body);
     ProcessStreamingResponseBodyBy (Some upper_chunk);
     ProcessStreamDoneBy (Some mark_done)]
  = (Returned vm_tick, []) /\
  raw_configuration process_unarmed = "" /\
  read_error process_unarmed = None /\
  hasCustomConfig (vm (plugin vm_tick)) = true /\
  (OnPluginStart (plugin vm_tick) process_unarmed).1.1
  = Returned OnPluginStartStatusFailed /\
  pevents (OnPluginStart (plugin vm_tick) process_unarmed).2
  = [EvHost OpGetPluginConfiguration;
     EvLog LvlWarn "config is empty, but has ParseConfigFunc";
     EvHost OpParseRuleConfig;
     EvHost (OpSetTickPeriodMilliSeconds 100);
     EvLog LvlError
       "SetTickPeriodMilliSeconds failed, onTick functions will not take effect."].
Proof. repeat split. Qed.

(** A matched exchange whose response is classified binary. *)
Lemma binary_guard_witness :
  let s := matched vm_all world_binary in
  (log vm_all = Some logger /\ binary_headers (Json := string) Response s) /\
  exists a s1 l1,
    OnHttpResponseHeaders vm_all 2 false s = (Returned a, s1) /\
    needResponseBody (ctx s1) = false /\
    events s1 = events s ++ l1 /\
    Forall (fun e => off_body Response e = true) l1 /\
    exists answers s2 l2,
      deliver_all vm_all mixed_signals s1 = (Returned answers, s2) /\
      needResponseBody (ctx s2) = false /\
      events s2 = events s1 ++ l2 /\
      Forall (fun e => off_body Response e = true) l2 /\
      Forall2 (fun sig a => is_body_signal Response sig = true ->
                            a = Some ActionContinue)
              mixed_signals answers.
Proof.
  assert (H2 : binary_headers (Json := string) Response (matched vm_all world_binary))
    by (split; [discriminate | reflexivity]).
  cbv zeta. split; [by split|].
  destruct (binary_guard Response vm_all logger 2 false (matched vm_all world_binary)
              mixed_signals eq_refl H2)
    as (o & s1 & l1 & E1 & _ & N1 & El1 & F1 &
        o2 & s2 & l2 & E2 & _ & N2 & El2 & F2 & A2 & _).
  destruct o as [a|msg]; [|vm_compute in E1; discriminate E1].
  destruct o2 as [answers|msg].
  - exists a, s1, l1. repeat (split; [assumption|]).
    exists answers, s2, l2. repeat (split; [assumption|]). by apply A2.
  - vm_compute in E1. injection E1 as _ <-. vm_compute in E2. discriminate E2.
Defined.

(** Options without a parser, for a configuration type of 8 bytes and for
    one of no bytes. *)
Lemma construction_without_parser_witness :
  Forall (fun o => is_parser_option o = false) no_parser_options /\
  (exists msg, (NewCommonVmCtx 8 "demo" no_parser_options).1 = Panicked msg) /\
  (exists c, NewCommonVmCtx 0 "demo" no_parser_options = (Returned c, []) /\
             hasCustomConfig c = false /\
             parseConfig c = Some parseEmptyPluginConfig).
Proof.
  assert (H : Forall (fun o => is_parser_option o = false) no_parser_options)
    by (repeat constructor).
  split; [exact H|]. split.
  - exact (proj2 (proj1 (construction_without_parser 8 "demo" no_parser_options H)
                        ltac:(discriminate))).
  - exact (proj2 (proj2 (construction_without_parser 0 "demo" no_parser_options H)
                        eq_refl)).
Defined.

(** The signals after the header phase of a matched exchange. *)
Lemma configuration_settled_witness :
  Forall (fun sig => is_request_headers sig = false) later_signals /\
  let s := matched vm_all world_matching in
  let s' := (deliver_all vm_all later_signals s).2 in
  config (ctx s') = Some "R" /\
  contextID (ctx s') = 7 /\
  exists l, events s' = events s ++ l /\
            Forall (fun e => is_match_call e = false) l.
Proof.
  assert (H : Forall (fun sig => is_request_headers sig = false) later_signals)
    by (repeat constructor).
  split; [exact H|].
  exact (configuration_settled vm_all later_signals (matched vm_all world_matching) H).
Defined.

(** The header phase of an exchange the rule matches. *)
Lemma request_headers_matched_witness :
  let s := fresh vm_all world_matching in
  (log vm_all = Some logger /\
   match_answer (Json := string) s = (Some "R", None)) /\
  exists a s' l,
    OnHttpRequestHeaders vm_all 3 false s = (Returned a, s') /\
    config (ctx s') = Some "R" /\
    events s' = events (after_match (Json := string) s) ++
                EvHost OpIsBinaryRequestBody ::
                EvInvoke (InvRequestHeaders "R") :: l /\
    Forall (fun e => method_event e = true) l.
Proof.
  assert (Hm : match_answer (Json := string) (fresh vm_all world_matching)
               = (Some "R", None)) by reflexivity.
  cbv zeta. split; [by split|].
  destruct (proj2 (proj2 (request_headers_matched vm_all logger 3 false
                            (fresh vm_all world_matching) "R" eq_refl Hm)
                         mark_headers eq_refl))
    as ([a|msg] & s' & l & E & _ & Hc & El & Fl).
  - by exists a, s', l.
  - vm_compute in E. discriminate E.
Defined.

(** The response-header phase of a matched exchange. *)
Lemma response_headers_matched_witness :
  let s := matched vm_all world_matching in
  (log vm_all = Some logger /\ config (ctx s) = Some "R") /\
  exists a s' l,
    OnHttpResponseHeaders vm_all 2 false s = (Returned a, s') /\
    config (ctx s') = Some "R" /\
    events s' = events s ++
                EvHost OpIsBinaryResponseBody ::
                EvInvoke (InvResponseHeaders "R") :: l /\
    Forall (fun e => method_event e = true) l.
Proof.
  cbv zeta. split; [by split|].
  destruct (proj2 (proj2 (response_headers_matched vm_all logger 2 false
                            (matched vm_all world_matching) "R" eq_refl eq_refl)
                         mark_headers eq_refl))
    as ([a|msg] & s' & l & E & _ & Hc & El & Fl).
  - by exists a, s', l.
  - vm_compute in E. discriminate E.
Defined.

(** The end of a matched exchange. *)
Lemma stream_done_matched_witness :
  let s := matched vm_all world_matching in
  (log vm_all = Some logger /\ config (ctx s) = Some "R") /\
  exists s' l,
    OnHttpStreamDone vm_all s = (Returned tt, s') /\
    config (ctx s') = Some "R" /\
    events s' = events s ++ EvInvoke (InvStreamDone "R") :: l /\
    Forall (fun e => method_event e = true) l.
Proof.
  cbv zeta. split; [by split|].
  destruct (proj2 (proj2 (stream_done_matched vm_all logger
                            (matched vm_all world_matching) "R" eq_refl eq_refl)
                         mark_done eq_refl))
    as ([[]|msg] & s' & l & E & _ & Hc & El & Fl).
  - by exists s', l.
  - vm_compute in E. discriminate E.
Defined.

(** A whole exchange of a plugin without body callbacks. *)
Lemma body_unread_by_default_witness :
  (log (vm (plugin vm_headers)) = Some logger /\
   onHttpBody Response (vm (plugin vm_headers)) = None /\
   onHttpStreamingBody Response (vm (plugin vm_headers)) = None) /\
  exists answers s',
    deliver_all vm_headers whole_exchange (fresh vm_headers world_matching)
      = (Returned answers, s') /\
    needResponseBody (ctx s') = false /\
    Forall (fun e => off_body Response e = true) (events s') /\
    Forall2 (fun sig a => is_body_signal Response sig = true ->
                          a = Some ActionContinue)
            whole_exchange answers.
Proof.
  split; [by repeat split|].
  destruct (body_unread_by_default Response (plugin vm_headers) logger 7
              world_matching whole_exchange eq_refl eq_refl eq_refl)
    as ([answers|msg] & s' & E & _ & N & F & A).
  - exists answers, s'. repeat (split; [assumption|]). by apply A.
  - vm_compute in E. discriminate E.
Defined.

(** A callback that opts out of the request body, and the signals that
    follow. *)
Lemma dont_read_body_witness :
  let s := matched vm_all world_matching in
  log vm_all = Some logger /\
  exists a s1 l1,
    run (Some logger) skip_body s = (Returned a, s1) /\
    needRequestBody (ctx s1) = false /\
    events s1 = events s ++ l1 /\
    Forall (fun e => method_event e = true) l1 /\
    exists answers s2 l2,
      deliver_all vm_all later_signals s1 = (Returned answers, s2) /\
      needRequestBody (ctx s2) = false /\
      events s2 = events s1 ++ l2 /\
      Forall (fun e => off_body Request e = true) l2 /\
      Forall2 (fun sig a => is_body_signal Request sig = true ->
                            a = Some ActionContinue)
              later_signals answers.
Proof.
  cbv zeta. split; [reflexivity|].
  destruct (proj2 (proj2 (dont_read_body Request vm_all logger
                            (fun _ => Ret ActionContinue) later_signals
                            (matched vm_all world_matching) eq_refl)))
    as (o & s1 & l1 & E1 & _ & N1 & El1 & F1 &
        o2 & s2 & l2 & E2 & _ & N2 & El2 & F2 & A2).
  destruct o as [a|msg]; [|vm_compute in E1; discriminate E1].
  destruct o2 as [answers|msg].
  - exists a, s1, l1. repeat (split; [assumption|]).
    exists answers, s2, l2. repeat (split; [assumption|]). by apply A2.
  - vm_compute in E1. injection E1 as _ <-. vm_compute in E2. discriminate E2.
Defined.

(** A callback that opts out of streaming the request body, and the
    signals that follow. *)
Lemma buffer_body_switch_witness :
  let s := matched vm_all world_matching in
  log vm_all = Some logger /\
  exists a s1 l1,
    run (Some logger) buffer_instead s = (Returned a, s1) /\
    streamingRequestBody (ctx s1) = false /\
    events s1 = events s ++ l1 /\
    Forall (fun e => method_event e = true) l1 /\
    exists answers s2 l2,
      deliver_all vm_all later_signals s1 = (Returned answers, s2) /\
      streamingRequestBody (ctx s2) = false /\
      events s2 = events s1 ++ l2 /\
      Forall (fun e => is_streaming_invoke Request e = false) l2 /\
      (onHttpRequestBody vm_all = None ->
       forall n eos,
         OnHttpRequestBody vm_all n eos s2 = (Returned ActionContinue, s2)).
Proof.
  cbv zeta. split; [reflexivity|].
  destruct (proj2 (proj2 (buffer_body_switch Request vm_all logger
                            (fun _ => Ret ActionContinue) later_signals
                            (matched vm_all world_matching) eq_refl)))
    as (o & s1 & l1 & E1 & _ & N1 & El1 & F1 &
        o2 & s2 & l2 & E2 & _ & N2 & El2 & F2 & A2).
  destruct o as [a|msg]; [|vm_compute in E1; discriminate E1].
  destruct o2 as [answers|msg].
  - exists a, s1, l1. repeat (split; [assumption|]).
    exists answers, s2, l2. by repeat (split; [assumption|]).
  - vm_compute in E1. injection E1 as _ <-. vm_compute in E2. discriminate E2.
Defined.



Lemma sim_tick_build_returns msg :
  (build (plugin vm_tick) process0).1 <> Panicked msg.
Proof. discriminate. Qed.

(** Start of a plugin whose parser stages a one-second tick function, on
    a process in which something was staged before. *)
Lemma start_installs_ticks_witness :
  (log (vm (plugin vm_tick)) = Some logger /\
   forall msg, (build (plugin vm_tick) process0).1 <> Panicked msg) /\
  exists st pc' p',
    OnPluginStart (plugin vm_tick) process0 = (Returned st, pc', p') /\
    OnPluginStart (plugin vm_tick) (pset_global (Some [odd_entry]) process0)
      = (Returned st, pc', p') /\
    vm pc' = vm_tick /\
    onTickFuncs pc' = Some [one_second_entry] /\
    exists l,
      pevents p' = pevents (build (plugin vm_tick) process0).2 ++
                   EvHost (OpSetTickPeriodMilliSeconds 100) :: l /\
      (st = OnPluginStartStatusOK <-> l = []).
Proof.
  split; [split; [reflexivity | exact sim_tick_build_returns]|].
  destruct (start_installs_ticks (plugin vm_tick) logger process0 eq_refl
              sim_tick_build_returns)
    as (st & pc' & p' & E & Hstaged & Hvm & _ & Hticks).
  exists st, pc', p'. split; [exact E|]. split; [apply Hstaged|].
  split; [exact Hvm|].
  refine (Hticks _ _).
  - unfold read_fails. vm_compute. discriminate.
  - intros [Hne _]. by apply Hne.
Defined.

(** The cadence of the one-second entry around its second firing. *)
Example ticks_after_one_second :
  fired 0 (run_ticks advance100 10 started_plugin started_process).2 = 1%nat /\
  fired 0 (run_ticks advance100 11 started_plugin started_process).2 = 2%nat.
Proof. split; reflexivity. Qed.

(** Two streamed chunks: each is fetched, handed to the callback and
    replaced by what the callback returns. *)
Example streamed_chunks :
  let r := deliver_all vm_all [RequestBody 5 false; RequestBody 6 true]
                       (matched vm_all world_matching) in
  r.1 = Returned [Some ActionContinue; Some ActionContinue] /\
  events r.2 =
  [EvHost (OpGetHttpRequestBody 0 5);
   EvInvoke (InvStreamingRequestBody "R" "hello" false);
   EvHost (OpReplaceHttpRequestBody "hello!");
   EvHost (OpGetHttpRequestBody 0 6);
   EvInvoke (InvStreamingRequestBody "R" "hello!" true);
   EvHost (OpReplaceHttpRequestBody "hello!!")].
Proof. split; reflexivity. Qed.

(** An export to the trace properties with an empty value and a property
    the host refuses to write: both are logged, the third entry is
    written, and the result is nil. *)
Example trace_export_partial :
  let s := with_attributes {[ "empty" := ""; "locked" := "x"; "ok" := "y" ]}
             (matched vm_all world_locked) in
  let r := WriteUserAttributeToTrace (Some logger) s in
  r.1 = Returned None /\
  props (world r.2) = {[ ["trace_span_tag.ok"] := "y" ]} /\
  length (filter (fun e => is_invoke e = false) (events r.2)) = 4%nat.
Proof. repeat split; vm_compute; reflexivity. Qed.

End Witnesses.
